(** * Verification of the Infisical synchronisation scripts

    A shallow embedding of the scripts under [infisical-envs/scripts]:

    - [sync_to_infisical.py]: the API client ([InfisicalClient]), the
      env-file parser and the tree walkers;
    - [compare_configs.py] and [compare_with_archive_v2.py]: the two
      offline comparators.

    Python strings are embedded as [string]; the character predicates
    ([str.upper], the white space of [str.strip]) are the ASCII ones.
    A Python [dict] is an insertion-ordered association list ([pydict]):
    iteration order is insertion order, assignment to an existing key
    keeps its position.  Remote calls run in a state-and-exception monad
    over an arbitrary remote store and record every request that is
    sent. *)

From Stdlib Require Import Ascii String.
From stdpp Require Import base tactics option list strings.

Local Open Scope list_scope.

#[local] Set Warnings "-clear-no-such-hyp".

(** ** Python string operations *)

Module Py.

(** White space for [str.strip()] without argument (ASCII range):
  TAB, LF, VT, FF, CR, FS, GS, RS, US and the space.  On a string
  with a character above 127 [str.strip()] removes more (U+0085,
  U+00A0, U+2000 to U+200A, U+3000 and the like), which [strip] below
  keeps. *)
Definition isspace (c : ascii) : bool :=
let n := nat_of_ascii c in
((9 <=? n) && (n <=? 13)) || ((28 <=? n) && (n <=? 32)).

Definition is_char (d c : ascii) : bool := Ascii.eqb c d.

Fixpoint lstrip_with (p : ascii -> bool) (s : string) : string :=
match s with
| EmptyString => EmptyString
| String c s' => if p c then lstrip_with p s' else s
end.

Fixpoint rstrip_with (p : ascii -> bool) (s : string) : string :=
match s with
| EmptyString => EmptyString
| String c s' =>
    match rstrip_with p s' with
    | EmptyString => if p c then EmptyString else String c EmptyString
    | r => String c r
    end
end.

Definition strip_with (p : ascii -> bool) (s : string) : string :=
rstrip_with p (lstrip_with p s).

(** [s.strip()], [s.rstrip(ch)], [s.strip(ch)] *)
Definition strip (s : string) : string := strip_with isspace s.
Definition rstrip (d : ascii) (s : string) : string := rstrip_with (is_char d) s.
Definition strip_char (d : ascii) (s : string) : string := strip_with (is_char d) s.

(** [s.startswith(p)] *)
Fixpoint startswith (p s : string) : bool :=
match p, s with
| EmptyString, _ => true
| String a p', String b s' => Ascii.eqb a b && startswith p' s'
| String _ _, EmptyString => false
end.

(** [s[n:]] *)
Fixpoint drop (n : nat) (s : string) : string :=
match n, s with
| O, _ => s
| S n', String _ s' => drop n' s'
| S _, EmptyString => EmptyString
end.

(** [s[:n]] *)
Fixpoint take (n : nat) (s : string) : string :=
match n, s with
| S n', String c s' => String c (take n' s')
| _, _ => EmptyString
end.

(** [s.endswith(suffix)] *)
Definition endswith (suffix s : string) : bool :=
(String.length suffix <=? String.length s)
&& bool_decide (drop (String.length s - String.length suffix) s = suffix).

(** [ch in s] *)
Fixpoint contains (d : ascii) (s : string) : bool :=
match s with
| EmptyString => false
| String c s' => Ascii.eqb c d || contains d s'
end.

(** [s.split(ch, 1)] on a string that contains [ch]: the text before the
  first occurrence and the text after it. *)
Fixpoint split1 (d : ascii) (s : string) : string * string :=
match s with
| EmptyString => (EmptyString, EmptyString)
| String c s' =>
    if Ascii.eqb c d then (EmptyString, s')
    else let '(a, b) := split1 d s' in (String c a, b)
end.

(** [s.split(ch)]: never empty, [''.split('/') = ['']]. *)
Fixpoint split (d : ascii) (s : string) : list string :=
match s with
| EmptyString => [EmptyString]
| String c s' =>
    if Ascii.eqb c d then EmptyString :: split d s'
    else match split d s' with
         | [] => [String c EmptyString]
         | w :: ws => String c w :: ws
         end
end.

(** [sep.join(parts)] *)
Fixpoint join (sep : string) (parts : list string) : string :=
match parts with
| [] => EmptyString
| [w] => w
| w :: ws => w +:+ sep +:+ join sep ws
end.

(** [l[:-1]] and [l[-1]] (the latter on a non-empty list). *)
Definition init {A} (l : list A) : list A := removelast l.
Definition last_or {A} (l : list A) (d : A) : A := List.last l d.

Definition upper_char (c : ascii) : ascii :=
let n := nat_of_ascii c in
if (97 <=? n) && (n <=? 122) then ascii_of_nat (n - 32) else c.

Fixpoint map_chars (f : ascii -> ascii) (s : string) : string :=
match s with
| EmptyString => EmptyString
| String c s' => String (f c) (map_chars f s')
end.

(** [s.upper()] and [s.replace(a, b)] for one-character [a] and [b].
  [upper] maps the ASCII letters, which is [str.upper()] on ASCII
  strings such as the service names of the scripts. *)
Definition upper (s : string) : string := map_chars upper_char s.
Definition replace (a b : ascii) (s : string) : string :=
map_chars (fun c => if Ascii.eqb c a then b else c) s.

Definition nonempty (s : string) : bool :=
match s with EmptyString => false | String _ _ => true end.

End Py.

(** ** Python dictionaries *)

Section PyDict.
Context {K V : Type} `{EqDecision K}.

Definition pydict : Type := list (K * V).

(** [d.get(k)] *)
Fixpoint dict_get (k : K) (d : pydict) : option V :=
  match d with
  | [] => None
  | (k', v) :: d' => if decide (k' = k) then Some v else dict_get k d'
  end.

(** [d[k] = v] *)
Fixpoint dict_set (k : K) (v : V) (d : pydict) : pydict :=
  match d with
  | [] => [(k, v)]
  | (k', v') :: d' =>
      if decide (k' = k) then (k', v) :: d' else (k', v') :: dict_set k v d'
  end.

(** [del d[k]] (on a key that is present) *)
Fixpoint dict_del (k : K) (d : pydict) : pydict :=
  match d with
  | [] => []
  | (k', v') :: d' =>
      if decide (k' = k) then d' else (k', v') :: dict_del k d'
  end.

Definition dict_keys (d : pydict) : list K := d.*1.

(** [k in d] *)
Definition dict_mem (k : K) (d : pydict) : bool := bool_decide (k ∈ dict_keys d).

(** [{key(x): val(x) for x in l}] *)
Definition dict_of_list {A} (key : A -> K) (val : A -> V) (l : list A) : pydict :=
  fold_left (fun d x => dict_set (key x) (val x) d) l [].
End PyDict.

Arguments pydict : clear implicits.

(** ** [sync_to_infisical.py]: the env-file parser *)

Module SyncToInfisical.

(** The body of the [for line in f] loop of [parse_env_file]: the
  binding a line contributes, if any. *)
Definition parse_line (line0 : string) : option (string * string) :=
let line := Py.strip line0 in
if negb (Py.nonempty line) || Py.startswith "#" line then None
else if Py.contains "="%char line then
  let '(key, value) := Py.split1 "="%char line in
  let key := Py.strip key in
  let value := Py.strip value in
  if Py.nonempty key then Some (key, value) else None
else None.

Definition parse_step (secrets : pydict string string) (line : string)
: pydict string string :=
match parse_line line with
| Some (key, value) => dict_set key value secrets
| None => secrets
end.

(** A file is given by the lines its iterator yields. *)
Definition parse_env_file (lines : list string) : pydict string string :=
fold_left parse_step lines [].

End SyncToInfisical.

(** ** [compare_configs.py] *)

Module CompareConfigs.

Definition EXPECTED_CHANGES : list string :=
[ "PUBLIC_URL"; "PUBLIC_BASE_URL"; "USER_AUTH_URL"; "OAUTH_ISSUER";
  "COMMERCE_API_URL"; "API_BASE_URL"; "NEXT_PUBLIC_BASE_URL";
  "NEXT_PUBLIC_USER_AUTH_URL"; "NEXT_PUBLIC_COMMERCE_BACKEND_URL";
  "NEXT_PUBLIC_SHOP_DOMAIN"; "CORS_ORIGINS";
  "CONTAINER_NAME"; "APP_NAME";
  "COMFY_MCP_PUBLIC_URL"; "FETCH_MCP_PUBLIC_URL"; "PERPLEXITY_MCP_PUBLIC_URL";
  "SHOPIFY_MCP_PUBLIC_URL"; "CHART_MCP_PUBLIC_URL"; "COMMERCE_MCP_PUBLIC_URL";
  "GOOGLE_ADS_MCP_PUBLIC_URL";
  "STORE_DOMAIN"; "SHOP_DOMAIN";
  "DATABASE_URL"; "REDIS_URL"; "DB_USER"; "DB_PASSWORD"; "DB_NAME";
  "OAUTH_CLIENT_ID"; "OAUTH_CLIENT_SECRET"; "SECRET_KEY"; "SESSION_SECRET";
  "APP_SECRET"; "EMAIL_PASSWORD_SECRET"; "NODE_ENV"; "LOG_LEVEL";
  "BACKEND_URL";
  "EMAIL_HOST"; "EMAIL_PORT"; "EMAIL_USER"; "EMAIL_PASS"; "EMAIL_FROM";
  "EMAIL_SECURE";
  "ANTHROPIC_API_KEY"; "OPENAI_API_KEY"; "PERPLEXITY_API_KEY" ].

(** [parse_env_file] of this script; a missing file gives the empty
  dictionary, which is [parse_env_file []] here. *)
Definition parse_line (line0 : string) : option (string * string) :=
let line := Py.strip line0 in
if negb (Py.nonempty line) || Py.startswith "#" line then None
else if Py.contains "="%char line then
  let '(key, value) := Py.split1 "="%char line in
  let key := Py.strip key in
  let value := Py.strip value in
  if Py.nonempty key then Some (key, value) else None
else None.

Definition parse_env_file (lines : list string) : pydict string string :=
fold_left (fun secrets line =>
             match parse_line line with
             | Some (key, value) => dict_set key value secrets
             | None => secrets
             end) lines [].

(** [f"{service_name.upper().replace('-', '_')}_"] *)
Definition service_prefix (service_name : string) : string :=
Py.replace "-"%char "_"%char (Py.upper service_name) +:+ "_".

Definition prefixes (service_name : string) : list string :=
[ service_prefix service_name;
  "COMFY_MCP_"; "FETCH_MCP_"; "PERPLEXITY_MCP_";
  "SHOPIFY_MCP_"; "CHART_MCP_"; "COMMERCE_MCP_";
  "GOOGLE_ADS_MCP_" ].

(** The [for prefix in prefixes] loop of [normalize_key]. *)
Fixpoint strip_first_prefix (ps : list string) (key : string) : string :=
match ps with
| [] => key
| prefix :: ps' =>
    if Py.startswith prefix key then Py.drop (String.length prefix) key
    else strip_first_prefix ps' key
end.

Definition normalize_key (key service_name : string) : string :=
strip_first_prefix (prefixes service_name) key.

Record result := mk_result {
matched : list (string * string);
changed : list (string * string * string);
expected_change : list (string * string * string);
only_old : list (string * string);
only_new : list (string * string)
}.

Definition empty_result : result := mk_result [] [] [] [] [].

Definition add_matched (x : string * string) (r : result) : result :=
mk_result (matched r ++ [x]) (changed r) (expected_change r) (only_old r) (only_new r).
Definition add_changed (x : string * string * string) (r : result) : result :=
mk_result (matched r) (changed r ++ [x]) (expected_change r) (only_old r) (only_new r).
Definition add_expected_change (x : string * string * string) (r : result) : result :=
mk_result (matched r) (changed r) (expected_change r ++ [x]) (only_old r) (only_new r).
Definition add_only_old (x : string * string) (r : result) : result :=
mk_result (matched r) (changed r) (expected_change r) (only_old r ++ [x]) (only_new r).
Definition add_only_new (x : string * string) (r : result) : result :=
mk_result (matched r) (changed r) (expected_change r) (only_old r) (only_new r ++ [x]).

(** First loop: [old_normalized[norm_key] = (k, v)]. *)
Definition normalize_old (service_name : string) (old_config : pydict string string)
: pydict string (string * string) :=
fold_left (fun acc '(k, v) => dict_set (normalize_key k service_name) (k, v) acc)
          old_config [].

(** Body of the second loop, over [new_config.items()]; the state is the
  result under construction and what is left of [old_normalized]. *)
Definition compare_step (st : result * pydict string (string * string))
                      (kv : string * string)
: result * pydict string (string * string) :=
let '(res, old_normalized) := st in
let '(new_key, new_val) := kv in
match dict_get new_key old_normalized with
| Some (old_key, old_val) =>
    let res' :=
      if bool_decide (old_val = new_val) then add_matched (new_key, new_val) res
      else if bool_decide (new_key ∈ EXPECTED_CHANGES)
              || bool_decide (old_key ∈ EXPECTED_CHANGES)
           then add_expected_change (new_key, old_val, new_val) res
           else add_changed (new_key, old_val, new_val) res in
    (res', dict_del new_key old_normalized)
| None => (add_only_new (new_key, new_val) res, old_normalized)
end.

Definition compare_configs (old_config new_config : pydict string string)
                         (service_name env : string) : result :=
let old_normalized := normalize_old service_name old_config in
let '(res, rest) := fold_left compare_step new_config (empty_result, old_normalized) in
fold_left (fun r '(norm_key, (orig_key, val)) => add_only_old (orig_key, val) r)
          rest res.

(** The key under which each entry of the five buckets is reported. *)
Definition bucket_keys (r : result) : list string :=
(matched r).*1 ++ (changed r).*1.*1 ++ (expected_change r).*1.*1
++ (only_old r).*1 ++ (only_new r).*1.

(** The keys filed under the four buckets the loop over the new
  configuration fills. *)
Definition new_side (r : result) : list string :=
(matched r).*1 ++ (changed r).*1.*1 ++ (expected_change r).*1.*1 ++ (only_new r).*1.

(** Every entry of [old_normalized] is stored under the normalised form
  of the original key it carries. *)
Definition faithful (service_name : string) (d : pydict string (string * string)) : Prop :=
forall nk ok v, (nk, (ok, v)) ∈ d -> normalize_key ok service_name = nk.

(** The key each entry stands for: the entries of [only_old] carry the
  original key of the old configuration, which was classified under
  its normalised form. *)
Definition classified_keys (service_name : string) (r : result) : list string :=
(matched r).*1 ++ (changed r).*1.*1 ++ (expected_change r).*1.*1
++ ((fun k => normalize_key k service_name) <$> (only_old r).*1)
++ (only_new r).*1.

End CompareConfigs.

(** The keys found in the buckets form a strict partition of a universe
    of keys: no key twice, and exactly the keys of the universe. *)
Definition strict_partition (in_buckets universe : list string) : Prop :=
  NoDup in_buckets /\ forall k, k ∈ in_buckets <-> k ∈ universe.

(** ** [compare_with_archive_v2.py] *)

Module CompareWithArchiveV2.

Definition EXPECTED_DIFF_KEYS : list string :=
[ "DATABASE_URL"; "DB_HOST"; "DB_PORT"; "DB_NAME"; "DB_USER"; "DB_PASSWORD";
  "DATABASE_HOST"; "DATABASE_PORT";
  "REDIS_URL"; "REDIS_HOST"; "REDIS_PORT"; "REDIS_DB";
  "ANTHROPIC_API_KEY"; "OPENAI_API_KEY"; "PERPLEXITY_API_KEY";
  "RESEND_API_KEY"; "GOOGLE_ADS_CLIENT_ID"; "GOOGLE_ADS_CLIENT_SECRET";
  "GOOGLE_ADS_DEVELOPER_TOKEN"; "GOOGLE_ADS_REFRESH_TOKEN";
  "GOOGLE_ADS_MANAGER_ACCOUNT_ID"; "GOOGLE_ADS_CUSTOMER_ID";
  "GOOGLE_ADS_LOGIN_CUSTOMER_ID";
  "SHOPIFY_ACCESS_TOKEN"; "SHOPIFY_SHOP_DOMAIN";
  "EASYSHIP_API_KEY"; "EASYSHIP_API_URL"; "EASYSHIP_WEBHOOK_SECRET";
  "EXCHANGERATE_API_KEY"; "FREECURRENCY_API_KEY";
  "STRIPE_SECRET_KEY"; "STRIPE_CONNECT_CLIENT_ID"; "STRIPE_CONNECT_WEBHOOK_SECRET";
  "STRIPE_WEBHOOK_SECRET"; "STRIPE_PRICE_ID_ENTERPRISE_MONTHLY";
  "STRIPE_PRICE_ID_ENTERPRISE_YEARLY"; "STRIPE_PRICE_ID_PRO_MONTHLY";
  "STRIPE_PRICE_ID_PRO_YEARLY";
  "MINIO_ACCESS_KEY"; "MINIO_SECRET_KEY"; "MINIO_ENDPOINT";
  "MINIO_BUCKET"; "MINIO_TEMP_BUCKET"; "MINIO_PUBLIC_DOMAIN";
  "OAUTH_CLIENT_ID"; "OAUTH_CLIENT_SECRET";
  "PUBLIC_URL"; "PUBLIC_BASE_URL"; "USER_AUTH_URL"; "OAUTH_ISSUER";
  "COMMERCE_API_URL"; "API_BASE_URL"; "BACKEND_URL"; "STORE_DOMAIN";
  "MCP_HOST_URL"; "DEVICE_VERIFICATION_URI";
  "NEXT_PUBLIC_BASE_URL"; "NEXT_PUBLIC_USER_AUTH_URL";
  "NEXT_PUBLIC_COMMERCE_BACKEND_URL"; "NEXT_PUBLIC_SHOP_DOMAIN";
  "NEXT_PUBLIC_AUTH_URL"; "NEXT_PUBLIC_API_BASE_URL";
  "RESEND_FROM_EMAIL"; "RESEND_FROM_NAME"; "RESEND_REPLY_TO";
  "EMAIL_HOST"; "EMAIL_PORT"; "EMAIL_USER"; "EMAIL_PASS"; "EMAIL_FROM";
  "CORS_ORIGINS" ].

(** This parser keeps a binding whose key is empty: there is no
  [if key] test before [result[key.strip()] = value.strip()]. *)
Definition parse_line (line0 : string) : option (string * string) :=
let line := Py.strip line0 in
if negb (Py.nonempty line) || Py.startswith "#" line then None
else if Py.contains "="%char line then
  let '(key, value) := Py.split1 "="%char line in
  Some (Py.strip key, Py.strip value)
else None.

Definition parse_env_file (lines : list string) : pydict string string :=
fold_left (fun result line =>
             match parse_line line with
             | Some (key, value) => dict_set key value result
             | None => result
             end) lines [].

Record result := mk_result {
matched : list string;
expected_diff : list (string * string * string);
unexpected_diff : list (string * string * string);
only_expanded : list (string * string);
only_archive : list (string * string)
}.

Definition empty_result : result := mk_result [] [] [] [] [].

(** Body of [for key in all_keys]. *)
Definition compare_step (expanded archive : pydict string string)
                      (r : result) (key : string) : result :=
match dict_get key expanded, dict_get key archive with
| None, arc_val =>
    mk_result (matched r) (expected_diff r) (unexpected_diff r) (only_expanded r)
              (only_archive r ++ [(key, default "" arc_val)])
| Some exp_val, None =>
    mk_result (matched r) (expected_diff r) (unexpected_diff r)
              (only_expanded r ++ [(key, exp_val)]) (only_archive r)
| Some exp_val, Some arc_val =>
    if bool_decide (exp_val = arc_val) then
      mk_result (matched r ++ [key]) (expected_diff r) (unexpected_diff r)
                (only_expanded r) (only_archive r)
    else if bool_decide (key ∈ EXPECTED_DIFF_KEYS) then
      mk_result (matched r) (expected_diff r ++ [(key, arc_val, exp_val)])
                (unexpected_diff r) (only_expanded r) (only_archive r)
    else
      mk_result (matched r) (expected_diff r)
                (unexpected_diff r ++ [(key, arc_val, exp_val)])
                (only_expanded r) (only_archive r)
end.

(** [all_keys = set(expanded.keys()) | set(archive.keys())] is a Python
  set: its elements are the keys of either dictionary, each once, and
  the order in which the loop visits them is not specified.  The
  comparator is therefore a function of the visiting order [all_keys]. *)
Definition compare_configs_in_order (all_keys : list string)
                                  (expanded archive : pydict string string) : result :=
fold_left (compare_step expanded archive) all_keys empty_result.

(** One admissible visiting order. *)
Definition compare_configs (expanded archive : pydict string string) : result :=
compare_configs_in_order (remove_dups (dict_keys expanded ++ dict_keys archive))
                         expanded archive.

Definition bucket_keys (r : result) : list string :=
matched r ++ (expected_diff r).*1.*1 ++ (unexpected_diff r).*1.*1
++ (only_expanded r).*1 ++ (only_archive r).*1.

End CompareWithArchiveV2.

(** ** The remote store and the monad of remote calls *)

(** What Python raises in the modelled code: [raise_for_status] raises
    [HTTPError] on a 4xx or 5xx answer, [requests] raises
    [ConnectionError] when the transport fails, [open] raises
    [IsADirectoryError], [iterdir] raises [NotADirectoryError] or
    [FileNotFoundError], and the interpreter raises [RecursionError]
    when calls nest too deep.  All are subclasses of [Exception]. *)
Inductive exn :=
| HTTPError (status : nat)
| ConnectionError
| IsADirectoryError
| NotADirectoryError
| FileNotFoundError
| RecursionError.

Definition not_found : exn := HTTPError 404.

Record folder := mk_folder { folder_id : string; folder_name : string }.
Record secret := mk_secret { secretKey : string; secretValue : option string }.
Record secret_import := mk_secret_import {
  import_id : string;
  importEnv_slug : option string;
  importPath : option string
}.

(** The requests [InfisicalClient] sends. *)
Inductive call :=
| ListFolders (environment path : string)
| CreateFolder (environment name path : string)
| DeleteFolder (environment folder_id parent_path : string)
| ListSecrets (environment path : string)
| CreateSecret (environment key value path : string)
| UpdateSecret (environment key value path : string)
| DeleteSecret (environment key path : string)
| ListSecretImports (environment path : string)
| CreateSecretImport (environment path import_env import_path : string)
| DeleteSecretImport (environment path import_id : string).

(** The JSON body of a successful answer, as far as the client reads it. *)
Inductive payload :=
| Done
| Folders (l : list folder)
| Secrets (l : list secret)
| SecretImports (l : list secret_import).

Definition response : Type := exn + payload.

(** A request that was sent, with the answer it got. *)
Definition event : Type := call * response.

(** Requests that write to the store. *)
Definition mutating (c : call) : bool :=
  match c with
  | ListFolders _ _ | ListSecrets _ _ | ListSecretImports _ _ => false
  | _ => true
  end.

(** The statistics [{"created": .., "updated": .., "unchanged": .., "failed": ..}]. *)
Record stats := mk_stats { created : nat; updated : nat; unchanged : nat; failed : nat }.

Definition no_stats : stats := mk_stats 0 0 0 0.
Definition add_stats (a b : stats) : stats :=
  mk_stats (created a + created b) (updated a + updated b)
           (unchanged a + unchanged b) (failed a + failed b).
Definition count_created (s : stats) : stats :=
  mk_stats (created s + 1) (updated s) (unchanged s) (failed s).
Definition count_updated (s : stats) : stats :=
  mk_stats (created s) (updated s + 1) (unchanged s) (failed s).
Definition count_unchanged (s : stats) : stats :=
  mk_stats (created s) (updated s) (unchanged s + 1) (failed s).
Definition count_failed (s : stats) : stats :=
  mk_stats (created s) (updated s) (unchanged s) (failed s + 1).

(** The store is any state machine answering requests: nothing is
    assumed about which requests fail or what the listings contain. *)
Class RemoteStore (W : Type) := respond : call -> W -> response * W.

Section Client.
Context {W : Type} `{RemoteStore W}.

(** A computation starts in a store state and ends with a value or a
    raised exception, the new store state and the requests sent. *)
Definition M (A : Type) : Type := W -> (exn + A) * W * list event.

Definition ret {A} (a : A) : M A := fun w => (inr a, w, []).

Definition bind {A B} (m : M A) (f : A -> M B) : M B :=
  fun w =>
    match m w with
    | (inl e, w', t) => (inl e, w', t)
    | (inr a, w', t) => let '(r, w'', t') := f a w' in (r, w'', t ++ t')
    end.

Definition raise {A} (e : exn) : M A := fun w => (inl e, w, []).

(** [try: m  except Exception: h] *)
Definition try_except {A} (m : M A) (h : exn -> M A) : M A :=
  fun w =>
    match m w with
    | (inl e, w', t) => let '(r, w'', t') := h e w' in (r, w'', t ++ t')
    | (inr a, w', t) => (inr a, w', t)
    end.

(** [try: m  except Exception: pass] *)
Definition try_pass (m : M unit) : M unit := try_except m (fun _ => ret tt).

Definition request (c : call) : M payload :=
  fun w => let '(r, w') := respond c w in (r, w', [(c, r)]).

#[global] Instance M_ret : MRet M := @ret.
#[global] Instance M_bind : MBind M := fun A B f m => bind m f.

(** [for x in l: body(x)] *)
Fixpoint for_each {A} (l : list A) (body : A -> M unit) : M unit :=
  match l with
  | [] => ret tt
  | x :: l' => bind (body x) (fun _ => for_each l' body)
  end.

(** A loop that updates a local variable. *)
Fixpoint fold_m {A S} (body : S -> A -> M S) (l : list A) (s : S) : M S :=
  match l with
  | [] => ret s
  | x :: l' => bind (body s x) (fun s' => fold_m body l' s')
  end.

(** *** [InfisicalClient] *)

(** [resp.json().get("folders", [])] and the like: a body without the
    expected field reads as the empty list. *)
Definition list_folders (environment path : string) : M (list folder) :=
  p ← request (ListFolders environment path);
  ret (match p with Folders l => l | _ => [] end).

Definition create_folder (environment name path : string) : M unit :=
  request (CreateFolder environment name path);; ret tt.

Definition delete_folder (environment folder_id parent_path : string) : M unit :=
  request (DeleteFolder environment folder_id parent_path);; ret tt.

Definition list_secrets (environment path : string) : M (list secret) :=
  p ← request (ListSecrets environment path);
  ret (match p with Secrets l => l | _ => [] end).

Definition create_secret (environment key value path : string) : M unit :=
  request (CreateSecret environment key value path);; ret tt.

Definition update_secret (environment key value path : string) : M unit :=
  request (UpdateSecret environment key value path);; ret tt.

Definition delete_secret (environment key path : string) : M unit :=
  request (DeleteSecret environment key path);; ret tt.

Definition list_secret_imports (environment path : string) : M (list secret_import) :=
  p ← request (ListSecretImports environment path);
  ret (match p with SecretImports l => l | _ => [] end).

Definition create_secret_import (environment path import_env import_path : string)
  : M unit :=
  request (CreateSecretImport environment path import_env import_path);; ret tt.

Definition delete_secret_import (environment path import_id : string) : M unit :=
  request (DeleteSecretImport environment path import_id);; ret tt.

Definition delete_all_secret_imports (environment path : string) : M nat :=
  imports ← list_secret_imports environment path;
  fold_m (fun count imp =>
            try_except
              (delete_secret_import environment path (import_id imp);;
               ret (count + 1))
              (fun _ => ret count))
         imports 0.

(** [parent_path] and [folder_name] of step 4 of
    [delete_folder_recursive]. *)
Definition parent_and_name (folder_path : string) : string * string :=
  let stripped := Py.strip_char "/"%char folder_path in
  if Py.contains "/"%char stripped then
    ("/" +:+ Py.join "/" (Py.init (Py.split "/"%char stripped)),
     Py.last_or (Py.split "/"%char stripped) "")
  else ("/", stripped).

(** Step 4 of [delete_folder_recursive]: the folder is looked up by
    name among the children of its parent and deleted by identifier. *)
Definition delete_folder_itself (environment folder_path : string) : M bool :=
  let '(parent_path, name) := parent_and_name folder_path in
  folders ← list_folders environment parent_path;
  match List.find (fun f => bool_decide (folder_name f = name)) folders with
  | Some f => delete_folder environment (folder_id f) parent_path;; ret true
  | None => ret false
  end.

(** One activation of [delete_folder_recursive]; [self_call] stands
    for the recursive call. *)
Definition delete_folder_recursive_body
    (self_call : string -> string -> M bool)
    (environment folder_path0 : string) : M bool :=
  let folder_path := Py.rstrip "/"%char folder_path0 in
  if negb (Py.nonempty folder_path) || bool_decide (folder_path = "/") then
    ret false
  else
    try_pass (delete_all_secret_imports environment folder_path;; ret tt);;
    try_pass (secrets ← list_secrets environment folder_path;
              for_each secrets (fun s =>
                try_pass (delete_secret environment (secretKey s) folder_path)));;
    try_pass (subfolders ← list_folders environment folder_path;
              for_each subfolders (fun subfolder =>
                self_call environment
                          (folder_path +:+ "/" +:+ folder_name subfolder);;
                ret tt));;
    delete_folder_itself environment folder_path.

(** [depth] is the number of nested activations the interpreter still
    allows; a call beyond it raises [RecursionError]. *)
Fixpoint delete_folder_recursive (depth : nat) : string -> string -> M bool :=
  delete_folder_recursive_body
    (match depth with
     | O => fun _ _ => raise RecursionError
     | S depth' => delete_folder_recursive depth'
     end).

(** Body of the [for part in parts] loop of [ensure_folder_path]; the
    value is the next [current_path]. *)
Definition ensure_folder_step (environment current_path part : string) : M string :=
  existing ← list_folders environment current_path;
  let existing_names := folder_name <$> existing in
  (if bool_decide (part ∈ existing_names) then ret tt
   else create_folder environment part current_path);;
  ret (current_path +:+ part +:+ "/").

Definition ensure_folder_path (environment folder_path : string) : M unit :=
  if bool_decide (folder_path = "/") || negb (Py.nonempty folder_path) then ret tt
  else
    let parts := Py.split "/"%char (Py.strip_char "/"%char folder_path) in
    fold_m (ensure_folder_step environment) parts "/";;
    ret tt.

(** Body of the [for key, value in secrets.items()] loop of
    [set_secrets_from_env], with its [try] and [except]. *)
Definition set_secret_step (environment path : string) (dry_run : bool)
                           (existing : pydict string secret)
                           (st : stats) (kv : string * string) : M stats :=
  let '(key, value) := kv in
  try_except
    (match dict_get key existing with
     | Some s =>
         if bool_decide (secretValue s ≠ Some value) then
           (if dry_run then ret tt
            else update_secret environment key value path);;
           ret (count_updated st)
         else ret (count_unchanged st)
     | None =>
         (if dry_run then ret tt
          else create_secret environment key value path);;
         ret (count_created st)
     end)
    (fun _ => ret (count_failed st)).

Definition set_secrets_from_env (environment : string) (env_file : list string)
                                (path : string) (dry_run : bool) : M stats :=
  let secrets := SyncToInfisical.parse_env_file env_file in
  match secrets with
  | [] => ret no_stats
  | _ =>
      l ← list_secrets environment path;
      let existing := dict_of_list secretKey id l in
      fold_m (set_secret_step environment path dry_run existing) secrets no_stats
  end.

Definition import_matches (import_env import_path : string) (imp : secret_import) : bool :=
  bool_decide (importEnv_slug imp = Some import_env)
  && bool_decide (importPath imp = Some import_path).

(** Returns [True] when it created the edge, [False] when it exists. *)
Definition ensure_secret_import (environment path import_env import_path : string)
  : M bool :=
  existing ← list_secret_imports environment path;
  if existsb (import_matches import_env import_path) existing then ret false
  else create_secret_import environment path import_env import_path;; ret true.

End Client.

Arguments M W : clear implicits.

(** The paths that are empty or made of slashes only. *)
Definition only_slashes (path : string) : bool :=
  forallb (Py.is_char "/"%char) (list_ascii_of_string path).

(** ** The local tree and the tree walkers *)

(** A directory lists its entries in increasing name order, the order in
    which [sorted(base_dir.iterdir())] and [sorted(base_dir.glob(..))]
    visit them. *)
Unset Elimination Schemes.
Inductive fs_entry :=
| File (name : string) (lines : list string)
| Dir (name : string) (entries : list fs_entry).
Set Elimination Schemes.

(** Induction on a local tree. *)
Fixpoint fs_entry_tree_ind (P : fs_entry -> Prop)
    (Hfile : forall name lines, P (File name lines))
    (Hdir : forall name entries, Forall P entries -> P (Dir name entries))
    (e : fs_entry) {struct e} : P e :=
  match e with
  | File name lines => Hfile name lines
  | Dir name entries =>
      Hdir name entries
           ((fix all (l : list fs_entry) : Forall P l :=
               match l with
               | [] => List.Forall_nil P
               | x :: l' =>
                   @List.Forall_cons _ P x l' (fs_entry_tree_ind P Hfile Hdir x) (all l')
               end) entries)
  end.

Definition entry_name (e : fs_entry) : string :=
  match e with File n _ | Dir n _ => n end.

Definition is_dir (e : fs_entry) : bool :=
  match e with Dir _ _ => true | File _ _ => false end.

(** [base_dir.glob("*.env")] selects by name only. *)
Definition glob_env (entries : list fs_entry) : list fs_entry :=
  List.filter (fun e => Py.endswith ".env" (entry_name e)) entries.

(** [Path.stem] of a name that ends in [.env]: the name without that
    suffix, except for the name [.env] itself, which has no suffix. *)
Definition stem (name : string) : string :=
  if 4 <? String.length name then Py.take (String.length name - 4) name else name.

(** [dir / name] followed by [exists()]. *)
Definition lookup_entry (name : string) (entries : list fs_entry) : option fs_entry :=
  List.find (fun e => bool_decide (entry_name e = name)) entries.

(** An entry of the list of processed services. *)
Record service := mk_service {
  svc_path : string;
  has_common : bool;
  has_prod : bool;
  has_staging : bool
}.

(** The statistics of step 4. *)
Record import_stats := mk_import_stats { imports_created : nat; imports_unchanged : nat }.

Section Walkers.
Context {W : Type} `{RemoteStore W}.

(** [open(env_file)] followed by the parse, inside
    [set_secrets_from_env]. *)
Definition set_secrets_from_entry (environment : string) (env_file : fs_entry)
                                  (path : string) (dry_run : bool) : M W stats :=
  match env_file with
  | File _ lines => set_secrets_from_env environment lines path dry_run
  | Dir _ _ => raise IsADirectoryError
  end.

Definition shared_target_path (base_path folder_name : string) : string :=
  if bool_decide (base_path = "/") then "/" +:+ folder_name
  else Py.rstrip "/"%char base_path +:+ "/" +:+ folder_name.

(** What [import_env_files_recursive] does for one [env_file] and what
    [import_service_env] does: the folder path is ensured whatever
    [dry_run] is, then the file is reconciled. *)
Definition import_service_env (env_file : fs_entry) (environment target_path : string)
                              (dry_run : bool) : M W stats :=
  ensure_folder_path environment target_path;;
  set_secrets_from_entry environment env_file target_path dry_run.

(** [import_env_files_recursive] on an existing [base_dir]; on a file,
    [glob] yields nothing and [iterdir] raises. *)
Fixpoint import_env_files_recursive (base_dir : fs_entry)
    (environment base_path : string) (dry_run : bool) {struct base_dir} : M W stats :=
  match base_dir with
  | File _ _ => raise NotADirectoryError
  | Dir _ entries =>
      total_stats ←
        fold_m (fun total_stats env_file =>
                  let target_path :=
                    shared_target_path base_path (stem (entry_name env_file)) in
                  stats ← import_service_env env_file environment target_path dry_run;
                  ret (add_stats total_stats stats))
               (glob_env entries) no_stats;
      fold_m (fun total_stats subdir =>
                match subdir with
                | Dir name _ =>
                    sub_stats ← import_env_files_recursive subdir environment
                                  (Py.rstrip "/"%char base_path +:+ "/" +:+ name) dry_run;
                    ret (add_stats total_stats sub_stats)
                | File _ _ => ret total_stats
                end) entries total_stats
  end.

(** The guarded variant used by [sync_single_file] and [sync_by_path]:
    [if not dry_run: client.ensure_folder_path(..)]. *)
Definition sync_mapped_file (env_file : fs_entry) (environment path : string)
                            (dry_run : bool) : M W stats :=
  (if dry_run then ret tt else ensure_folder_path environment path);;
  set_secrets_from_entry environment env_file path dry_run.

(** [shared_dir / dir_name] of [step2_import_shared_secrets], when it
    exists; [v2] lists the entries of the [v2] directory. *)
Definition shared_env_dir (v2 : list fs_entry) (dir_name : string) : option fs_entry :=
  match lookup_entry "shared-secrets" v2 with
  | Some (Dir _ entries) => lookup_entry dir_name entries
  | _ => None
  end.

Definition step2_import_shared_secrets (v2 : list fs_entry) (dry_run : bool) : M W stats :=
  fold_m (fun grand_total env_slug =>
            match shared_env_dir v2 env_slug with
            | Some env_dir =>
                stats ← import_env_files_recursive env_dir env_slug "/shared-secrets" dry_run;
                ret (add_stats grand_total stats)
            | None => ret grand_total
            end)
         ["common"; "prod"; "staging"] no_stats.

(** The optional import of one of the three files of a service
    directory. *)
Definition import_if_exists (env_file : option fs_entry) (environment target_path : string)
                            (dry_run : bool) (total_stats : stats) : M W stats :=
  match env_file with
  | Some f =>
      stats ← import_service_env f environment target_path dry_run;
      ret (add_stats total_stats stats)
  | None => ret total_stats
  end.

Definition is_some {A} (o : option A) : bool :=
  match o with Some _ => true | None => false end.

(** [import_service_dir] on a directory: the processed services and the
    statistics. *)
Fixpoint import_service_dir (service_dir : fs_entry) (base_path : string)
    (dry_run : bool) {struct service_dir} : M W (list service * stats) :=
  match service_dir with
  | File _ _ => raise NotADirectoryError
  | Dir _ entries =>
      let common_env := lookup_entry "common.env" entries in
      let prod_env := lookup_entry "prod.env" entries in
      let staging_env := lookup_entry "staging.env" entries in
      here ←
        (if is_some common_env || is_some prod_env || is_some staging_env then
           s1 ← import_if_exists common_env "common" base_path dry_run no_stats;
           s2 ← import_if_exists prod_env "prod" base_path dry_run s1;
           s3 ← import_if_exists staging_env "staging" base_path dry_run s2;
           ret ([mk_service base_path (is_some common_env) (is_some prod_env)
                            (is_some staging_env)], s3)
         else ret ([], no_stats));
      fold_m (fun acc subdir =>
                match subdir with
                | Dir name _ =>
                    if negb (Py.startswith "." name) then
                      sub ← import_service_dir subdir (base_path +:+ "/" +:+ name) dry_run;
                      ret (acc.1 ++ sub.1, add_stats acc.2 sub.2)
                    else ret acc
                | File _ _ => ret acc
                end) entries here
  end.

Definition step3_import_services (v2 : list fs_entry) (dry_run : bool)
  : M W (list service * stats) :=
  match lookup_entry "services" v2 with
  | None => raise FileNotFoundError
  | Some (File _ _) => raise NotADirectoryError
  | Some (Dir _ service_dirs) =>
      fold_m (fun acc service_dir =>
                match service_dir with
                | Dir service_name _ =>
                    sub ← import_service_dir service_dir ("/services/" +:+ service_name)
                                             dry_run;
                    ret (acc.1 ++ sub.1, add_stats acc.2 sub.2)
                | File _ _ => ret acc
                end) service_dirs ([], no_stats)
  end.

(** One edge of step 4; [True] when the edge is (or, in preview, would
    be) created.  The preview lists the edges and sends no create. *)
Definition setup_service_import (environment service_path : string) (dry_run : bool)
  : M W bool :=
  if dry_run then
    existing ← list_secret_imports environment service_path;
    ret (negb (existsb (import_matches "common" service_path) existing))
  else ensure_secret_import environment service_path "common" service_path.

Definition count_import (created : bool) (st : import_stats) : import_stats :=
  if created then mk_import_stats (imports_created st + 1) (imports_unchanged st)
  else mk_import_stats (imports_created st) (imports_unchanged st + 1).

(** Body of the loop of [step4_setup_service_imports]. *)
Definition setup_service_imports_step (dry_run : bool) (st : import_stats) (svc : service)
  : M W import_stats :=
  if has_common svc then
    st1 ← (if has_prod svc then
             created ← setup_service_import "prod" (svc_path svc) dry_run;
             ret (count_import created st)
           else ret st);
    (if has_staging svc then
       created ← setup_service_import "staging" (svc_path svc) dry_run;
       ret (count_import created st1)
     else ret st1)
  else ret st.

Definition step4_setup_service_imports (services : list service) (dry_run : bool)
  : M W import_stats :=
  fold_m (setup_service_imports_step dry_run) services (mk_import_stats 0 0).

(** The staged sync of [main], stages 2 to 4: the totals each stage
    prints.  Stage 1 only lists, creates and deletes environments. *)
Definition full_sync (v2 : list fs_entry) (dry_run : bool)
  : M W (stats * stats * import_stats) :=
  shared ← step2_import_shared_secrets v2 dry_run;
  services ← step3_import_services v2 dry_run;
  links ← step4_setup_service_imports services.1 dry_run;
  ret (shared, services.2, links).

End Walkers.

(** ** An in-memory remote store *)

(** Modelled from the spec: the remote store of section 6 is an external
    service and none of its code is in the repository.  This store keeps
    folders, secrets and import edges per (environment, path), answers
    the listing, create, update and delete requests of section 6 on
    them, and fails the requests a fault schedule tells it to fail. *)
Module MemStore.

Definition location : Type := string * list string.

Definition segments (path : string) : list string :=
  List.filter Py.nonempty (Py.split "/"%char path).

Definition loc (environment path : string) : location :=
  (environment, segments path).

Record store := mk_store {
  folders : list (location * string);
  secrets : pydict location (pydict string string);
  imports : list (location * (string * string));
  faults : list (option exn)
}.

Definition empty : store := mk_store [] [] [] [].

Definition id_of_folder (name : string) : string := "f-" +:+ name.
Definition id_of_import (edge : string * string) : string :=
  "i-" +:+ edge.1 +:+ ":" +:+ edge.2.

Definition children (l : location) (s : store) : list string :=
  snd <$> List.filter (fun x => bool_decide (x.1 = l)) (folders s).

Definition secrets_at (l : location) (s : store) : pydict string string :=
  default [] (dict_get l (secrets s)).

Definition imports_at (l : location) (s : store) : list (string * string) :=
  snd <$> List.filter (fun x => bool_decide (x.1 = l)) (imports s).

Definition with_folders (f : list (location * string)) (s : store) : store :=
  mk_store f (secrets s) (imports s) (faults s).
Definition with_secrets_at (l : location) (d : pydict string string) (s : store) : store :=
  mk_store (folders s) (dict_set l d (secrets s)) (imports s) (faults s).
Definition with_imports (i : list (location * (string * string))) (s : store) : store :=
  mk_store (folders s) (secrets s) i (faults s).
Definition with_faults (f : list (option exn)) (s : store) : store :=
  mk_store (folders s) (secrets s) (imports s) f.

(** The answer of a request that is not made to fail. *)
Definition serve (c : call) (s : store) : response * store :=
  match c with
  | ListFolders e p =>
      (inr (Folders ((fun n => mk_folder (id_of_folder n) n) <$> children (loc e p) s)), s)
  | CreateFolder e n p =>
      if bool_decide (n ∈ children (loc e p) s) then (inl (HTTPError 400), s)
      else (inr Done, with_folders (folders s ++ [(loc e p, n)]) s)
  | DeleteFolder e i p =>
      if bool_decide (i ∈ id_of_folder <$> children (loc e p) s) then
        (inr Done,
         with_folders
           (List.filter (fun x => negb (bool_decide (x.1 = loc e p)
                                        && bool_decide (id_of_folder x.2 = i)))
                        (folders s)) s)
      else (inl not_found, s)
  | ListSecrets e p =>
      (inr (Secrets ((fun kv => mk_secret kv.1 (Some kv.2)) <$> secrets_at (loc e p) s)), s)
  | CreateSecret e k v p =>
      if dict_mem k (secrets_at (loc e p) s) then (inl (HTTPError 400), s)
      else (inr Done, with_secrets_at (loc e p) (dict_set k v (secrets_at (loc e p) s)) s)
  | UpdateSecret e k v p =>
      if dict_mem k (secrets_at (loc e p) s) then
        (inr Done, with_secrets_at (loc e p) (dict_set k v (secrets_at (loc e p) s)) s)
      else (inl not_found, s)
  | DeleteSecret e k p =>
      if dict_mem k (secrets_at (loc e p) s) then
        (inr Done, with_secrets_at (loc e p) (dict_del k (secrets_at (loc e p) s)) s)
      else (inl not_found, s)
  | ListSecretImports e p =>
      (inr (SecretImports
              ((fun edge => mk_secret_import (id_of_import edge) (Some edge.1) (Some edge.2))
                 <$> imports_at (loc e p) s)), s)
  | CreateSecretImport e p ie ip =>
      if bool_decide ((ie, ip) ∈ imports_at (loc e p) s) then (inl (HTTPError 400), s)
      else (inr Done, with_imports (imports s ++ [(loc e p, (ie, ip))]) s)
  | DeleteSecretImport e p i =>
      if bool_decide (i ∈ id_of_import <$> imports_at (loc e p) s) then
        (inr Done,
         with_imports
           (List.filter (fun x => negb (bool_decide (x.1 = loc e p)
                                        && bool_decide (id_of_import x.2 = i)))
                        (imports s)) s)
      else (inl not_found, s)
  end.

(** Each request consumes one entry of the fault schedule; [Some e]
    makes it fail with [e] and leaves the data alone. *)
Definition answer (c : call) (s : store) : response * store :=
  match faults s with
  | Some e :: rest => (inl e, with_faults rest s)
  | None :: rest => serve c (with_faults rest s)
  | [] => serve c s
  end.

#[global] Instance remote_store : RemoteStore store := answer.

End MemStore.

(** ** The shape of the requests of [delete_folder_recursive] *)

(** What a listing request returned to the client. *)
Definition listed_imports (r : response) : list secret_import :=
  match r with inr (SecretImports l) => l | _ => [] end.
Definition listed_secrets (r : response) : list secret :=
  match r with inr (Secrets l) => l | _ => [] end.
Definition listed_folders (r : response) : list folder :=
  match r with inr (Folders l) => l | _ => [] end.

(** The value a call returns when its request succeeds. *)
Definition on_success {A B} (r : exn + A) (b : B) : exn + B :=
  match r with inl e => inl e | inr _ => inr b end.

Definition succeeded (ev : event) : bool :=
  match ev.2 with inr _ => true | inl _ => false end.

(** Step 1: the import edges at [p] are listed, then one delete request
    is sent for each listed edge, whatever the earlier ones answered. *)
Definition imports_phase (env p : string) (t : list event) : Prop :=
  exists r dels,
    t = (ListSecretImports env p, r) :: dels
    /\ dels.*1 = (fun imp => DeleteSecretImport env p (import_id imp)) <$> listed_imports r.

(** Step 2: the same for the secrets directly at [p]. *)
Definition secrets_phase (env p : string) (t : list event) : Prop :=
  exists r dels,
    t = (ListSecrets env p, r) :: dels
    /\ dels.*1 = (fun s => DeleteSecret env (secretKey s) p) <$> listed_secrets r.

(** Step 4: the parent is listed; the folder's own delete request
    follows when the folder is found there.  The outcome of the whole
    call is decided here. *)
Definition final_phase (env p : string) (result : exn + bool) (t : list event) : Prop :=
  let parent_path := (parent_and_name p).1 in
  let name := (parent_and_name p).2 in
  exists r,
    match r with
    | inl e => t = [(ListFolders env parent_path, r)] /\ result = inl e
    | inr _ =>
        match List.find (fun f => bool_decide (folder_name f = name)) (listed_folders r) with
        | None => t = [(ListFolders env parent_path, r)] /\ result = inr false
        | Some f =>
            exists r',
              t = [(ListFolders env parent_path, r);
                   (DeleteFolder env (folder_id f) parent_path, r')]
              /\ result = match r' with inl e => inl e | inr _ => inr true end
        end
    end.

(** The requests of one activation on the non-root path [p], in order:
    imports, secrets, child folders (step 3: the children of [p] are
    listed and deleted one after the other, each by a nested activation,
    up to the first child whose deletion raises), then the folder. *)
Inductive delete_order (env : string) : string -> exn + bool -> list event -> Prop :=
| delete_order_intro p result t_imp t_sec t_sub t_fin :
    imports_phase env p t_imp ->
    secrets_phase env p t_sec ->
    children_phase env p t_sub ->
    final_phase env p result t_fin ->
    delete_order env p result (t_imp ++ t_sec ++ t_sub ++ t_fin)
with children_phase (env : string) : string -> list event -> Prop :=
| children_intro p r names ts :
    names `prefix_of` (folder_name <$> listed_folders r) ->
    Forall2 (fun name t =>
               t = [] \/
               exists res, delete_order env (Py.rstrip "/"%char (p +:+ "/" +:+ name)) res t)
            names ts ->
    children_phase env p ((ListFolders env p, r) :: concat ts).

(** What is known of the requests of a nested activation on [path]:
    none when the interpreter refuses the call, else those of an
    activation. *)
Definition child_trace (env path : string) (t : list event) : Prop :=
  t = [] \/ exists res, delete_order env (Py.rstrip "/"%char path) res t.


(** ** Stores and trees for the examples *)

(** A store for the examples: in environment prod the folder /old holds
    one secret, one import edge and one child folder. *)
Definition old_folder_store (faults : list (option exn)) : MemStore.store :=
  MemStore.mk_store
    [(("prod", []), "old"); (("prod", ["old"]), "sub")]
    [(("prod", ["old"]), [("K", "v")])]
    [(("prod", ["old"]), ("common", "/old"))]
    faults.


(** In environment prod the folder /old has the child folders a and b;
    the eighth request, the delete of a, is made to fail. *)
Definition two_children_store : MemStore.store :=
  MemStore.mk_store
    [(("prod", []), "old"); (("prod", ["old"]), "a"); (("prod", ["old"]), "b")]
    [] []
    [None; None; None; None; None; None; None; Some (HTTPError 500)].

(** A local tree with one shared file and no service. *)
Definition one_file_tree : list fs_entry :=
  [Dir "services" [];
   Dir "shared-secrets" [Dir "common" [File "database-users.env" ["DB_USER=app"]]]].

(** A shared file and one service with a common and a prod file. *)
Definition small_tree : list fs_entry :=
  [Dir "services"
       [Dir "user-auth" [File "common.env" ["PORT=8000"; "DEBUG=false"];
                         File "prod.env" ["DEBUG=true"]]];
   Dir "shared-secrets" [Dir "common" [File "database-users.env" ["DB_USER=app"]]]].

(** A store that fails the sixth request, the only write of a secret
    of [one_file_tree]. *)
Definition failing_once : MemStore.store :=
  MemStore.with_faults [None; None; None; None; None; Some (HTTPError 500)] MemStore.empty.


(** ** The classification of section 4.2 *)

Inductive classification := Created | Updated | Unchanged.

#[global] Instance classification_eq_dec : EqDecision classification.
Proof. solve_decision. Defined.

(** The remote's current mapping, as [set_secrets_from_env] builds it
    from the answer to its listing request. *)
Definition remote_current (listing : response) : pydict string secret :=
  dict_of_list secretKey id (listed_secrets listing).

(** Absent remotely: created.  Present with a differing value: updated.
    Present with an equal value: unchanged. *)
Definition classify (current : pydict string secret) (kv : string * string)
  : classification :=
  match dict_get kv.1 current with
  | None => Created
  | Some s => if bool_decide (secretValue s = Some kv.2) then Unchanged else Updated
  end.

Definition count_class (c : classification) (current : pydict string secret)
                       (desired : pydict string string) : nat :=
  length (List.filter (fun kv => bool_decide (classify current kv = c)) desired).

(** The write request a key calls for in apply mode. *)
Definition planned_write (env path : string) (current : pydict string secret)
                         (kv : string * string) : option call :=
  match classify current kv with
  | Created => Some (CreateSecret env kv.1 kv.2 path)
  | Updated => Some (UpdateSecret env kv.1 kv.2 path)
  | Unchanged => None
  end.

Definition planned_writes (env path : string) (current : pydict string secret)
                          (desired : pydict string string) : list call :=
  omap (planned_write env path current) desired.

Definition failed_create (ev : event) : bool :=
  match ev with (CreateSecret _ _ _ _, inl _) => true | _ => false end.
Definition failed_update (ev : event) : bool :=
  match ev with (UpdateSecret _ _ _ _, inl _) => true | _ => false end.

(** ** The staged sync as a list of actions *)

(** What the walkers do to the remote store, in order: reconcile one
    file into one (environment, path), ensure one import edge from
    common, or stop on an exception of the local tree. *)
Inductive action :=
| SyncFile (env_file : fs_entry) (environment target_path : string)
| LinkImport (environment service_path : string)
| Abort (e : exn).

Record totals := mk_totals { files : stats; links : import_stats }.

Definition no_totals : totals := mk_totals no_stats (mk_import_stats 0 0).
Definition add_files (tot : totals) (st : stats) : totals :=
  mk_totals (add_stats (files tot) st) (links tot).
Definition add_link (tot : totals) (created : bool) : totals :=
  mk_totals (files tot) (count_import created (links tot)).

Section Actions.
Context {W : Type} `{RemoteStore W}.

Definition run_action (dry_run : bool) (tot : totals) (a : action) : M W totals :=
  match a with
  | SyncFile f e p =>
      st ← import_service_env f e p dry_run; ret (add_files tot st)
  | LinkImport e p =>
      created ← setup_service_import e p dry_run; ret (add_link tot created)
  | Abort e => raise e
  end.

Definition run_actions (dry_run : bool) (l : list action) (tot : totals) : M W totals :=
  fold_m (run_action dry_run) l tot.

(** The computation [m], whose statistics are read by [proj], does what
    the actions [l] do. *)
Definition runs_as (dry_run : bool) {S} (proj : S -> stats) (m : M W S) (l : list action) : Prop :=
  forall (tot : totals) (w : W),
    bind m (fun r => ret (add_files tot (proj r))) w = run_actions dry_run l tot w.

(** The continuation [k], started from an accumulator whose statistics
    are read by [p_in], does what the actions [l] do. *)
Definition continues (dry_run : bool) {S T} (p_in : S -> stats) (p_out : T -> stats)
                     (k : S -> M W T) (l : list action) : Prop :=
  forall (acc : S) (tot : totals) (w : W),
    bind (k acc) (fun r => ret (add_files tot (p_out r))) w
    = run_actions dry_run l (add_files tot (p_in acc)) w.

End Actions.

(** The actions of [import_env_files_recursive]. *)
Fixpoint shared_actions (base_dir : fs_entry) (environment base_path : string)
  : list action :=
  match base_dir with
  | File _ _ => [Abort NotADirectoryError]
  | Dir _ entries =>
      ((fun env_file =>
          SyncFile env_file environment
                   (shared_target_path base_path (stem (entry_name env_file))))
         <$> glob_env entries)
      ++ flat_map (fun subdir =>
                     match subdir with
                     | Dir name _ =>
                         shared_actions subdir environment
                           (Py.rstrip "/"%char base_path +:+ "/" +:+ name)
                     | File _ _ => []
                     end) entries
  end.

Definition step2_actions (v2 : list fs_entry) : list action :=
  flat_map (fun env_slug =>
              match shared_env_dir v2 env_slug with
              | Some env_dir => shared_actions env_dir env_slug "/shared-secrets"
              | None => []
              end) ["common"; "prod"; "staging"].

Definition sync_if_exists (env_file : option fs_entry) (environment target_path : string)
  : list action :=
  match env_file with
  | Some f => [SyncFile f environment target_path]
  | None => []
  end.

(** The actions of [import_service_dir] and the services it reports. *)
Fixpoint service_actions (service_dir : fs_entry) (base_path : string) : list action :=
  match service_dir with
  | File _ _ => [Abort NotADirectoryError]
  | Dir _ entries =>
      sync_if_exists (lookup_entry "common.env" entries) "common" base_path
      ++ sync_if_exists (lookup_entry "prod.env" entries) "prod" base_path
      ++ sync_if_exists (lookup_entry "staging.env" entries) "staging" base_path
      ++ flat_map (fun subdir =>
                     match subdir with
                     | Dir name _ =>
                         if negb (Py.startswith "." name)
                         then service_actions subdir (base_path +:+ "/" +:+ name)
                         else []
                     | File _ _ => []
                     end) entries
  end.

Fixpoint services_of (service_dir : fs_entry) (base_path : string) : list service :=
  match service_dir with
  | File _ _ => []
  | Dir _ entries =>
      let common_env := lookup_entry "common.env" entries in
      let prod_env := lookup_entry "prod.env" entries in
      let staging_env := lookup_entry "staging.env" entries in
      (if is_some common_env || is_some prod_env || is_some staging_env
       then [mk_service base_path (is_some common_env) (is_some prod_env)
                        (is_some staging_env)]
       else [])
      ++ flat_map (fun subdir =>
                     match subdir with
                     | Dir name _ =>
                         if negb (Py.startswith "." name)
                         then services_of subdir (base_path +:+ "/" +:+ name)
                         else []
                     | File _ _ => []
                     end) entries
  end.

Definition step3_actions (v2 : list fs_entry) : list action :=
  match lookup_entry "services" v2 with
  | None => [Abort FileNotFoundError]
  | Some (File _ _) => [Abort NotADirectoryError]
  | Some (Dir _ service_dirs) =>
      flat_map (fun service_dir =>
                  match service_dir with
                  | Dir service_name _ =>
                      service_actions service_dir ("/services/" +:+ service_name)
                  | File _ _ => []
                  end) service_dirs
  end.

Definition step3_services (v2 : list fs_entry) : list service :=
  match lookup_entry "services" v2 with
  | Some (Dir _ service_dirs) =>
      flat_map (fun service_dir =>
                  match service_dir with
                  | Dir service_name _ =>
                      services_of service_dir ("/services/" +:+ service_name)
                  | File _ _ => []
                  end) service_dirs
  | _ => []
  end.

Definition service_links (svc : service) : list action :=
  if has_common svc then
    (if has_prod svc then [LinkImport "prod" (svc_path svc)] else [])
    ++ (if has_staging svc then [LinkImport "staging" (svc_path svc)] else [])
  else [].

Definition step4_actions (services : list service) : list action :=
  flat_map service_links services.

Definition full_actions (v2 : list fs_entry) : list action :=
  step2_actions v2 ++ step3_actions v2 ++ step4_actions (step3_services v2).

(** The (environment, path) locations the files of the tree are
    reconciled into. *)
Definition sync_locations (l : list action) : list MemStore.location :=
  omap (fun a => match a with
                 | SyncFile _ e p => Some (MemStore.loc e p)
                 | _ => None
                 end) l.

(** ** States of the in-memory store *)

Module Settled.
Import MemStore.

Definition same_data (s s' : store) : Prop :=
  folders s' = folders s /\ secrets s' = secrets s /\ imports s' = imports s.

(** Every location holds each key once. *)
Definition wf (s : store) : Prop :=
  Forall (fun x => NoDup (dict_keys x.2)) (secrets s).

(** The listing requests of [ensure_folder_path]: the parent path and
    the name looked up at each step. *)
Fixpoint path_steps (current_path : string) (parts : list string)
  : list (string * string) :=
  match parts with
  | [] => []
  | part :: parts' =>
      (current_path, part) :: path_steps (current_path +:+ part +:+ "/") parts'
  end.

Definition folder_steps (folder_path : string) : list (string * string) :=
  if bool_decide (folder_path = "/") || negb (Py.nonempty folder_path) then []
  else path_steps "/" (Py.split "/"%char (Py.strip_char "/"%char folder_path)).

(** The folder a step looks up is there. *)
Definition ready (env : string) (s : store) (step : string * string) : Prop :=
  step.2 ∈ children (loc env step.1) s.

Definition folders_ready (environment folder_path : string) (s : store) : Prop :=
  Forall (ready environment s) (folder_steps folder_path).

Definition secrets_settled (environment path : string) (env_file : fs_entry)
                           (s : store) : Prop :=
  match env_file with
  | File _ lines =>
      forall k v, dict_get k (SyncToInfisical.parse_env_file lines) = Some v ->
                  dict_get k (secrets_at (loc environment path) s) = Some v
  | Dir _ _ => True
  end.

(** The store already holds what the action asks for. *)
Definition settled (a : action) (s : store) : Prop :=
  match a with
  | SyncFile f e p => folders_ready e p s /\ secrets_settled e p f s
  | LinkImport e p => ("common", p) ∈ imports_at (loc e p) s
  | Abort _ => True
  end.

(** The actions that do not stop on an exception of the local tree. *)
Definition runnable (a : action) : Prop :=
  match a with
  | SyncFile (File _ _) _ _ => True
  | SyncFile (Dir _ _) _ _ => False
  | LinkImport _ _ => True
  | Abort _ => False
  end.

(** The locations an action writes no secret to. *)
Definition elsewhere (a : action) (l : location) : Prop :=
  match a with SyncFile _ e p => l ≠ loc e p | _ => True end.

End Settled.

(** ** [pathlib] *)

Module PyPath.

(** [name.rfind(ch)], when [ch] occurs in [name]. *)
Fixpoint rfind (d : ascii) (s : string) : option nat :=
  match s with
  | EmptyString => None
  | String c s' =>
      match rfind d s' with
      | Some i => Some (S i)
      | None => if Ascii.eqb c d then Some 0 else None
      end
  end.

(** [PurePath.stem] of a final component (Python up to 3.13): the name
    up to its last dot, when that dot is neither the first nor the last
    character; else the whole name. *)
Definition stem (name : string) : string :=
  match rfind "."%char name with
  | Some i => if (0 <? i) && (i <? String.length name - 1) then Py.take i name else name
  | None => name
  end.

End PyPath.

(** ** [sync_to_infisical.py]: precise sync, service scan, cleanup and purge *)

(** The four [ValueError]s of [map_file_to_infisical]. *)
Inductive value_error :=
| NotUnderV2
| BadPathFormat
| BadServiceFileName
| UnknownLayout.

(** [map_file_to_infisical]; the argument is [file_path.parts]. *)
Definition map_file_to_infisical (parts : list string)
  : value_error + (string * string) :=
  match list_find (fun p => p = "v2") parts with
  | None => inl NotUnderV2
  | Some (v2_index, _) =>
      let relative_parts := drop (v2_index + 1) parts in
      if length relative_parts <? 2 then inl BadPathFormat
      else
        let file_name := PyPath.stem (List.last parts "") in
        if bool_decide (relative_parts !! 0 = Some "shared-secrets") then
          let environment := default "" (relative_parts !! 1) in
          if 3 <? length relative_parts then
            let subdir_parts := drop 2 (Py.init relative_parts) in
            inr (environment,
                 "/shared-secrets/" +:+ Py.join "/" subdir_parts +:+ "/" +:+ file_name)
          else inr (environment, "/shared-secrets/" +:+ file_name)
        else if bool_decide (relative_parts !! 0 = Some "services") then
          if bool_decide (file_name ∈ ["common"; "prod"; "staging"]) then
            inr (file_name, "/" +:+ Py.join "/" (Py.init relative_parts))
          else inl BadServiceFileName
        else inl UnknownLayout
  end.

(** [scan_dir] of [scan_services_for_imports].  It is called on
    directories only: both call sites test [is_dir()] first. *)
Fixpoint scan_dir (service_dir : fs_entry) (base_path : string) : list service :=
  match service_dir with
  | File _ _ => []
  | Dir _ entries =>
      let common_env := lookup_entry "common.env" entries in
      let prod_env := lookup_entry "prod.env" entries in
      let staging_env := lookup_entry "staging.env" entries in
      (if is_some common_env || is_some prod_env || is_some staging_env
       then [mk_service base_path (is_some common_env) (is_some prod_env)
                        (is_some staging_env)]
       else [])
      ++ flat_map (fun subdir =>
                     match subdir with
                     | Dir name _ =>
                         if negb (Py.startswith "." name)
                         then scan_dir subdir (base_path +:+ "/" +:+ name)
                         else []
                     | File _ _ => []
                     end) entries
  end.

(** [scan_services_for_imports(V2_DIR / "services")]; [iterdir] raises
    when the directory is missing or is a file. *)
Definition scan_services_for_imports (v2 : list fs_entry) : exn + list service :=
  match lookup_entry "services" v2 with
  | None => inl FileNotFoundError
  | Some (File _ _) => inl NotADirectoryError
  | Some (Dir _ service_dirs) =>
      inr (flat_map (fun service_dir =>
                       match service_dir with
                       | Dir name _ => scan_dir service_dir ("/services/" +:+ name)
                       | File _ _ => []
                       end) service_dirs)
  end.

(** The statistics [{"deleted": .., "not_found": .., "failed": ..}] of
    [cleanup_deprecated_paths]. *)
Record cleanup_stats := mk_cleanup_stats {
  paths_deleted : nat;
  paths_not_found : nat;
  paths_failed : nat
}.

Definition deprecated_paths : list string :=
  ["/services/bi-backend"; "/services/bi-dashboard"; "/services/bi-mcp"].

Definition environments : list string := ["common"; "prod"; "staging"].

Section MoreSync.
Context {W : Type} `{RemoteStore W}.

(** [step4_setup_service_imports(client, services, dry_run)] with its
    optional argument: [None] scans the local tree again. *)
Definition step4_setup_service_imports_or_scan (v2 : list fs_entry)
    (services : option (list service)) (dry_run : bool) : M W import_stats :=
  match services with
  | Some l => step4_setup_service_imports l dry_run
  | None =>
      match scan_services_for_imports v2 with
      | inl e => raise e
      | inr l => step4_setup_service_imports l dry_run
      end
  end.

(** [sync_single_file]; [env_file] is the entry found at [file_path],
    whose existence [main] has checked. *)
Definition sync_single_file (parts : list string) (env_file : fs_entry) (dry_run : bool)
  : M W stats :=
  match map_file_to_infisical parts with
  | inl _ => ret (mk_stats 0 0 0 1)
  | inr (environment, infisical_path) =>
      sync_mapped_file env_file environment infisical_path dry_run
  end.

Definition delete_folder_by_path (depth : nat) (environment folder_path : string)
  : M W bool :=
  delete_folder_recursive depth environment folder_path.

(** Body of the two loops of [cleanup_deprecated_paths], with its [try]
    and [except]. *)
Definition cleanup_path (depth : nat) (dry_run : bool) (path : string)
                        (st : cleanup_stats) (env : string) : M W cleanup_stats :=
  try_except
    (if dry_run then
       let name := Py.last_or (Py.split "/"%char (Py.strip_char "/"%char path)) "" in
       let parent_path :=
         if Py.contains "/"%char (Py.strip_char "/"%char path)
         then "/" +:+ Py.join "/" (Py.init (Py.split "/"%char (Py.strip_char "/"%char path)))
         else "/" in
       folders ← list_folders env parent_path;
       if existsb (fun f => bool_decide (folder_name f = name)) folders
       then ret (mk_cleanup_stats (paths_deleted st + 1) (paths_not_found st)
                                  (paths_failed st))
       else ret (mk_cleanup_stats (paths_deleted st) (paths_not_found st + 1)
                                  (paths_failed st))
     else
       deleted ← delete_folder_by_path depth env path;
       if deleted : bool
       then ret (mk_cleanup_stats (paths_deleted st + 1) (paths_not_found st)
                                  (paths_failed st))
       else ret (mk_cleanup_stats (paths_deleted st) (paths_not_found st + 1)
                                  (paths_failed st)))
    (fun _ => ret (mk_cleanup_stats (paths_deleted st) (paths_not_found st)
                                    (paths_failed st + 1))).

(** [cleanup_deprecated_paths]: the statistics it prints. *)
Definition cleanup_deprecated_paths (depth : nat) (dry_run : bool) : M W cleanup_stats :=
  fold_m (fun st path => fold_m (cleanup_path depth dry_run path) environments st)
         deprecated_paths (mk_cleanup_stats 0 0 0).

(** The three steps [purge_all_data] runs for one environment. *)
Definition purge_environment (depth : nat) (dry_run : bool) (env : string) : M W unit :=
  try_pass (secrets ← list_secrets env "/";
            match secrets with
            | [] => ret tt
            | _ =>
                if dry_run then ret tt
                else for_each secrets (fun s =>
                       try_pass (delete_secret env (secretKey s) "/"))
            end);;
  try_pass (if dry_run then ret tt
            else delete_all_secret_imports env "/";; ret tt);;
  try_pass (folders ← list_folders env "/";
            for_each folders (fun folder =>
              if dry_run then ret tt
              else try_pass (delete_folder_recursive depth env
                               ("/" +:+ folder_name folder);;
                             ret tt))).

Definition purge_all_data (depth : nat) (dry_run : bool) : M W unit :=
  for_each environments (purge_environment depth dry_run).

End MoreSync.

(** ** The local paths of the files the walkers reconcile *)

(** [shared_actions] with, for each action, the path below [v2] of the
    entry it is about. *)
Fixpoint shared_located (dir_path : list string) (base_dir : fs_entry)
    (environment base_path : string) : list (list string * action) :=
  match base_dir with
  | File _ _ => [(dir_path, Abort NotADirectoryError)]
  | Dir _ entries =>
      ((fun env_file =>
          (dir_path ++ [entry_name env_file],
           SyncFile env_file environment
                    (shared_target_path base_path (stem (entry_name env_file)))))
         <$> glob_env entries)
      ++ flat_map (fun subdir =>
                     match subdir with
                     | Dir name _ =>
                         shared_located (dir_path ++ [name]) subdir environment
                           (Py.rstrip "/"%char base_path +:+ "/" +:+ name)
                     | File _ _ => []
                     end) entries
  end.

Definition step2_located (v2 : list fs_entry) : list (list string * action) :=
  flat_map (fun env_slug =>
              match shared_env_dir v2 env_slug with
              | Some env_dir =>
                  shared_located ["shared-secrets"; env_slug] env_dir env_slug
                                 "/shared-secrets"
              | None => []
              end) ["common"; "prod"; "staging"].

Definition located_if_exists (dir_path : list string) (name : string)
    (env_file : option fs_entry) (environment target_path : string)
  : list (list string * action) :=
  match env_file with
  | Some f => [(dir_path ++ [name], SyncFile f environment target_path)]
  | None => []
  end.

(** [service_actions] with the path of each entry. *)
Fixpoint service_located (dir_path : list string) (service_dir : fs_entry)
    (base_path : string) : list (list string * action) :=
  match service_dir with
  | File _ _ => [(dir_path, Abort NotADirectoryError)]
  | Dir _ entries =>
      located_if_exists dir_path "common.env" (lookup_entry "common.env" entries)
                        "common" base_path
      ++ located_if_exists dir_path "prod.env" (lookup_entry "prod.env" entries)
                           "prod" base_path
      ++ located_if_exists dir_path "staging.env" (lookup_entry "staging.env" entries)
                           "staging" base_path
      ++ flat_map (fun subdir =>
                     match subdir with
                     | Dir name _ =>
                         if negb (Py.startswith "." name)
                         then service_located (dir_path ++ [name]) subdir
                                              (base_path +:+ "/" +:+ name)
                         else []
                     | File _ _ => []
                     end) entries
  end.

Definition step3_located (v2 : list fs_entry) : list (list string * action) :=
  match lookup_entry "services" v2 with
  | None => [(["services"], Abort FileNotFoundError)]
  | Some (File _ _) => [(["services"], Abort NotADirectoryError)]
  | Some (Dir _ service_dirs) =>
      flat_map (fun service_dir =>
                  match service_dir with
                  | Dir service_name _ =>
                      service_located ["services"; service_name] service_dir
                                      ("/services/" +:+ service_name)
                  | File _ _ => []
                  end) service_dirs
  end.

(** A name of a directory entry: not empty and without a slash. *)
Definition valid_name (name : string) : bool :=
  Py.nonempty name && negb (Py.contains "/"%char name).

Fixpoint well_named (e : fs_entry) : bool :=
  match e with
  | File name _ => valid_name name
  | Dir name entries => valid_name name && forallb well_named entries
  end.

(** ** What a computation sends and whether it can raise *)

Section Sends.
Context {W : Type} `{RemoteStore W}.

(** Every request of [m] is one of the requests [P] allows. *)
Definition sends {A} (P : call -> bool) (m : M W A) : Prop :=
  forall w, forallb P (m w).2.*1 = true.

(** [m] returns a value from every state of the store. *)
Definition never_raises {A} (m : M W A) : Prop :=
  forall w, exists a, (m w).1.1 = inr a.

End Sends.

Definition is_listing (c : call) : bool := negb (mutating c).

Definition listing_or_delete (c : call) : bool :=
  match c with
  | CreateFolder _ _ _ | CreateSecret _ _ _ _ | UpdateSecret _ _ _ _
  | CreateSecretImport _ _ _ _ => false
  | _ => true
  end.

Definition listing_or_create_folder (c : call) : bool :=
  match c with
  | ListFolders _ _ | ListSecrets _ _ | ListSecretImports _ _ | CreateFolder _ _ _ => true
  | _ => false
  end.

(** Anything but a delete request. *)
Definition is_write_or_listing (c : call) : bool :=
  match c with
  | DeleteFolder _ _ _ | DeleteSecret _ _ _ | DeleteSecretImport _ _ _ => false
  | _ => true
  end.

Definition is_secret_write (c : call) : bool :=
  match c with
  | CreateSecret _ _ _ _ | UpdateSecret _ _ _ _ => true
  | _ => false
  end.

(** The remote path [import_env_files_recursive] has reached below the
    directories [subdirs] of an environment of [shared-secrets], and
    the one [import_service_dir] has reached below [dirs]. *)
Definition shared_base (subdirs : list string) : string :=
  match subdirs with
  | [] => "/shared-secrets"
  | _ => "/shared-secrets/" +:+ Py.join "/" subdirs
  end.

Definition services_base (dirs : list string) : string :=
  "/" +:+ Py.join "/" ("services" :: dirs).

(** A request that failed. *)
Definition failed_event (ev : event) : bool := negb (succeeded ev).

(** The listings step 4 sends for one service. *)
Definition service_listings (svc : service) : list call :=
  if has_common svc then
    (if has_prod svc then [ListSecretImports "prod" (svc_path svc)] else [])
    ++ (if has_staging svc then [ListSecretImports "staging" (svc_path svc)] else [])
  else [].

(** The entries of a tree found at the path [rel] below a directory
    that lists [entries]. *)
Fixpoint entries_at (entries : list fs_entry) (rel : list string) : list fs_entry :=
  match rel with
  | [] => []
  | name :: rel' =>
      match rel' with
      | [] => List.filter (fun e => bool_decide (entry_name e = name)) entries
      | _ :: _ =>
          flat_map (fun d =>
                      match d with
                      | Dir n es => if bool_decide (n = name) then entries_at es rel' else []
                      | File _ _ => []
                      end) entries
      end
  end.

(** [s.isascii()]: every character is below 128.  On such a string the
    white space of [Py.isspace] is all the white space [str.strip()]
    knows. *)
Fixpoint isascii (s : string) : bool :=
  match s with
  | EmptyString => true
  | String c s' => (nat_of_ascii c <? 128) && isascii s'
  end.

(** * Properties *)

(** ** Strings *)

Lemma startswith_app (p r : string) : Py.startswith p (p +:+ r) = true.
Proof.
  induction p as [|c p IH]; simpl; [by destruct r|].
  by rewrite Ascii.eqb_refl, IH.
Qed.

Lemma drop_app (p r : string) : Py.drop (String.length p) (p +:+ r) = r.
Proof. induction p as [|c p IH]; simpl; [by destruct r | done]. Qed.

Lemma rstrip_with_all (p : ascii -> bool) (s : string) :
  forallb p (list_ascii_of_string s) = true -> Py.rstrip_with p s = "".
Proof.
  induction s as [|c s IH]; simpl; [done|].
  intros [Hc Hs]%andb_prop. by rewrite (IH Hs), Hc.
Qed.

Lemma rstrip_with_empty_inv (p : ascii -> bool) (s : string) :
  Py.rstrip_with p s = "" -> forallb p (list_ascii_of_string s) = true.
Proof.
  induction s as [|c s IH]; simpl; [done|].
  destruct (Py.rstrip_with p s) eqn:E; [|done].
  destruct (p c) eqn:Hc; [|done]. intros _. by rewrite IH.
Qed.

(** ** Dictionaries *)

Section PyDictFacts.
Context {K V : Type} `{EqDecision K}.
Implicit Types (d : pydict K V) (k : K) (v : V).

Lemma dict_get_set_eq k v d : dict_get k (dict_set k v d) = Some v.
Proof.
  induction d as [|[k' v'] d IH]; simpl.
  - by rewrite decide_True.
  - destruct (decide (k' = k)) as [->|Hne]; simpl.
    + by rewrite decide_True.
    + by rewrite decide_False.
Qed.

Lemma dict_get_set_ne k k' v d : k ≠ k' -> dict_get k' (dict_set k v d) = dict_get k' d.
Proof.
  intros Hne. induction d as [|[k0 v0] d IH]; simpl.
  - by rewrite decide_False.
  - destruct (decide (k0 = k)) as [->|Hne0]; simpl.
    + by rewrite !decide_False.
    + by rewrite IH.
Qed.

Lemma dict_get_None k d : dict_get k d = None <-> k ∉ dict_keys d.
Proof.
  unfold dict_keys. induction d as [|[k' v'] d IH]; simpl.
  - split; [intros _; apply not_elem_of_nil | done].
  - rewrite not_elem_of_cons. destruct (decide (k' = k)) as [->|Hne].
    + split; [done | by intros [? _]].
    + rewrite IH. naive_solver.
Qed.

Lemma dict_get_Some_elem k v d : dict_get k d = Some v -> (k, v) ∈ d.
Proof.
  induction d as [|[k' v'] d IH]; simpl; [done|].
  destruct (decide (k' = k)) as [->|Hne].
  - intros [= ->]. apply elem_of_cons; by left.
  - intros Hg. apply elem_of_cons; right; auto.
Qed.

Lemma dict_get_Some_key k v d : dict_get k d = Some v -> k ∈ dict_keys d.
Proof.
  intros Hg. destruct (decide (k ∈ dict_keys d)) as [|Hn]; [done|].
  apply dict_get_None in Hn. congruence.
Qed.

Lemma elem_dict_get k v d : NoDup (dict_keys d) -> (k, v) ∈ d -> dict_get k d = Some v.
Proof.
  unfold dict_keys. induction d as [|[k' v'] d IH]; simpl.
  - intros _ Hin. by apply elem_of_nil in Hin.
  - intros [Hnotin Hnd]%NoDup_cons [Heq|Hin]%elem_of_cons.
    + injection Heq as -> ->. by rewrite decide_True.
    + destruct (decide (k' = k)) as [->|Hne]; [|by apply IH].
      exfalso. apply Hnotin. apply list_elem_of_fmap. by exists (k, v).
Qed.

Lemma dict_keys_set_in k v d :
  k ∈ dict_keys d -> dict_keys (dict_set k v d) = dict_keys d.
Proof.
  unfold dict_keys. induction d as [|[k' v'] d IH]; simpl.
  - intros Hin. by apply elem_of_nil in Hin.
  - intros Hin. destruct (decide (k' = k)) as [->|Hne]; simpl; [done|].
    f_equal. apply IH. apply elem_of_cons in Hin as [->|Hin]; done.
Qed.

Lemma dict_keys_set_notin k v d :
  k ∉ dict_keys d -> dict_keys (dict_set k v d) = dict_keys d ++ [k].
Proof.
  unfold dict_keys. induction d as [|[k' v'] d IH]; simpl; [done|].
  intros [Hne Hnin]%not_elem_of_cons.
  rewrite decide_False by done. simpl. f_equal. by apply IH.
Qed.

Lemma elem_of_dict_keys_set k k' v d :
  k' ∈ dict_keys (dict_set k v d) <-> k' = k \/ k' ∈ dict_keys d.
Proof.
  destruct (decide (k ∈ dict_keys d)).
  - rewrite dict_keys_set_in by done. naive_solver.
  - rewrite dict_keys_set_notin by done.
    rewrite elem_of_app, list_elem_of_singleton. naive_solver.
Qed.

Lemma NoDup_dict_keys_set k v d : NoDup (dict_keys d) -> NoDup (dict_keys (dict_set k v d)).
Proof.
  intros Hnd. destruct (decide (k ∈ dict_keys d)).
  - by rewrite dict_keys_set_in.
  - rewrite dict_keys_set_notin by done.
    apply NoDup_app. split_and!; [done | | apply NoDup_singleton].
    intros x Hx ->%list_elem_of_singleton. done.
Qed.

Lemma elem_of_dict_keys_del k k' d :
  NoDup (dict_keys d) ->
  k' ∈ dict_keys (dict_del k d) <-> k' ≠ k /\ k' ∈ dict_keys d.
Proof.
  unfold dict_keys. induction d as [|[k0 v0] d IH]; simpl.
  - intros _. rewrite elem_of_nil. naive_solver.
  - intros [Hnotin Hnd]%NoDup_cons. destruct (decide (k0 = k)) as [->|Hne]; simpl.
    + rewrite elem_of_cons. split.
      * intros Hin. split; [|by right]. intros ->. done.
      * naive_solver.
    + rewrite !elem_of_cons, IH by done. naive_solver.
Qed.

Lemma NoDup_dict_keys_del k d : NoDup (dict_keys d) -> NoDup (dict_keys (dict_del k d)).
Proof.
  intros Hnd. induction d as [|[k0 v0] d IH]; simpl; [done|].
  apply NoDup_cons in Hnd as [Hnotin Hnd].
  destruct (decide (k0 = k)) as [->|Hne]; [done|].
  change (NoDup (k0 :: dict_keys (dict_del k d))).
  apply NoDup_cons. split; [|by apply IH].
  rewrite elem_of_dict_keys_del by done. naive_solver.
Qed.

Lemma elem_of_dict_del k kv d : kv ∈ dict_del k d -> kv ∈ d.
Proof.
  induction d as [|[k0 v0] d IH]; simpl; [done|].
  destruct (decide (k0 = k)); rewrite !elem_of_cons; naive_solver.
Qed.

(** A loop of assignments [d[key(x)] = val(x)]: the last assignment to
    a key is the one that is read back. *)
Lemma fold_dict_set_last {A} (bind_of : A -> option (K * V)) (xs ys : list A)
      (x : A) k v d :
  bind_of x = Some (k, v) ->
  Forall (fun y => forall v', bind_of y ≠ Some (k, v')) ys ->
  dict_get k
    (fold_left (fun acc y => match bind_of y with
                             | Some (k', v') => dict_set k' v' acc
                             | None => acc
                             end) (xs ++ x :: ys) d) = Some v.
Proof.
  intros Hx Hys. rewrite fold_left_app. simpl. rewrite Hx.
  generalize (fold_left (fun acc y => match bind_of y with
                             | Some (k', v') => dict_set k' v' acc
                             | None => acc
                             end) xs d); intros d0.
  assert (Hget : dict_get k (dict_set k v d0) = Some v) by apply dict_get_set_eq.
  revert Hget. generalize (dict_set k v d0). clear d0.
  induction Hys as [|y ys Hy Hys IH]; intros d0 Hget; simpl; [done|].
  apply IH. destruct (bind_of y) as [[k' v']|] eqn:E; [|done].
  rewrite dict_get_set_ne; [done|]. intros ->. by apply (Hy v').
Qed.

Lemma fold_dict_set_NoDup {A} (bind_of : A -> option (K * V)) (xs : list A) d :
  NoDup (dict_keys d) ->
  NoDup (dict_keys
    (fold_left (fun acc y => match bind_of y with
                             | Some (k', v') => dict_set k' v' acc
                             | None => acc
                             end) xs d)).
Proof.
  revert d. induction xs as [|x xs IH]; intros d Hnd; simpl; [done|].
  apply IH. destruct (bind_of x) as [[k' v']|]; [|done].
  by apply NoDup_dict_keys_set.
Qed.
End PyDictFacts.

(** ** The env-file parsers *)

(** C10 (parse_env_file, both scripts): when a key is bound on several
    KEY=VALUE lines of a file, the parsed dictionary gives it the value
    of the last such line, and every key occurs once in the dictionary. *)
Theorem parse_env_file_last_binding_wins
    (before after : list string) (line key value : string) :
  (SyncToInfisical.parse_line line = Some (key, value) ->
   Forall (fun l => forall v, SyncToInfisical.parse_line l ≠ Some (key, v)) after ->
   dict_get key (SyncToInfisical.parse_env_file (before ++ line :: after)) = Some value
   /\ NoDup (dict_keys (SyncToInfisical.parse_env_file (before ++ line :: after))))
  /\
  (CompareWithArchiveV2.parse_line line = Some (key, value) ->
   Forall (fun l => forall v, CompareWithArchiveV2.parse_line l ≠ Some (key, v)) after ->
   dict_get key (CompareWithArchiveV2.parse_env_file (before ++ line :: after)) = Some value
   /\ NoDup (dict_keys (CompareWithArchiveV2.parse_env_file (before ++ line :: after))))
  /\
  (CompareConfigs.parse_line line = Some (key, value) ->
   Forall (fun l => forall v, CompareConfigs.parse_line l ≠ Some (key, v)) after ->
   dict_get key (CompareConfigs.parse_env_file (before ++ line :: after)) = Some value
   /\ NoDup (dict_keys (CompareConfigs.parse_env_file (before ++ line :: after)))).
Proof.
  split_and!; intros Hline Hafter; split.
  - by apply (fold_dict_set_last SyncToInfisical.parse_line).
  - apply (fold_dict_set_NoDup SyncToInfisical.parse_line). apply NoDup_nil_2.
  - by apply (fold_dict_set_last CompareWithArchiveV2.parse_line).
  - apply (fold_dict_set_NoDup CompareWithArchiveV2.parse_line). apply NoDup_nil_2.
  - by apply (fold_dict_set_last CompareConfigs.parse_line).
  - apply (fold_dict_set_NoDup CompareConfigs.parse_line). apply NoDup_nil_2.
Qed.

Lemma parse_env_file_last_binding_wins_witness :
  dict_get "A" (SyncToInfisical.parse_env_file ["A=1"; "# c"; "A = 2"; "B=3"]) = Some "2"
  /\ dict_get "A" (CompareWithArchiveV2.parse_env_file ["A=1"; "# c"; "A = 2"; "B=3"]) = Some "2"
  /\ dict_get "A" (CompareConfigs.parse_env_file ["A=1"; "# c"; "A = 2"; "B=3"]) = Some "2".
Proof.
  destruct (parse_env_file_last_binding_wins ["A=1"; "# c"] ["B=3"] "A = 2" "A" "2")
    as (H1 & H2 & H3).
  split_and!.
  - apply H1; [reflexivity|]. repeat constructor. intros v. vm_compute. congruence.
  - apply H2; [reflexivity|]. repeat constructor. intros v. vm_compute. congruence.
  - apply H3; [reflexivity|]. repeat constructor. intros v. vm_compute. congruence.
Defined.

(** ** Key normalisation *)

Lemma strip_first_prefix_match (before after : list string) (prefix rest key : string) :
  Forall (fun q => Py.startswith q key = false) before ->
  key = prefix +:+ rest ->
  CompareConfigs.strip_first_prefix (before ++ prefix :: after) key = rest.
Proof.
  intros Hbefore ->. induction Hbefore as [|q before Hq _ IH]; simpl.
  - by rewrite startswith_app, drop_app.
  - by rewrite Hq.
Qed.

Lemma strip_first_prefix_no_match (ps : list string) (key : string) :
  Forall (fun q => Py.startswith q key = false) ps ->
  CompareConfigs.strip_first_prefix ps key = key.
Proof. induction 1 as [|q ps Hq _ IH]; simpl; [done | by rewrite Hq]. Qed.

(** C7 (normalize_key): the candidate prefixes are tried in order, the
    service prefix first; the first candidate the key starts with is
    removed, and a key that starts with none is returned unchanged.
    With service prefix SERVICE_FOO_ the key SERVICE_FOO_BAR becomes
    BAR. *)
Theorem normalize_key_removes_first_matching_prefix (key service_name : string) :
  (exists generic,
      CompareConfigs.prefixes service_name
      = CompareConfigs.service_prefix service_name :: generic)
  /\ (forall before prefix after rest,
        CompareConfigs.prefixes service_name = before ++ prefix :: after ->
        Forall (fun q => Py.startswith q key = false) before ->
        key = prefix +:+ rest ->
        CompareConfigs.normalize_key key service_name = rest)
  /\ (Forall (fun q => Py.startswith q key = false)
             (CompareConfigs.prefixes service_name) ->
      CompareConfigs.normalize_key key service_name = key)
  /\ CompareConfigs.service_prefix "service-foo" = "SERVICE_FOO_"
  /\ CompareConfigs.normalize_key "SERVICE_FOO_BAR" "service-foo" = "BAR".
Proof.
  split_and!.
  - by eexists.
  - intros before prefix after rest Hps Hbefore Hkey.
    unfold CompareConfigs.normalize_key. rewrite Hps.
    by apply strip_first_prefix_match.
  - apply strip_first_prefix_no_match.
  - reflexivity.
  - reflexivity.
Qed.

Lemma normalize_key_removes_first_matching_prefix_witness :
  CompareConfigs.normalize_key "COMFY_MCP_HOST" "user-auth" = "HOST"
  /\ CompareConfigs.normalize_key "USER_AUTH_COMFY_MCP_HOST" "user-auth" = "COMFY_MCP_HOST"
  /\ CompareConfigs.normalize_key "LOG_LEVEL" "user-auth" = "LOG_LEVEL".
Proof.
  split_and!.
  - destruct (normalize_key_removes_first_matching_prefix "COMFY_MCP_HOST" "user-auth")
      as (_ & Hfirst & _).
    apply (Hfirst ["USER_AUTH_"] "COMFY_MCP_"
                  ["FETCH_MCP_"; "PERPLEXITY_MCP_"; "SHOPIFY_MCP_"; "CHART_MCP_";
                   "COMMERCE_MCP_"; "GOOGLE_ADS_MCP_"] "HOST");
      [reflexivity | repeat constructor | reflexivity].
  - destruct (normalize_key_removes_first_matching_prefix
                "USER_AUTH_COMFY_MCP_HOST" "user-auth") as (_ & Hfirst & _).
    apply (Hfirst [] "USER_AUTH_"
                  ["COMFY_MCP_"; "FETCH_MCP_"; "PERPLEXITY_MCP_"; "SHOPIFY_MCP_";
                   "CHART_MCP_"; "COMMERCE_MCP_"; "GOOGLE_ADS_MCP_"] "COMFY_MCP_HOST");
      [reflexivity | constructor | reflexivity].
  - destruct (normalize_key_removes_first_matching_prefix "LOG_LEVEL" "user-auth")
      as (_ & _ & Hnone & _).
    apply Hnone. repeat constructor.
Defined.

(** ** Recursive folder deletion: the root guard *)

(** C9 (delete_folder_recursive): on the root path, the empty path or any
    path made of slashes only, the call returns False at once: no
    request is sent and the store is left as it was. *)
Theorem delete_folder_recursive_refuses_root
    {W : Type} `{RemoteStore W} (depth : nat) (environment folder_path : string) (w : W) :
  only_slashes folder_path = true ->
  delete_folder_recursive depth environment folder_path w = (inr false, w, []).
Proof.
  intros Hroot.
  assert (Hstrip : Py.rstrip "/"%char folder_path = "")
    by (by apply rstrip_with_all).
  destruct depth; simpl; unfold delete_folder_recursive_body; by rewrite Hstrip.
Qed.

Lemma delete_folder_recursive_refuses_root_witness :
  delete_folder_recursive 7 "prod" "/"
    (MemStore.mk_store [(("prod", []), "services")] [] [] [])
  = (inr false, MemStore.mk_store [(("prod", []), "services")] [] [] [], [])
  /\ delete_folder_recursive 0 "prod" "" MemStore.empty = (inr false, MemStore.empty, [])
  /\ delete_folder_recursive 3 "prod" "///" MemStore.empty = (inr false, MemStore.empty, []).
Proof.
  split_and!; apply delete_folder_recursive_refuses_root; reflexivity.
Defined.

(** ** The comparators *)

Lemma snoc_perm {A} (l : list A) (x : A) : l ++ [x] ≡ₚ x :: l.
Proof. symmetry. apply Permutation_cons_append. Qed.

Ltac bucket_perm :=
  rewrite ?fmap_app; simpl; rewrite ?snoc_perm; simpl;
  rewrite <- ?Permutation_middle; reflexivity.

Module CompareWithArchiveV2Facts.
Import CompareWithArchiveV2.

Lemma compare_step_keys expanded archive r key :
  bucket_keys (compare_step expanded archive r key) ≡ₚ key :: bucket_keys r.
Proof.
  unfold compare_step, bucket_keys.
  destruct (dict_get key expanded) as [exp_val|], (dict_get key archive) as [arc_val|];
    repeat case_bool_decide; simpl; bucket_perm.
Qed.

Lemma compare_loop_keys expanded archive all_keys r :
  bucket_keys (fold_left (compare_step expanded archive) all_keys r)
  ≡ₚ all_keys ++ bucket_keys r.
Proof.
  revert r. induction all_keys as [|k ks IH]; intros r; simpl; [done|].
  rewrite IH, compare_step_keys. by rewrite Permutation_middle.
Qed.

Lemma compare_configs_in_order_partition all_keys expanded archive :
  NoDup all_keys ->
  (forall k, k ∈ all_keys <-> k ∈ dict_keys expanded \/ k ∈ dict_keys archive) ->
  strict_partition (bucket_keys (compare_configs_in_order all_keys expanded archive))
                   (dict_keys expanded ++ dict_keys archive).
Proof.
  intros Hnd Hall. unfold compare_configs_in_order, strict_partition.
  pose proof (compare_loop_keys expanded archive all_keys empty_result) as Hperm.
  change (bucket_keys empty_result) with (@nil string) in Hperm.
  rewrite app_nil_r in Hperm. split.
  - by rewrite Hperm.
  - intros k. rewrite Hperm, Hall. by rewrite elem_of_app.
Qed.
End CompareWithArchiveV2Facts.

Module CompareConfigsFacts.
Import CompareConfigs.

Section WithService.
Variable service_name : string.
#[local] Abbreviation norm := (fun k => normalize_key k service_name).
#[local] Abbreviation faithful := (faithful service_name).

Lemma normalize_old_acc old_config acc :
  NoDup (dict_keys acc) -> faithful acc ->
  let d := fold_left (fun acc '(k, v) => dict_set (normalize_key k service_name) (k, v) acc)
                     old_config acc in
  NoDup (dict_keys d) /\ faithful d
  /\ forall nk, nk ∈ dict_keys d <-> nk ∈ dict_keys acc \/ nk ∈ norm <$> dict_keys old_config.
Proof.
  revert acc. induction old_config as [|[k v] old IH]; intros acc Hnd Hf; simpl.
  - split_and!; [done..|]. intros nk. rewrite elem_of_nil. naive_solver.
  - destruct (IH (dict_set (normalize_key k service_name) (k, v) acc)) as (H1 & H2 & H3).
    + by apply NoDup_dict_keys_set.
    + intros nk ok v' Hin.
      destruct (decide (nk = normalize_key k service_name)) as [->|Hne].
      * apply elem_dict_get in Hin; [|by apply NoDup_dict_keys_set].
        rewrite dict_get_set_eq in Hin. by injection Hin as -> _.
      * apply (Hf nk ok v'). apply dict_get_Some_elem.
        apply elem_dict_get in Hin; [|by apply NoDup_dict_keys_set].
        by rewrite dict_get_set_ne in Hin.
    + split_and!; [done..|]. intros nk. rewrite H3, elem_of_dict_keys_set.
      rewrite elem_of_cons. naive_solver.
Qed.

Lemma normalize_old_spec old_config :
  NoDup (dict_keys (normalize_old service_name old_config))
  /\ faithful (normalize_old service_name old_config)
  /\ forall nk, nk ∈ dict_keys (normalize_old service_name old_config)
                <-> nk ∈ norm <$> dict_keys old_config.
Proof.
  destruct (normalize_old_acc old_config []) as (H1 & H2 & H3).
  - apply NoDup_nil_2.
  - intros nk ok v Hin. by apply elem_of_nil in Hin.
  - split_and!; [done..|]. intros nk. rewrite (H3 nk).
    unfold dict_keys at 2. simpl. rewrite elem_of_nil. naive_solver.
Qed.

Lemma compare_step_spec res old_normalized new_key new_val :
  NoDup (dict_keys old_normalized) ->
  let st := compare_step (res, old_normalized) (new_key, new_val) in
  new_side st.1 ≡ₚ new_key :: new_side res
  /\ only_old st.1 = only_old res
  /\ NoDup (dict_keys st.2)
  /\ (forall k, k ∈ dict_keys st.2 <-> k ≠ new_key /\ k ∈ dict_keys old_normalized)
  /\ (forall x, x ∈ st.2 -> x ∈ old_normalized).
Proof.
  intros Hnd. unfold compare_step.
  destruct (dict_get new_key old_normalized) as [[old_key old_val]|] eqn:Hget; simpl.
  - split_and!.
    + unfold new_side.
      destruct (bool_decide (old_val = new_val));
        [| destruct (bool_decide (new_key ∈ EXPECTED_CHANGES)
                     || bool_decide (old_key ∈ EXPECTED_CHANGES))];
        simpl; bucket_perm.
    + destruct (bool_decide (old_val = new_val));
        [| destruct (bool_decide (new_key ∈ EXPECTED_CHANGES)
                     || bool_decide (old_key ∈ EXPECTED_CHANGES))]; done.
    + by apply NoDup_dict_keys_del.
    + intros k. by apply elem_of_dict_keys_del.
    + intros x. apply elem_of_dict_del.
  - split_and!; [unfold new_side; simpl; bucket_perm | done | done | | done].
    intros k. apply dict_get_None in Hget. naive_solver.
Qed.

Lemma compare_loop_spec new_config res old_normalized :
  NoDup (dict_keys old_normalized) ->
  let st := fold_left compare_step new_config (res, old_normalized) in
  new_side st.1 ≡ₚ dict_keys new_config ++ new_side res
  /\ only_old st.1 = only_old res
  /\ NoDup (dict_keys st.2)
  /\ (forall k, k ∈ dict_keys st.2
                <-> (k ∉ dict_keys new_config) /\ k ∈ dict_keys old_normalized)
  /\ (forall x, x ∈ st.2 -> x ∈ old_normalized).
Proof.
  revert res old_normalized.
  induction new_config as [|[new_key new_val] new IH]; intros res old Hnd;
    cbn [fold_left].
  - simpl. split_and!; [done..| |done]. intros k. unfold dict_keys at 2. simpl.
    rewrite elem_of_nil. naive_solver.
  - destruct (compare_step_spec res old new_key new_val Hnd) as (S1 & S2 & S3 & S4 & S5).
    destruct (compare_step (res, old) (new_key, new_val)) as [res1 old1] eqn:Hstep.
    simpl in S1, S2, S3, S4, S5.
    destruct (IH res1 old1 S3) as (L1 & L2 & L3 & L4 & L5).
    split_and!.
    + rewrite L1, S1. unfold dict_keys. simpl. by rewrite Permutation_middle.
    + congruence.
    + done.
    + intros k. rewrite L4, S4. unfold dict_keys at 3. simpl.
      rewrite not_elem_of_cons. naive_solver.
    + naive_solver.
Qed.

Lemma only_old_loop_spec (rest : pydict string (string * string)) res :
  let r := fold_left (fun r '(norm_key, (orig_key, val)) => add_only_old (orig_key, val) r)
                     rest res in
  new_side r = new_side res
  /\ (only_old r).*1 = (only_old res).*1 ++ ((fun x => x.2.1) <$> rest).
Proof.
  revert res. induction rest as [|[nk [ok v]] rest IH]; intros res; simpl.
  - by rewrite app_nil_r.
  - destruct (IH (add_only_old (ok, v) res)) as [I1 I2]. split.
    + by rewrite I1.
    + rewrite I2. simpl. rewrite fmap_app. simpl. by rewrite <- (assoc_L (++)).
Qed.

Lemma faithful_keys (d : pydict string (string * string)) :
  faithful d -> norm <$> ((fun x => x.2.1) <$> d) = dict_keys d.
Proof.
  unfold dict_keys. induction d as [|[nk [ok v]] d IH]; intros Hf; simpl; [done|].
  f_equal.
  - apply (Hf nk ok v). apply elem_of_cons; by left.
  - apply IH. intros nk' ok' v' Hin. apply (Hf nk' ok' v'). apply elem_of_cons; by right.
Qed.

Lemma compare_configs_partition old_config new_config env :
  NoDup (dict_keys new_config) ->
  strict_partition
    (classified_keys service_name (compare_configs old_config new_config service_name env))
    ((norm <$> dict_keys old_config) ++ dict_keys new_config).
Proof.
  intros Hnew. unfold compare_configs.
  destruct (normalize_old_spec old_config) as (N1 & N2 & N3).
  destruct (compare_loop_spec new_config empty_result
              (normalize_old service_name old_config) N1) as (L1 & L2 & L3 & L4 & L5).
  destruct (fold_left compare_step new_config
              (empty_result, normalize_old service_name old_config)) as [res rest].
  simpl in L1, L2, L3, L4, L5.
  destruct (only_old_loop_spec rest res) as [O1 O2].
  set (r := fold_left _ rest res) in *.
  assert (Hperm : classified_keys service_name r ≡ₚ dict_keys new_config ++ dict_keys rest).
  { transitivity (new_side r ++ (norm <$> (only_old r).*1)).
    - unfold classified_keys, new_side. rewrite <- !(assoc_L (++)).
      do 3 (apply Permutation_app_head). apply Permutation_app_comm.
    - rewrite O1, L1, O2, L2. change (new_side empty_result) with (@nil string).
      simpl. rewrite app_nil_r. apply Permutation_app_head.
      rewrite faithful_keys; [done|]. intros nk ok v Hin. apply (N2 nk ok v). auto. }
  unfold strict_partition. split.
  - rewrite Hperm. apply NoDup_app. split_and!; [done | | done].
    intros k Hk Hk'. apply L4 in Hk'. naive_solver.
  - intros k. rewrite Hperm, !elem_of_app, L4, N3.
    destruct (decide (k ∈ dict_keys new_config)); naive_solver.
Qed.
End WithService.
End CompareConfigsFacts.

(** C3, as stated, fails for [compare_configs.py]: the entries of
    [only_old] carry the original key, so with an old key that a generic
    prefix shortens and an identical new key, the same key is reported
    in two buckets and the normalised key in none. *)
Lemma compare_configs_reports_key_in_two_buckets :
  ~ strict_partition
      (CompareConfigs.bucket_keys
         (CompareConfigs.compare_configs
            [("COMFY_MCP_FOO", "1")] [("COMFY_MCP_FOO", "2")] "user-auth" "prod"))
      (((fun k => CompareConfigs.normalize_key k "user-auth")
          <$> dict_keys [("COMFY_MCP_FOO", "1")])
       ++ dict_keys [("COMFY_MCP_FOO", "2")]).
Proof.
  intros [Hnd _].
  assert (Hkeys : CompareConfigs.bucket_keys
            (CompareConfigs.compare_configs
               [("COMFY_MCP_FOO", "1")] [("COMFY_MCP_FOO", "2")] "user-auth" "prod")
          = ["COMFY_MCP_FOO"; "COMFY_MCP_FOO"]) by reflexivity.
  rewrite Hkeys in Hnd. apply NoDup_cons in Hnd as [Hnotin _].
  apply Hnotin. apply elem_of_cons. by left.
Qed.

(** C3, amended: both comparators classify every key of the union of the
    (normalised) keys of A and the keys of B exactly once.  In
    [compare_configs.py] an entry of [only_old] stands for the normalised
    form of the original key it carries; in [compare_with_archive_v2.py],
    which does not normalise, the keys found in the five buckets are a
    strict partition of the union, whatever the order in which the set of
    keys is visited. *)
Theorem comparison_buckets_partition
    (old_config new_config expanded archive : pydict string string)
    (service_name env : string) (all_keys : list string) :
  (NoDup (dict_keys new_config) ->
   strict_partition
     (CompareConfigs.classified_keys service_name
        (CompareConfigs.compare_configs old_config new_config service_name env))
     (((fun k => CompareConfigs.normalize_key k service_name) <$> dict_keys old_config)
      ++ dict_keys new_config))
  /\ (NoDup all_keys ->
      (forall k, k ∈ all_keys <-> k ∈ dict_keys expanded \/ k ∈ dict_keys archive) ->
      strict_partition
        (CompareWithArchiveV2.bucket_keys
           (CompareWithArchiveV2.compare_configs_in_order all_keys expanded archive))
        (dict_keys expanded ++ dict_keys archive))
  /\ strict_partition
       (CompareWithArchiveV2.bucket_keys
          (CompareWithArchiveV2.compare_configs expanded archive))
       (dict_keys expanded ++ dict_keys archive).
Proof.
  split_and!.
  - apply CompareConfigsFacts.compare_configs_partition.
  - apply CompareWithArchiveV2Facts.compare_configs_in_order_partition.
  - apply CompareWithArchiveV2Facts.compare_configs_in_order_partition.
    + apply NoDup_remove_dups.
    + intros k. by rewrite elem_of_remove_dups, elem_of_app.
Qed.

Lemma comparison_buckets_partition_witness :
  strict_partition
    (CompareConfigs.classified_keys "user-auth"
       (CompareConfigs.compare_configs
          [("COMFY_MCP_FOO", "1"); ("USER_AUTH_X", "old"); ("Y", "1")]
          [("COMFY_MCP_FOO", "2"); ("X", "new"); ("Y", "1")] "user-auth" "prod"))
    ["FOO"; "X"; "Y"; "COMFY_MCP_FOO"; "X"; "Y"]
  /\ strict_partition
       (CompareWithArchiveV2.bucket_keys
          (CompareWithArchiveV2.compare_configs_in_order ["Z"; "Y"; "X"]
             [("X", "old"); ("Y", "1")] [("X", "new"); ("Z", "1")]))
       ["X"; "Y"; "X"; "Z"].
Proof.
  destruct (comparison_buckets_partition
              [("COMFY_MCP_FOO", "1"); ("USER_AUTH_X", "old"); ("Y", "1")]
              [("COMFY_MCP_FOO", "2"); ("X", "new"); ("Y", "1")]
              [("X", "old"); ("Y", "1")] [("X", "new"); ("Z", "1")]
              "user-auth" "prod" ["Z"; "Y"; "X"]) as (H1 & H2 & _).
  split.
  - apply H1. compute_done.
  - apply H2; [compute_done|].
    intros k. unfold dict_keys. simpl. rewrite !elem_of_cons, !elem_of_nil. naive_solver.
Defined.

(** ** Running the client *)

Ltac unfold_monad :=
  unfold mbind, M_bind, bind, ret, raise, try_pass, try_except, request in *.

Arguments bind : simpl never.
Arguments ret : simpl never.
Arguments raise : simpl never.
Arguments try_except : simpl never.
Arguments try_pass : simpl never.
Arguments request : simpl never.

Section ClientFacts.
Context {W : Type} `{RemoteStore W}.

Lemma list_secret_imports_run env p (w : W) :
  list_secret_imports env p w
  = (on_success (respond (ListSecretImports env p) w).1
                (listed_imports (respond (ListSecretImports env p) w).1),
     (respond (ListSecretImports env p) w).2,
     [(ListSecretImports env p, (respond (ListSecretImports env p) w).1)]).
Proof.
  unfold list_secret_imports. unfold_monad.
  destruct (respond _ w) as [[e|[]] w']; reflexivity.
Qed.

Lemma list_secrets_run env p (w : W) :
  list_secrets env p w
  = (on_success (respond (ListSecrets env p) w).1
                (listed_secrets (respond (ListSecrets env p) w).1),
     (respond (ListSecrets env p) w).2,
     [(ListSecrets env p, (respond (ListSecrets env p) w).1)]).
Proof.
  unfold list_secrets. unfold_monad.
  destruct (respond _ w) as [[e|[]] w']; reflexivity.
Qed.

Lemma list_folders_run env p (w : W) :
  list_folders env p w
  = (on_success (respond (ListFolders env p) w).1
                (listed_folders (respond (ListFolders env p) w).1),
     (respond (ListFolders env p) w).2,
     [(ListFolders env p, (respond (ListFolders env p) w).1)]).
Proof.
  unfold list_folders. unfold_monad.
  destruct (respond _ w) as [[e|[]] w']; reflexivity.
Qed.

Lemma delete_import_step env p id (count : nat) (w : W) :
  try_except (delete_secret_import env p id;; ret (count + 1)) (fun _ => ret count) w
  = (inr (count + length (List.filter succeeded
                            [(DeleteSecretImport env p id,
                              (respond (DeleteSecretImport env p id) w).1)])),
     (respond (DeleteSecretImport env p id) w).2,
     [(DeleteSecretImport env p id, (respond (DeleteSecretImport env p id) w).1)]).
Proof.
  unfold delete_secret_import. unfold_monad.
  destruct (respond _ w) as [[e|pl] w1]; simpl; by rewrite ?Nat.add_0_r.
Qed.

Lemma delete_secret_step env p key (w : W) :
  try_pass (delete_secret env key p) w
  = (inr tt, (respond (DeleteSecret env key p) w).2,
     [(DeleteSecret env key p, (respond (DeleteSecret env key p) w).1)]).
Proof.
  unfold delete_secret. unfold_monad. by destruct (respond _ w) as [[e|pl] w1].
Qed.

(** The loop of [delete_all_secret_imports]: every listed edge gets its
    delete request and the count is the number of requests that
    succeeded. *)
Lemma delete_imports_loop env p (l : list secret_import) (count : nat) (w : W) :
  exists w' dels,
    fold_m (fun count imp =>
              try_except
                (delete_secret_import env p (import_id imp);; ret (count + 1))
                (fun _ => ret count)) l count w
    = (inr (count + length (List.filter succeeded dels)), w', dels)
    /\ dels.*1 = (fun imp => DeleteSecretImport env p (import_id imp)) <$> l.
Proof.
  revert count w. induction l as [|imp l IH]; intros count w; cbn [fold_m].
  - exists w, []. unfold ret. simpl. by rewrite Nat.add_0_r.
  - unfold bind at 1. rewrite delete_import_step.
    set (c := DeleteSecretImport env p (import_id imp)).
    edestruct IH as (w' & dels & Hrun & Hdels). rewrite Hrun.
    exists w', ((c, (respond c w).1) :: dels). split.
    + do 2 f_equal. f_equal. rewrite <- Nat.add_assoc. f_equal.
      change ((c, (respond c w).1) :: dels) with ([(c, (respond c w).1)] ++ dels).
      by rewrite List.filter_app, length_app.
    + simpl. f_equal. exact Hdels.
Qed.

Lemma delete_all_secret_imports_run env p (w : W) :
  exists w' dels,
    delete_all_secret_imports env p w
    = (on_success (respond (ListSecretImports env p) w).1
                  (length (List.filter succeeded dels)),
       w', (ListSecretImports env p, (respond (ListSecretImports env p) w).1) :: dels)
    /\ dels.*1 = (fun imp => DeleteSecretImport env p (import_id imp))
                   <$> listed_imports (respond (ListSecretImports env p) w).1.
Proof.
  unfold delete_all_secret_imports.
  unfold mbind at 1, M_bind at 1, bind at 1. rewrite list_secret_imports_run.
  destruct (respond (ListSecretImports env p) w) as [[e|pl] w1] eqn:Hr;
    cbn [fst snd on_success].
  - by exists w1, [].
  - destruct (delete_imports_loop env p (listed_imports (inr pl)) 0 w1)
      as (w' & dels & Hrun & Hdels).
    rewrite Hrun. by exists w', dels.
Qed.

Lemma delete_secrets_loop env p (l : list secret) (w : W) :
  exists w' dels,
    for_each l (fun s => try_pass (delete_secret env (secretKey s) p)) w
    = (inr tt, w', dels)
    /\ dels.*1 = (fun s => DeleteSecret env (secretKey s) p) <$> l.
Proof.
  revert w. induction l as [|s l IH]; intros w; cbn [for_each].
  - by exists w, [].
  - unfold bind at 1. rewrite delete_secret_step.
    set (c := DeleteSecret env (secretKey s) p).
    edestruct IH as (w' & dels & Hrun & Hdels). rewrite Hrun.
    exists w', ((c, (respond c w).1) :: dels).
    split; [reflexivity | simpl; f_equal; exact Hdels].
Qed.

Lemma delete_children_loop (self_call : string -> string -> M W bool) env p
      (l : list folder) (w : W) :
  (forall path w0, child_trace env path (self_call env path w0).2) ->
  exists r w' names ts,
    for_each l (fun subfolder =>
                  self_call env (p +:+ "/" +:+ folder_name subfolder);; ret tt) w
    = (r, w', concat ts)
    /\ names `prefix_of` (folder_name <$> l)
    /\ Forall2 (fun name t => child_trace env (p +:+ "/" +:+ name) t) names ts.
Proof.
  intros Hself. revert w. induction l as [|sub l IH]; intros w; cbn [for_each].
  - exists (inr tt), w, [], []. split_and!; [done | done | constructor].
  - unfold bind at 1. unfold mbind at 1, M_bind at 1, bind at 1.
    pose proof (Hself (p +:+ "/" +:+ folder_name sub) w) as Hchild.
    destruct (self_call env (p +:+ "/" +:+ folder_name sub) w) as [[[e|b] w1] tc];
      cbn [snd] in Hchild.
    + exists (inl e), w1, [folder_name sub], [tc]. split_and!.
      * simpl. by rewrite app_nil_r.
      * by apply prefix_cons, prefix_nil.
      * constructor; [done | constructor].
    + destruct (IH w1) as (r & w' & names & ts & Hrun & Hpre & Hall).
      unfold ret at 1. rewrite Hrun.
      exists r, w', (folder_name sub :: names), (tc :: ts). split_and!.
      * simpl. by rewrite app_nil_r.
      * by apply prefix_cons.
      * by constructor.
Qed.

Lemma rstrip_not_slash (s : string) : Py.rstrip "/"%char s ≠ "/".
Proof.
  unfold Py.rstrip. induction s as [|c s IH]; simpl; [done|].
  destruct (Py.rstrip_with (Py.is_char "/") s) as [|c' s'] eqn:E.
  - destruct (Py.is_char "/" c) eqn:Hc; [done|].
    intros [= ->]. by vm_compute in Hc.
  - intros [= _ Hs].
Qed.

Lemma only_slashes_false (s : string) :
  only_slashes s = false -> Py.nonempty (Py.rstrip "/"%char s) = true.
Proof.
  intros Hs. destruct (Py.rstrip "/"%char s) eqn:E; [|done].
  apply rstrip_with_empty_inv in E. unfold only_slashes in Hs. congruence.
Qed.

Lemma delete_folder_itself_final env p (w : W) :
  final_phase env p (delete_folder_itself env p w).1.1 (delete_folder_itself env p w).2.
Proof.
  destruct (delete_folder_itself env p w) as [[res w'] t] eqn:Hrun. cbn [fst snd].
  unfold final_phase. unfold delete_folder_itself in Hrun.
  destruct (parent_and_name p) as [parent_path name]. cbn [fst snd].
  unfold mbind at 1, M_bind at 1, bind at 1 in Hrun. rewrite list_folders_run in Hrun.
  exists (respond (ListFolders env parent_path) w).1.
  destruct (respond (ListFolders env parent_path) w) as [[e|pl] w0];
    cbn [fst snd on_success] in *.
  - by injection Hrun as <- <- <-.
  - destruct (List.find _ (listed_folders (inr pl))) as [f|].
    + unfold delete_folder in Hrun. unfold_monad.
      exists (respond (DeleteFolder env (folder_id f) parent_path) w0).1.
      destruct (respond (DeleteFolder env (folder_id f) parent_path) w0) as [[e|pl'] w4];
        by injection Hrun as <- <- <-.
    + unfold ret in Hrun. by injection Hrun as <- <- <-.
Qed.

Lemma delete_imports_step env p (w : W) :
  exists w1 t1,
    try_pass (delete_all_secret_imports env p;; ret tt) w = (inr tt, w1, t1)
    /\ imports_phase env p t1.
Proof.
  destruct (delete_all_secret_imports_run env p w) as (w1 & dels & Hrun & Hdels).
  unfold try_pass, try_except. unfold mbind at 1, M_bind at 1, bind at 1.
  rewrite Hrun.
  exists w1, ((ListSecretImports env p, (respond (ListSecretImports env p) w).1) :: dels).
  split; [|by eexists _, _].
  destruct (respond (ListSecretImports env p) w).1 as [e|pl];
    cbn [on_success]; unfold ret; by rewrite app_nil_r.
Qed.

Lemma delete_secrets_step env p (w : W) :
  exists w2 t2,
    try_pass (secrets ← list_secrets env p;
              for_each secrets (fun s => try_pass (delete_secret env (secretKey s) p))) w
    = (inr tt, w2, t2)
    /\ secrets_phase env p t2.
Proof.
  unfold try_pass at 1, try_except at 1.
  unfold mbind at 1, M_bind at 1, bind at 1.
  rewrite list_secrets_run.
  destruct (respond (ListSecrets env p) w) as [[e|pl] w'] eqn:Hr;
    cbn [fst snd on_success].
  - eexists _, _. split; [reflexivity|]. by exists (inl e), [].
  - destruct (delete_secrets_loop env p (listed_secrets (inr pl)) w')
      as (w2 & dels & Hrun & Hdels).
    rewrite Hrun. eexists _, _. split; [reflexivity|]. by exists (inr pl), dels.
Qed.

Lemma delete_children_step (self_call : string -> string -> M W bool) env p (w : W) :
  (forall path w0, child_trace env path (self_call env path w0).2) ->
  exists w3 t3,
    try_pass (subfolders ← list_folders env p;
              for_each subfolders (fun subfolder =>
                self_call env (p +:+ "/" +:+ folder_name subfolder);; ret tt)) w
    = (inr tt, w3, t3)
    /\ children_phase env p t3.
Proof.
  intros Hself. unfold try_pass, try_except. unfold mbind at 1, M_bind at 1, bind at 1.
  rewrite list_folders_run.
  destruct (respond (ListFolders env p) w) as [[e|pl] w'] eqn:Hr;
    cbn [fst snd on_success].
  - eexists _, _. split; [reflexivity|].
    apply (children_intro env p (inl e) [] []); [apply prefix_nil | constructor].
  - destruct (delete_children_loop self_call env p (listed_folders (inr pl)) w' Hself)
      as (r & w3 & names & ts & Hrun & Hpre & Hall).
    rewrite Hrun.
    assert (Hch : children_phase env p ((ListFolders env p, inr pl) :: concat ts))
      by (by apply (children_intro env p (inr pl) names ts)).
    destruct r as [e|[]]; unfold ret; rewrite ?app_nil_r; eexists _, _; split; done.
Qed.

(** One activation on a non-root path follows the four steps in order;
    its result is that of the last step. *)
Lemma delete_folder_recursive_body_order
      (self_call : string -> string -> M W bool) env folder_path (w : W) :
  (forall path w0, child_trace env path (self_call env path w0).2) ->
  only_slashes folder_path = false ->
  delete_order env (Py.rstrip "/"%char folder_path)
               (delete_folder_recursive_body self_call env folder_path w).1.1
               (delete_folder_recursive_body self_call env folder_path w).2.
Proof.
  intros Hself Hpath.
  destruct (delete_folder_recursive_body self_call env folder_path w)
    as [[res w'] t] eqn:Hrun.
  cbn [fst snd]. unfold delete_folder_recursive_body in Hrun.
  rewrite (only_slashes_false _ Hpath) in Hrun. cbn [negb orb] in Hrun.
  rewrite bool_decide_false in Hrun by apply rstrip_not_slash.
  set (p := Py.rstrip "/"%char folder_path) in *.
  unfold mbind at 1, M_bind at 1, bind at 1 in Hrun.
  destruct (delete_imports_step env p w) as (w1 & t1 & Hrun1 & Himp).
  rewrite Hrun1 in Hrun.
  unfold mbind at 1, M_bind at 1, bind at 1 in Hrun.
  destruct (delete_secrets_step env p w1) as (w2 & t2 & Hrun2 & Hsec).
  rewrite Hrun2 in Hrun.
  unfold mbind at 1, M_bind at 1, bind at 1 in Hrun.
  destruct (delete_children_step self_call env p w2 Hself) as (w3 & t3 & Hrun3 & Hsub).
  rewrite Hrun3 in Hrun.
  pose proof (delete_folder_itself_final env p w3) as Hfin.
  destruct (delete_folder_itself env p w3) as [[r4 w4] t4].
  cbn [fst snd] in *. injection Hrun as <- <- <-. by constructor.
Qed.

Lemma delete_folder_recursive_child depth env path (w : W) :
  child_trace env path (delete_folder_recursive depth env path w).2.
Proof.
  revert path w. induction depth as [|depth IH]; intros path w;
    (destruct (only_slashes path) eqn:Hpath;
     [left; cbn [delete_folder_recursive];
      unfold delete_folder_recursive_body;
      apply rstrip_with_all in Hpath; unfold Py.rstrip; by rewrite Hpath
     |right; eexists; cbn [delete_folder_recursive];
      apply delete_folder_recursive_body_order; [|done]]).
  - intros path' w0. by left.
  - done.
Qed.

(** The order of the requests of [delete_folder_recursive] on a
    non-root path: imports, secrets, child folders (each by a nested
    activation, depth first, up to the first activation that raises),
    and last the folder's own delete; every listed import and every
    listed secret gets its delete request whatever the earlier requests
    answered, and this holds for every remote store, hence whichever
    requests fail. *)
Theorem delete_folder_recursive_order depth env folder_path (w : W) :
  only_slashes folder_path = false ->
  delete_order env (Py.rstrip "/"%char folder_path)
               (delete_folder_recursive depth env folder_path w).1.1
               (delete_folder_recursive depth env folder_path w).2.
Proof.
  intros Hpath. destruct depth as [|depth]; cbn [delete_folder_recursive];
    (apply delete_folder_recursive_body_order; [|done]).
  - intros path w0. by left.
  - apply delete_folder_recursive_child.
Qed.



End ClientFacts.

Lemma delete_folder_recursive_order_witness :
  delete_order "prod" "/old"
    (delete_folder_recursive 5 "prod" "/old/"
       (old_folder_store [None; None; None; Some ConnectionError])).1.1
    (delete_folder_recursive 5 "prod" "/old/"
       (old_folder_store [None; None; None; Some ConnectionError])).2.
Proof.
  apply (delete_folder_recursive_order 5 "prod" "/old/"
           (old_folder_store [None; None; None; Some ConnectionError])).
  reflexivity.
Defined.



(** ** Reconciliation of one (environment, path) *)

Section ReconcilerFacts.
Context {W : Type} `{RemoteStore W}.

Lemma set_secret_step_run env path (dry_run : bool) current (st : stats)
      (kv : string * string) (w : W) :
  set_secret_step env path dry_run current st kv w
  = match classify current kv, dry_run with
    | Unchanged, _ => (inr (count_unchanged st), w, [])
    | Created, true => (inr (count_created st), w, [])
    | Updated, true => (inr (count_updated st), w, [])
    | Created, false =>
        let c := CreateSecret env kv.1 kv.2 path in
        (inr (match (respond c w).1 with
              | inr _ => count_created st
              | inl _ => count_failed st
              end), (respond c w).2, [(c, (respond c w).1)])
    | Updated, false =>
        let c := UpdateSecret env kv.1 kv.2 path in
        (inr (match (respond c w).1 with
              | inr _ => count_updated st
              | inl _ => count_failed st
              end), (respond c w).2, [(c, (respond c w).1)])
    end.
Proof.
  destruct kv as [key value]. unfold set_secret_step, classify. cbn [fst snd].
  destruct (dict_get key current) as [s|].
  - destruct (decide (secretValue s = Some value)) as [Heq|Hne].
    + rewrite bool_decide_false by (intros Hn; by apply Hn).
      rewrite bool_decide_true by done. by destruct dry_run.
    + rewrite bool_decide_true by done. rewrite bool_decide_false by done.
      destruct dry_run; [done|].
      unfold update_secret. unfold_monad.
      by destruct (respond (UpdateSecret env key value path) w) as [[e|pl] w1].
  - destruct dry_run; [done|].
    unfold create_secret. unfold_monad.
    by destruct (respond (CreateSecret env key value path) w) as [[e|pl] w1].
Qed.

(** The loop over the desired mapping: it never raises; in apply mode
    it sends exactly the planned writes, in order; a key counts under
    its classification unless its write failed, and then under failed. *)
Lemma set_secrets_loop env path (dry_run : bool) current
      (desired : pydict string string) (st : stats) (w : W) :
  exists st' w' writes,
    fold_m (set_secret_step env path dry_run current) desired st w = (inr st', w', writes)
    /\ writes.*1 = (if dry_run then [] else planned_writes env path current desired)
    /\ created st' + length (List.filter failed_create writes)
       = created st + count_class Created current desired
    /\ updated st' + length (List.filter failed_update writes)
       = updated st + count_class Updated current desired
    /\ unchanged st' = unchanged st + count_class Unchanged current desired
    /\ failed st'
       = failed st + length (List.filter failed_create writes)
         + length (List.filter failed_update writes).
Proof.
  revert st w. induction desired as [|kv desired IH]; intros st w; cbn [fold_m].
  - exists st, w, []. unfold ret, count_class. simpl.
    split_and!; [done | by destruct dry_run | lia..].
  - unfold bind at 1. rewrite set_secret_step_run.
    unfold count_class, planned_writes. cbn [List.filter omap list_omap].
    unfold planned_write at 1.
    destruct (classify current kv) eqn:Hc; destruct dry_run;
      cbn [bool_decide decide_rel];
      try (destruct (respond _ w) as [[e|pl] w1] eqn:Hr; cbn [fst snd]);
      edestruct IH as (st' & w' & writes & Hrun & Hw & Hcr & Hup & Hun & Hfa);
      rewrite Hrun; eexists st', w', (_ ++ writes);
      (split; [reflexivity|]);
      rewrite ?fmap_app, ?List.filter_app, ?length_app;
      unfold count_class, planned_writes in *; simpl in *;
      (split_and!; [by rewrite ?Hw | lia..]).
Qed.

End ReconcilerFacts.

(** C2, as stated, fails in apply mode when a write request fails: the
    key A is absent from the remote mapping, its create request fails,
    and the key is counted as failed, not as created. *)
Lemma absent_key_with_failing_create_is_classified_failed :
  let w := MemStore.mk_store [] [] [] [None; Some ConnectionError] in
  classify (remote_current (respond (ListSecrets "prod" "/app") w).1) ("A", "1") = Created
  /\ (set_secrets_from_env "prod" ["A=1"] "/app" false w).1.1 = inr (mk_stats 0 0 0 1)
  /\ (set_secrets_from_env "prod" ["A=1"] "/app" false w).2
     = [(ListSecrets "prod" "/app", inr (Secrets []));
        (CreateSecret "prod" "A" "1" "/app", inl ConnectionError)].
Proof. split_and!; reflexivity. Qed.

(** C2, amended (set_secrets_from_env): with a non-empty desired mapping
    and the remote mapping fetched by a listing request that succeeds,
    the call returns statistics and never raises; it sends no write in
    preview mode and, in apply mode, exactly one create request per
    desired key absent remotely and one update request per desired key
    whose remote value differs, in the order of the file, and nothing
    else: no key outside the desired mapping is written and nothing is
    deleted.  A key absent remotely is counted created, a key with a
    differing value updated, unless its write request fails, in which
    case it is counted failed; a key with an equal value is counted
    unchanged.  For desired A=1, B=2 and remote B=2, C=3 the result is one
    created (A), none updated, one unchanged (B), and C stays as it is. *)
Theorem set_secrets_from_env_classification
    {W : Type} `{RemoteStore W} (env : string) (env_file : list string)
    (path : string) (dry_run : bool) (w : W) (pl : payload) :
  (SyncToInfisical.parse_env_file env_file ≠ [] ->
   (respond (ListSecrets env path) w).1 = inr pl ->
   let desired := SyncToInfisical.parse_env_file env_file in
   let current := remote_current (inr pl) in
   exists st w' writes,
     set_secrets_from_env env env_file path dry_run w
     = (inr st, w', (ListSecrets env path, inr pl) :: writes)
     /\ writes.*1 = (if dry_run then [] else planned_writes env path current desired)
     /\ (forall c, c ∈ writes.*1 ->
           exists k v, (k, v) ∈ desired
                       /\ (c = CreateSecret env k v path /\ classify current (k, v) = Created
                           \/ c = UpdateSecret env k v path
                              /\ classify current (k, v) = Updated))
     /\ created st + length (List.filter failed_create writes)
        = count_class Created current desired
     /\ updated st + length (List.filter failed_update writes)
        = count_class Updated current desired
     /\ unchanged st = count_class Unchanged current desired
     /\ failed st = length (List.filter failed_create writes)
                    + length (List.filter failed_update writes))
  /\ set_secrets_from_env "prod" ["A=1"; "B=2"] "/app" false
       (MemStore.mk_store [] [(("prod", ["app"]), [("B", "2"); ("C", "3")])] [] [])
     = (inr (mk_stats 1 0 1 0),
        MemStore.mk_store [] [(("prod", ["app"]), [("B", "2"); ("C", "3"); ("A", "1")])] [] [],
        [(ListSecrets "prod" "/app",
          inr (Secrets [mk_secret "B" (Some "2"); mk_secret "C" (Some "3")]));
         (CreateSecret "prod" "A" "1" "/app", inr Done)]).
Proof.
  split; [|reflexivity].
  intros Hne Hlist desired current. unfold set_secrets_from_env.
  fold desired. destruct desired as [|kv0 desired0] eqn:Hd; [done|]. rewrite <- Hd.
  unfold mbind at 1, M_bind at 1, bind at 1. rewrite list_secrets_run, Hlist.
  cbn [on_success].
  destruct (set_secrets_loop env path dry_run current desired no_stats
              (respond (ListSecrets env path) w).2)
    as (st & w' & writes & Hrun & Hw & Hcr & Hup & Hun & Hfa).
  fold (remote_current (inr pl)). fold current. rewrite Hrun.
  exists st, w', writes. split_and!; [done | done | | done..].
  intros c Hc. unfold event, response in *. rewrite Hw in Hc. destruct dry_run; [by apply elem_of_nil in Hc|].
  unfold planned_writes in Hc. apply list_elem_of_omap in Hc as ([k v] & Hin & Hplan).
  exists k, v. split; [done|]. unfold planned_write in Hplan. cbn [fst snd] in Hplan.
  destruct (classify current (k, v)); naive_solver.
Qed.

Lemma set_secrets_from_env_classification_witness :
  exists st w' writes,
    set_secrets_from_env "prod" ["A=1"; "B=2"; "D=4"] "/app" false
      (MemStore.mk_store [] [(("prod", ["app"]), [("B", "0"); ("C", "3")])] []
                         [None; None; Some (HTTPError 500)])
    = (inr st, w',
       (ListSecrets "prod" "/app",
        inr (Secrets [mk_secret "B" (Some "0"); mk_secret "C" (Some "3")])) :: writes)
    /\ writes.*1 = [CreateSecret "prod" "A" "1" "/app"; UpdateSecret "prod" "B" "2" "/app";
                    CreateSecret "prod" "D" "4" "/app"]
    /\ created st = 2 /\ updated st = 0 /\ unchanged st = 0 /\ failed st = 1.
Proof.
  destruct (set_secrets_from_env_classification "prod" ["A=1"; "B=2"; "D=4"] "/app" false
              (MemStore.mk_store [] [(("prod", ["app"]), [("B", "0"); ("C", "3")])] []
                                 [None; None; Some (HTTPError 500)])
              (Secrets [mk_secret "B" (Some "0"); mk_secret "C" (Some "3")]))
    as [Hgen _].
  destruct Hgen as (st & w' & writes & Hrun & Hw & _ & Hcr & Hup & Hun & Hfa);
    [discriminate | reflexivity |].
  exists st, w', writes. split; [exact Hrun|].
  pose proof Hrun as Hrun'. vm_compute in Hrun'.
  injection Hrun' as Hst _ Hwrites. subst st writes.
  split_and!; reflexivity.
Defined.

(** ** The in-memory store *)

Module MemStoreFacts.
Import MemStore.

(** A request either fails on schedule and leaves the data alone, or is
    served on the data. *)
Lemma answer_cases (c : call) (s : store) :
  (exists e rest, faults s = Some e :: rest /\ answer c s = (inl e, with_faults rest s))
  \/ (exists rest, answer c s = serve c (with_faults rest s)).
Proof.
  unfold answer. destruct (faults s) as [|[e|] rest] eqn:Hf.
  - right. exists []. destruct s; simpl in *; by subst.
  - left. by exists e, rest.
  - right. by exists rest.
Qed.

Lemma failed_answer_keeps_data (c : call) (s s' : store) (e : exn) :
  answer c s = (inl e, s') ->
  folders s' = folders s /\ secrets s' = secrets s /\ imports s' = imports s.
Proof.
  intros Hans. destruct (answer_cases c s) as [(e' & rest & _ & Heq)|(rest & Heq)];
    rewrite Heq in Hans.
  - by injection Hans as _ <-.
  - destruct c; cbn [serve] in Hans; repeat case_match; by simplify_eq.
Qed.

Lemma existsb_import_matches ie ip (edges : list (string * string)) :
  existsb (import_matches ie ip)
          ((fun edge => mk_secret_import (id_of_import edge) (Some edge.1) (Some edge.2))
             <$> edges)
  = bool_decide ((ie, ip) ∈ edges).
Proof.
  induction edges as [|[ie' ip'] edges IH]; [done|].
  rewrite fmap_cons. cbn [existsb]. rewrite IH.
  unfold import_matches. cbn [importEnv_slug importPath fst snd].
  repeat case_bool_decide; simpl; try reflexivity; exfalso;
    rewrite ?elem_of_cons in *; naive_solver.
Qed.

Lemma list_imports_answer env path (s s1 : store) (pl : payload) :
  answer (ListSecretImports env path) s = (inr pl, s1) ->
  listed_imports (inr pl)
  = (fun edge => mk_secret_import (id_of_import edge) (Some edge.1) (Some edge.2))
      <$> imports_at (loc env path) s
  /\ imports s1 = imports s /\ folders s1 = folders s /\ secrets s1 = secrets s.
Proof.
  intros Hans. destruct (answer_cases (ListSecretImports env path) s)
    as [(e & rest & _ & Heq)|(rest & Heq)]; rewrite Heq in Hans; [done|].
  cbn [serve] in Hans. by injection Hans as <- <-.
Qed.

Lemma create_import_answer env path ie ip (s s1 : store) (pl : payload) :
  answer (CreateSecretImport env path ie ip) s = (inr pl, s1) ->
((ie, ip) ∉ imports_at (loc env path) s)
  /\ imports s1 = imports s ++ [(loc env path, (ie, ip))]
  /\ folders s1 = folders s /\ secrets s1 = secrets s.
Proof.
  intros Hans. destruct (answer_cases (CreateSecretImport env path ie ip) s)
    as [(e & rest & _ & Heq)|(rest & Heq)]; rewrite Heq in Hans; [done|].
  cbn [serve] in Hans. case_bool_decide as Hin; [done|].
  by injection Hans as <- <-.
Qed.

Lemma imports_at_eq l (s s' : store) :
  imports s' = imports s -> imports_at l s' = imports_at l s.
Proof. unfold imports_at. by intros ->. Qed.

Lemma imports_at_snoc l edge (s s' : store) :
  imports s' = imports s ++ [(l, edge)] -> edge ∈ imports_at l s'.
Proof.
  unfold imports_at. intros ->. rewrite List.filter_app, fmap_app, elem_of_app. right.
  cbn [List.filter fst]. rewrite bool_decide_true by done. apply elem_of_cons. by left.
Qed.

End MemStoreFacts.

(** ** Import edges *)

Lemma ensure_secret_import_run {W : Type} `{RemoteStore W} env path ie ip (w : W) :
  ensure_secret_import env path ie ip w
  = let listing := respond (ListSecretImports env path) w in
    match listing.1 with
    | inl e => (inl e, listing.2, [(ListSecretImports env path, listing.1)])
    | inr _ =>
        if existsb (import_matches ie ip) (listed_imports listing.1)
        then (inr false, listing.2, [(ListSecretImports env path, listing.1)])
        else
          let creation := respond (CreateSecretImport env path ie ip) listing.2 in
          (on_success creation.1 true, creation.2,
           [(ListSecretImports env path, listing.1);
            (CreateSecretImport env path ie ip, creation.1)])
    end.
Proof.
  unfold ensure_secret_import. unfold mbind at 1, M_bind at 1, bind at 1.
  rewrite list_secret_imports_run. cbn zeta.
  destruct (respond (ListSecretImports env path) w) as [[e|pl] w1];
    cbn [fst snd on_success]; [done|].
  destruct (existsb _ (listed_imports (inr pl))); [done|].
  unfold create_secret_import. unfold_monad.
  by destruct (respond (CreateSecretImport env path ie ip) w1) as [[e|pl'] w2].
Qed.

(** One call on the in-memory store, whatever it returns: the first
    request is the listing; when the listing fails the call raises and
    changes nothing; when an edge to (ie, ip) is there it returns False
    after the listing alone; otherwise it sends one create request, and
    returns True with the edge appended or raises with nothing changed. *)
Lemma ensure_secret_import_mem env path ie ip (s s' : MemStore.store)
      (r : exn + bool) (t : list event) :
  ensure_secret_import env path ie ip s = (r, s', t) ->
  let listing := MemStore.answer (ListSecretImports env path) s in
  MemStore.folders s' = MemStore.folders s /\ MemStore.secrets s' = MemStore.secrets s
  /\ match listing.1 with
     | inl e =>
         r = inl e /\ s' = listing.2 /\ t = [(ListSecretImports env path, listing.1)]
         /\ MemStore.imports s' = MemStore.imports s
     | inr _ =>
         if bool_decide ((ie, ip) ∈ MemStore.imports_at (MemStore.loc env path) s)
         then r = inr false /\ s' = listing.2
              /\ t = [(ListSecretImports env path, listing.1)]
              /\ MemStore.imports s' = MemStore.imports s
         else List.filter mutating t.*1 = [CreateSecretImport env path ie ip]
              /\ ((r = inr true
                   /\ MemStore.imports s'
                      = MemStore.imports s ++ [(MemStore.loc env path, (ie, ip))])
                  \/ ((exists e, r = inl e)
                      /\ MemStore.imports s' = MemStore.imports s))
     end.
Proof.
  rewrite ensure_secret_import_run. cbn zeta.
  change (@respond MemStore.store _) with MemStore.answer.
  destruct (MemStore.answer (ListSecretImports env path) s) as [[e|pl] sa] eqn:Hl;
    cbn [fst snd].
  - intros [= <- <- <-].
    destruct (MemStoreFacts.failed_answer_keeps_data _ _ _ _ Hl) as (Hf & Hs & Hi).
    done.
  - destruct (MemStoreFacts.list_imports_answer _ _ _ _ _ Hl) as (Hlist & Hi & Hf & Hs).
    rewrite Hlist, MemStoreFacts.existsb_import_matches.
    case_bool_decide as Hedge.
    + by intros [= <- <- <-].
    + destruct (MemStore.answer (CreateSecretImport env path ie ip) sa)
        as [[e|pl'] sb] eqn:Hc; cbn [fst snd on_success]; intros [= <- <- <-].
      * destruct (MemStoreFacts.failed_answer_keeps_data _ _ _ _ Hc) as (Hf' & Hs' & Hi').
        split_and!; [congruence | congruence | done |].
        right. split; [by exists e | congruence].
      * destruct (MemStoreFacts.create_import_answer _ _ _ _ _ _ _ Hc)
          as (_ & Hi' & Hf' & Hs').
        split_and!; [congruence | congruence | done |].
        left. split; [done | congruence].
Qed.

(** C8 (ensure_secret_import): the call lists the edges at (env, path);
    when one already targets (sourceEnv, sourcePath) it sends no create
    request and reports that the edge exists (False), otherwise it sends
    one create request and reports created (True).  On a store that
    keeps its edges, after a first call that returned, the first call
    reported created exactly when no edge to (sourceEnv, sourcePath) was
    there, and has sent one create request in that case and none
    otherwise; the edge is there; and the second identical call sends
    its listing and nothing else, changes nothing, and returns False
    whenever that listing succeeds (it raises the listing's exception
    otherwise); the listing succeeds when the store does not make it
    fail.  Whatever the two calls return, together they add at most one
    edge. *)
Theorem ensure_secret_import_idempotent
    {W : Type} `{RemoteStore W} (w : W) (env path ie ip : string)
    (s s1 : MemStore.store) (r1 : bool) (t1 : list event) :
  ensure_secret_import env path ie ip w
  = (let listing := respond (ListSecretImports env path) w in
     match listing.1 with
     | inl e => (inl e, listing.2, [(ListSecretImports env path, listing.1)])
     | inr _ =>
         if existsb (import_matches ie ip) (listed_imports listing.1)
         then (inr false, listing.2, [(ListSecretImports env path, listing.1)])
         else
           let creation := respond (CreateSecretImport env path ie ip) listing.2 in
           (on_success creation.1 true, creation.2,
            [(ListSecretImports env path, listing.1);
             (CreateSecretImport env path ie ip, creation.1)])
     end)
  /\ (ensure_secret_import env path ie ip s = (inr r1, s1, t1) ->
      let listing := MemStore.answer (ListSecretImports env path) s1 in
      r1 = negb (bool_decide ((ie, ip) ∈ MemStore.imports_at (MemStore.loc env path) s))
      /\ List.filter mutating t1.*1
         = (if r1 then [CreateSecretImport env path ie ip] else [])
      /\ MemStore.imports s1
         = (if r1 then MemStore.imports s ++ [(MemStore.loc env path, (ie, ip))]
            else MemStore.imports s)
      /\ (ie, ip) ∈ MemStore.imports_at (MemStore.loc env path) s1
      /\ ensure_secret_import env path ie ip s1
         = (match listing.1 with inl e => inl e | inr _ => inr false end,
            listing.2, [(ListSecretImports env path, listing.1)])
      /\ Settled.same_data s1 listing.2
      /\ ((forall e rest, MemStore.faults s1 <> Some e :: rest) ->
          exists pl, listing.1 = inr pl))
  /\ (forall (r r' : exn + bool) (s' s'' : MemStore.store) (t t' : list event),
        ensure_secret_import env path ie ip s = (r, s', t) ->
        ensure_secret_import env path ie ip s' = (r', s'', t') ->
        MemStore.imports s'' = MemStore.imports s
        \/ MemStore.imports s''
           = MemStore.imports s ++ [(MemStore.loc env path, (ie, ip))]).
Proof.
  split; [apply ensure_secret_import_run|]. split.
  - intros Hrun1. cbn zeta.
    assert (Hfirst :
              r1 = negb (bool_decide
                           ((ie, ip) ∈ MemStore.imports_at (MemStore.loc env path) s))
              /\ List.filter mutating t1.*1
                 = (if r1 then [CreateSecretImport env path ie ip] else [])
              /\ MemStore.imports s1
                 = (if r1
                    then MemStore.imports s ++ [(MemStore.loc env path, (ie, ip))]
                    else MemStore.imports s)
              /\ (ie, ip) ∈ MemStore.imports_at (MemStore.loc env path) s1).
    { pose proof (ensure_secret_import_mem _ _ _ _ _ _ _ _ Hrun1) as (_ & _ & Hcase).
      cbn zeta in Hcase.
      destruct (MemStore.answer (ListSecretImports env path) s) as [[e|pl] sa];
        cbn [fst snd] in Hcase; [by destruct Hcase|].
      case_bool_decide as Hedge.
      - destruct Hcase as ([= ->] & -> & -> & Hi). split_and!; [done | done | done |].
        by rewrite (MemStoreFacts.imports_at_eq _ _ _ Hi).
      - destruct Hcase as (Hmut & [([= ->] & Hi)|([e He] & _)]); [|done].
        split_and!; [done | done | done |].
        by apply (MemStoreFacts.imports_at_snoc _ _ s). }
    destruct Hfirst as (Hr1 & Hmut1 & Hi1 & Hedge1).
    split_and!; [done | done | done | done | | |].
    + destruct (ensure_secret_import env path ie ip s1) as [[r2 s2] t2] eqn:Hrun2.
      pose proof (ensure_secret_import_mem _ _ _ _ _ _ _ _ Hrun2) as (_ & _ & Hcase).
      cbn zeta in Hcase.
      destruct (MemStore.answer (ListSecretImports env path) s1) as [[e|pl] sa];
        cbn [fst snd] in Hcase |- *.
      * by destruct Hcase as (-> & -> & -> & _).
      * rewrite bool_decide_true in Hcase by done.
        by destruct Hcase as (-> & -> & -> & _).
    + destruct (MemStore.answer (ListSecretImports env path) s1) as [[e|pl] sa] eqn:Hl;
        cbn [snd].
      * destruct (MemStoreFacts.failed_answer_keeps_data _ _ _ _ Hl) as (Hf & Hs & Hi).
        done.
      * destruct (MemStoreFacts.list_imports_answer _ _ _ _ _ Hl) as (_ & Hi & Hf & Hs).
        done.
    + intros Hnofault.
      destruct (MemStoreFacts.answer_cases (ListSecretImports env path) s1)
        as [(e & rest & Hfaults & _)|(rest & Heq)].
      * by destruct (Hnofault e rest).
      * rewrite Heq. cbn [MemStore.serve fst]. by eexists.
  - intros r r' s' s'' t t' Hrun1 Hrun2.
    pose proof (ensure_secret_import_mem _ _ _ _ _ _ _ _ Hrun1) as (_ & _ & Hcase1).
    pose proof (ensure_secret_import_mem _ _ _ _ _ _ _ _ Hrun2) as (_ & _ & Hcase2).
    cbn zeta in Hcase1, Hcase2.
    assert (Hsecond : MemStore.imports s'' = MemStore.imports s'
                      \/ (((ie, ip) ∉ MemStore.imports_at (MemStore.loc env path) s')
                          /\ MemStore.imports s''
                             = MemStore.imports s'
                               ++ [(MemStore.loc env path, (ie, ip))])).
    { destruct (MemStore.answer (ListSecretImports env path) s') as [[e|pl] sa];
        cbn [fst snd] in Hcase2; [left; by destruct Hcase2 as (_ & _ & _ & ?)|].
      case_bool_decide as Hedge; [left; by destruct Hcase2 as (_ & _ & _ & ?)|].
      destruct Hcase2 as (_ & [(_ & Hi)|(_ & Hi)]); [by right | by left]. }
    clear Hcase2.
    destruct (MemStore.answer (ListSecretImports env path) s) as [[e|pl] sa];
      cbn [fst snd] in Hcase1.
    + destruct Hcase1 as (_ & _ & _ & Hi). rewrite Hi in Hsecond.
      destruct Hsecond as [?|[_ ?]]; [by left | by right].
    + case_bool_decide as Hedge.
      * destruct Hcase1 as (_ & _ & _ & Hi). rewrite Hi in Hsecond.
        destruct Hsecond as [?|[_ ?]]; [by left | by right].
      * destruct Hcase1 as (_ & [(_ & Hi)|(_ & Hi)]).
        -- destruct Hsecond as [Hsame|[Hnot _]]; [right; congruence|].
           destruct Hnot. by apply (MemStoreFacts.imports_at_snoc _ _ s).
        -- rewrite Hi in Hsecond.
           destruct Hsecond as [?|[_ ?]]; [by left | by right].
Qed.

Lemma ensure_secret_import_idempotent_witness :
  let s := MemStore.mk_store [] [] [(("prod", ["services"; "bi"]), ("common", "/other"))]
                             [None; Some (HTTPError 503)] in
  let first := ensure_secret_import "prod" "/services/bi" "common" "/services/bi"
                 (MemStore.with_faults [] s) in
  let second := ensure_secret_import "prod" "/services/bi" "common" "/services/bi"
                  first.1.2 in
  first.1.1 = inr true
  /\ List.filter mutating first.2.*1
     = [CreateSecretImport "prod" "/services/bi" "common" "/services/bi"]
  /\ second.1.1 = inr false
  /\ second.2.*1 = [ListSecretImports "prod" "/services/bi"].
Proof.
  intros s first second.
  destruct (ensure_secret_import_idempotent s "prod" "/services/bi" "common" "/services/bi"
              (MemStore.with_faults [] s) first.1.2 true first.2) as (_ & Htwice & _).
  destruct Htwice as (_ & Hmut & _ & _ & Hsecond & _); [reflexivity|].
  split; [reflexivity|]. split; [exact Hmut|].
  unfold second. rewrite Hsecond. split; reflexivity.
Defined.

(** ** Preview mode of the tree walkers *)

(** C1 at its failing input: in preview mode the walker of a shared
    directory and [import_service_env] still ensure the folder path, so
    folders are created remotely; the guarded variant of
    [sync_single_file] and [sync_by_path] sends no write. *)
Lemma dry_run_import_creates_folders :
  let base_dir := Dir "common" [File "database-users.env" ["DB_USER=app"]] in
  let preview := import_env_files_recursive base_dir "common" "/shared-secrets" true
                   MemStore.empty in
  preview.1.1 = inr (mk_stats 1 0 0 0)
  /\ List.filter mutating preview.2.*1
     = [CreateFolder "common" "shared-secrets" "/";
        CreateFolder "common" "database-users" "/shared-secrets/"]
  /\ MemStore.folders preview.1.2
     = [(("common", []), "shared-secrets");
        (("common", ["shared-secrets"]), "database-users")]
  /\ List.filter mutating
       (import_service_env (File "prod.env" ["A=1"]) "prod" "/services/bi" true
          MemStore.empty).2.*1
     = [CreateFolder "prod" "services" "/"; CreateFolder "prod" "bi" "/services/"]
  /\ List.filter mutating
       (sync_mapped_file (File "prod.env" ["A=1"]) "prod" "/services/bi" true
          MemStore.empty).2.*1
     = [].
Proof. split_and!; reflexivity. Qed.

(** C6 at its failing input: the folder /old has the child folders a
    and b, and the delete request for a fails.  The exception leaves the
    loop over the children, b gets no request at all, and the delete
    request for /old is sent all the same, while its child b is still
    there. *)
Lemma delete_folder_recursive_skips_children_after_failure :
  let run := delete_folder_recursive 5 "prod" "/old" two_children_store in
  run.2.*1
  = [ListSecretImports "prod" "/old"; ListSecrets "prod" "/old"; ListFolders "prod" "/old";
     ListSecretImports "prod" "/old/a"; ListSecrets "prod" "/old/a";
     ListFolders "prod" "/old/a"; ListFolders "prod" "/old";
     DeleteFolder "prod" "f-a" "/old";
     ListFolders "prod" "/"; DeleteFolder "prod" "f-old" "/"]
  /\ run.2 !! 7 = Some (DeleteFolder "prod" "f-a" "/old", inl (HTTPError 500))
  /\ run.1.1 = inr true
  /\ (("prod", ["old"]), "b") ∈ MemStore.folders run.1.2.
Proof. split_and!; [reflexivity | reflexivity | reflexivity | compute_done]. Qed.

(** ** The sync on the in-memory store *)

Section DictViews.
Context {K V : Type} `{EqDecision K}.

Lemma elem_of_dict_set (k : K) (v : V) (d : pydict K V) (x : K * V) :
  x ∈ dict_set k v d -> x = (k, v) \/ x ∈ d.
Proof.
  induction d as [|[k' v'] d IH]; simpl.
  - intros ->%list_elem_of_singleton. by left.
  - destruct (decide (k' = k)) as [->|Hne]; rewrite !elem_of_cons; naive_solver.
Qed.

Lemma dict_get_del_ne (k k' : K) (d : pydict K V) :
  k ≠ k' -> dict_get k' (dict_del k d) = dict_get k' d.
Proof.
  intros Hne. induction d as [|[k0 v0] d IH]; simpl; [done|].
  destruct (decide (k0 = k)) as [->|Hne0]; simpl.
  - by rewrite decide_False.
  - by rewrite IH.
Qed.
End DictViews.

(** The dictionary built from a listing reads as the listed mapping,
    provided the listing has each key once. *)
Lemma remote_current_get (d : pydict string string) (k : string)
      (acc : pydict string secret) :
  NoDup (dict_keys d) ->
  dict_get k (fold_left (fun acc x => dict_set (secretKey x) (id x) acc)
                        ((fun kv => mk_secret kv.1 (Some kv.2)) <$> d) acc)
  = match dict_get k d with
    | Some v => Some (mk_secret k (Some v))
    | None => dict_get k acc
    end.
Proof.
  revert acc. induction d as [|[k0 v0] d IH]; intros acc Hnd; [done|].
  change (NoDup (k0 :: dict_keys d)) in Hnd.
  apply NoDup_cons in Hnd as [Hnotin Hnd].
  rewrite fmap_cons. cbn [fold_left secretKey fst snd]. rewrite IH by done.
  cbn [dict_get]. destruct (decide (k0 = k)) as [->|Hne].
  - apply dict_get_None in Hnotin. rewrite Hnotin. apply dict_get_set_eq.
  - destruct (dict_get k d); [done|]. by apply dict_get_set_ne.
Qed.

Module SyncFacts.
Import MemStore Settled MemStoreFacts.

Lemma same_data_refl s : same_data s s.
Proof. done. Qed.

Lemma same_data_trans s1 s2 s3 : same_data s1 s2 -> same_data s2 s3 -> same_data s1 s3.
Proof. unfold same_data. intros (-> & -> & ->) (-> & -> & ->). done. Qed.

(** A request that fails leaves the data alone. *)
Lemma answer_failure c s e s' : answer c s = (inl e, s') -> same_data s s'.
Proof.
  intros Hans. destruct (answer_cases c s) as [(e' & rest & _ & Heq)|(rest & Heq)];
    rewrite Heq in Hans.
  - by injection Hans as _ <-.
  - destruct c; cbn [serve] in Hans; repeat case_match; by simplify_eq.
Qed.

Lemma list_folders_answer e p s pl s' :
  answer (ListFolders e p) s = (inr pl, s') ->
  folder_name <$> listed_folders (inr pl) = children (loc e p) s /\ same_data s s'.
Proof.
  intros Hans. destruct (answer_cases (ListFolders e p) s)
    as [(e' & rest & _ & Heq)|(rest & Heq)]; rewrite Heq in Hans; [done|].
  cbn [serve] in Hans. injection Hans as <- <-. split; [|done].
  cbn [listed_folders]. rewrite <- list_fmap_compose.
  change (children (loc e p) (with_faults rest s)) with (children (loc e p) s).
  by rewrite list_fmap_id.
Qed.

Lemma create_folder_answer e n p s pl s' :
  answer (CreateFolder e n p) s = (inr pl, s') ->
  folders s' = folders s ++ [(loc e p, n)]
  /\ secrets s' = secrets s /\ imports s' = imports s.
Proof.
  intros Hans. destruct (answer_cases (CreateFolder e n p) s)
    as [(e' & rest & _ & Heq)|(rest & Heq)]; rewrite Heq in Hans; [done|].
  cbn [serve] in Hans. case_bool_decide; [done|]. by injection Hans as <- <-.
Qed.

Lemma list_secrets_answer e p s pl s' :
  answer (ListSecrets e p) s = (inr pl, s') ->
  listed_secrets (inr pl)
  = (fun kv => mk_secret kv.1 (Some kv.2)) <$> secrets_at (loc e p) s
  /\ same_data s s'.
Proof.
  intros Hans. destruct (answer_cases (ListSecrets e p) s)
    as [(e' & rest & _ & Heq)|(rest & Heq)]; rewrite Heq in Hans; [done|].
  cbn [serve] in Hans. by injection Hans as <- <-.
Qed.

Lemma write_secret_answer (c : call) e k v p s pl s' :
  c = CreateSecret e k v p \/ c = UpdateSecret e k v p ->
  answer c s = (inr pl, s') ->
  secrets s' = dict_set (loc e p) (dict_set k v (secrets_at (loc e p) s)) (secrets s)
  /\ folders s' = folders s /\ imports s' = imports s.
Proof.
  intros Hc Hans. destruct (answer_cases c s)
    as [(e' & rest & _ & Heq)|(rest & Heq)]; rewrite Heq in Hans; [done|].
  destruct Hc as [-> | ->]; cbn [serve] in Hans;
    destruct (dict_mem k _); try done; by injection Hans as <- <-.
Qed.

Lemma secrets_at_set l l0 d s s' :
  secrets s' = dict_set l0 d (secrets s) ->
  secrets_at l s' = if decide (l0 = l) then d else secrets_at l s.
Proof.
  unfold secrets_at. intros ->. destruct (decide (l0 = l)) as [->|Hne].
  - by rewrite dict_get_set_eq.
  - by rewrite dict_get_set_ne.
Qed.

Lemma secrets_at_same l s s' : secrets s' = secrets s -> secrets_at l s' = secrets_at l s.
Proof. unfold secrets_at. by intros ->. Qed.

Lemma children_same l s s' : folders s' = folders s -> children l s' = children l s.
Proof. unfold children. by intros ->. Qed.

Lemma children_mono l n s s' :
  (forall x, x ∈ folders s -> x ∈ folders s') -> n ∈ children l s -> n ∈ children l s'.
Proof.
  unfold children. intros Hsub Hin.
  apply list_elem_of_fmap in Hin as ([l' n'] & -> & Hin).
  apply list_elem_of_In, List.filter_In in Hin as [Hin Hl].
  apply list_elem_of_fmap. exists (l', n'). split; [done|].
  apply list_elem_of_In, List.filter_In. split; [|done].
  apply list_elem_of_In, Hsub, list_elem_of_In, Hin.
Qed.

Lemma wf_secrets_at l s : wf s -> NoDup (dict_keys (secrets_at l s)).
Proof.
  unfold wf, secrets_at. intros Hwf.
  destruct (dict_get l (secrets s)) as [d|] eqn:Hget; [|apply NoDup_nil_2].
  apply dict_get_Some_elem in Hget. rewrite Forall_forall in Hwf.
  apply (Hwf (l, d) Hget).
Qed.

Lemma wf_same s s' : secrets s' = secrets s -> wf s -> wf s'.
Proof. unfold wf. by intros ->. Qed.

Lemma wf_set l d s s' :
  secrets s' = dict_set l d (secrets s) -> NoDup (dict_keys d) -> wf s -> wf s'.
Proof.
  unfold wf. intros -> Hd Hwf. rewrite Forall_forall in *.
  intros x [->|Hin]%elem_of_dict_set; [done | by apply Hwf].
Qed.

(** One step of [ensure_folder_path], on any store. *)
Lemma ensure_folder_step_run {W : Type} `{RemoteStore W} env cp part (w : W) :
  ensure_folder_step env cp part w
  = let listing := respond (ListFolders env cp) w in
    match listing.1 with
    | inl e => (inl e, listing.2, [(ListFolders env cp, listing.1)])
    | inr _ =>
        if bool_decide (part ∈ folder_name <$> listed_folders listing.1)
        then (inr (cp +:+ part +:+ "/"), listing.2, [(ListFolders env cp, listing.1)])
        else
          let creation := respond (CreateFolder env part cp) listing.2 in
          (on_success creation.1 (cp +:+ part +:+ "/"), creation.2,
           [(ListFolders env cp, listing.1); (CreateFolder env part cp, creation.1)])
    end.
Proof.
  unfold ensure_folder_step. unfold mbind at 1, M_bind at 1, bind at 1.
  rewrite list_folders_run. cbn zeta.
  destruct (respond (ListFolders env cp) w) as [[e|pl] w1];
    cbn [fst snd on_success]; [done|].
  case_bool_decide; [done|].
  unfold create_folder. unfold_monad.
  by destruct (respond (CreateFolder env part cp) w1) as [[e|pl'] w2].
Qed.

Lemma ready_mono env s s' step :
  (forall x, x ∈ folders s -> x ∈ folders s') -> ready env s step -> ready env s' step.
Proof. unfold ready. intros Hsub. by apply children_mono. Qed.

Lemma ensure_folder_loop_mem env parts cp (s : store) r s' t :
  fold_m (ensure_folder_step env) parts cp s = (r, s', t) ->
  secrets s' = secrets s /\ imports s' = imports s
  /\ (forall x, x ∈ folders s -> x ∈ folders s')
  /\ ((exists v, r = inr v) -> Forall (ready env s') (path_steps cp parts))
  /\ (Forall (ready env s) (path_steps cp parts) ->
      folders s' = folders s /\ List.filter mutating t.*1 = []).
Proof.
  revert cp s r s' t. induction parts as [|part parts IH]; intros cp s r s' t;
    cbn [fold_m path_steps].
  - intros [= <- <- <-]. split_and!; first [done | by constructor].
  - unfold bind at 1. rewrite ensure_folder_step_run. cbn zeta.
    change (@respond store _) with answer.
    destruct (answer (ListFolders env cp) s) as [[e|pl] s1] eqn:Hl; cbn [fst snd].
    { intros [= <- <- <-]. destruct (answer_failure _ _ _ _ Hl) as (Hf & Hs & Hi).
      split_and!; [done | done | by rewrite Hf | by intros [v ?] | done]. }
    destruct (list_folders_answer _ _ _ _ _ Hl) as (Hnames & Hf1 & Hs1 & Hi1).
    rewrite Hnames. case_bool_decide as Hin.
    + destruct (fold_m (ensure_folder_step env) parts (cp +:+ part +:+ "/") s1)
        as [[r2 s2] t2] eqn:Hrest.
      destruct (IH _ _ _ _ _ Hrest) as (Hs2 & Hi2 & Hsub2 & Hok2 & Hno2).
      intros [= <- <- <-]. split_and!.
      * congruence.
      * congruence.
      * intros x Hx. apply Hsub2. by rewrite Hf1.
      * intros Hv. constructor; [|by apply Hok2].
        apply (ready_mono env s1); [done|]. unfold ready. cbn [fst snd].
        by rewrite (children_same _ _ _ Hf1).
      * intros Hall. apply Forall_cons in Hall as [_ Hall].
        destruct Hno2 as [Hf2 Hm2].
        { eapply Forall_impl; [exact Hall|]. intros st Hst. unfold ready in *.
          by rewrite (children_same _ _ _ Hf1). }
        split; [congruence|]. done.
    + destruct (answer (CreateFolder env part cp) s1) as [[e|pl'] s1'] eqn:Hc;
        cbn [fst snd on_success].
      { intros [= <- <- <-]. destruct (answer_failure _ _ _ _ Hc) as (Hf & Hs & Hi).
        split_and!; [congruence | congruence | | by intros [v ?] |].
        - intros x Hx. rewrite Hf, Hf1. done.
        - intros Hall. apply Forall_cons in Hall as [Hr _]. done. }
      destruct (create_folder_answer _ _ _ _ _ _ Hc) as (Hf1' & Hs1' & Hi1').
      destruct (fold_m (ensure_folder_step env) parts (cp +:+ part +:+ "/") s1')
        as [[r2 s2] t2] eqn:Hrest.
      destruct (IH _ _ _ _ _ Hrest) as (Hs2 & Hi2 & Hsub2 & Hok2 & Hno2).
      intros [= <- <- <-]. split_and!.
      * congruence.
      * congruence.
      * intros x Hx. apply Hsub2. rewrite Hf1', elem_of_app. left. by rewrite Hf1.
      * intros Hv. constructor; [|by apply Hok2].
        apply (ready_mono env s1'); [done|]. unfold ready, children. cbn [fst snd].
        rewrite Hf1', List.filter_app, fmap_app, elem_of_app. right.
        cbn [List.filter fst]. rewrite bool_decide_true by done.
        apply elem_of_cons. by left.
      * intros Hall. apply Forall_cons in Hall as [Hr _]. done.
Qed.

Lemma ensure_folder_path_mem env fp (s : store) r s' t :
  ensure_folder_path env fp s = (r, s', t) ->
  secrets s' = secrets s /\ imports s' = imports s
  /\ (forall x, x ∈ folders s -> x ∈ folders s')
  /\ ((exists v, r = inr v) -> folders_ready env fp s')
  /\ (folders_ready env fp s -> same_data s s' /\ List.filter mutating t.*1 = []).
Proof.
  unfold ensure_folder_path, folders_ready, folder_steps.
  destruct (bool_decide (fp = "/") || negb (Py.nonempty fp)).
  - intros [= <- <- <-]. split_and!; first [done | by constructor].
  - unfold mbind at 1, M_bind at 1, bind at 1.
    destruct (fold_m (ensure_folder_step env) _ "/" s) as [[r1 s1] t1] eqn:Hloop.
    destruct (ensure_folder_loop_mem _ _ _ _ _ _ _ Hloop) as (Hs & Hi & Hsub & Hok & Hno).
    destruct r1 as [e|v]; intros [= <- <- <-].
    + split_and!; [done | done | done | by intros [v ?] |].
      intros Hall. destruct (Hno Hall) as [Hf Hm]. done.
    + split_and!; [done | done | done | intros _; apply Hok; by eexists |].
      intros Hall. destruct (Hno Hall) as [Hf Hm].
      split; [done|]. by rewrite app_nil_r.
Qed.

(** The loop of [set_secrets_from_env] sends nothing in preview mode,
    and nothing either when every key is unchanged. *)
Lemma set_secrets_loop_quiet {W : Type} `{RemoteStore W} env p (dry_run : bool) current
      (desired : pydict string string) (st : stats) (w : W) :
  dry_run = true \/ Forall (fun kv => classify current kv = Unchanged) desired ->
  exists st',
    fold_m (set_secret_step env p dry_run current) desired st w = (inr st', w, [])
    /\ failed st' = failed st
    /\ (Forall (fun kv => classify current kv = Unchanged) desired ->
        created st' = created st /\ updated st' = updated st).
Proof.
  revert st. induction desired as [|kv desired IH]; intros st Hq; cbn [fold_m].
  - by exists st.
  - unfold bind at 1. rewrite set_secret_step_run.
    assert (Hq' : dry_run = true \/ Forall (fun kv => classify current kv = Unchanged) desired).
    { destruct Hq as [?|Hall]; [by left|]. right. by apply Forall_cons in Hall as [_ ?]. }
    destruct (classify current kv) eqn:Hc.
    + destruct Hq as [->|Hall]; [|apply Forall_cons in Hall as [? _]; congruence].
      destruct (IH (count_created st) Hq') as (st' & -> & Hf & Hcu).
      exists st'. split_and!; [done | done |].
      intros Hall. apply Forall_cons in Hall as [? _]. congruence.
    + destruct Hq as [->|Hall]; [|apply Forall_cons in Hall as [? _]; congruence].
      destruct (IH (count_updated st) Hq') as (st' & -> & Hf & Hcu).
      exists st'. split_and!; [done | done |].
      intros Hall. apply Forall_cons in Hall as [? _]. congruence.
    + destruct (IH (count_unchanged st) Hq') as (st' & -> & Hf & Hcu).
      exists st'. split_and!; [done | done |].
      intros Hall. apply Forall_cons in Hall as [_ Hall]. by apply Hcu.
Qed.

(** The loop in apply mode, on the in-memory store. *)
Lemma set_secrets_loop_mem env p current (desired : pydict string string) :
  NoDup (dict_keys desired) ->
  forall (st : stats) (s : store) r s' writes,
    wf s ->
    fold_m (set_secret_step env p false current) desired st s = (r, s', writes) ->
    (forall k v, (k, v) ∈ desired -> classify current (k, v) = Unchanged ->
                 dict_get k (secrets_at (loc env p) s) = Some v) ->
    exists st',
      r = inr st' /\ wf s' /\ folders s' = folders s /\ imports s' = imports s
      /\ (forall l, l ≠ loc env p -> secrets_at l s' = secrets_at l s)
      /\ (forall k, k ∉ dict_keys desired ->
                    dict_get k (secrets_at (loc env p) s')
                    = dict_get k (secrets_at (loc env p) s))
      /\ failed st <= failed st'
      /\ (failed st' = failed st ->
          forall k v, (k, v) ∈ desired ->
                      dict_get k (secrets_at (loc env p) s') = Some v).
Proof.
  induction desired as [|[k v] desired IH]; intros Hnd st s r s' writes Hwf;
    cbn [fold_m].
  - intros [= <- <- <-] _. exists st. split_and!; try done.
    intros _ k v Hin. by apply elem_of_nil in Hin.
  - change (NoDup (k :: dict_keys desired)) in Hnd.
    apply NoDup_cons in Hnd as [Hk Hnd].
    unfold bind at 1. rewrite set_secret_step_run.
    change (@respond store _) with answer. cbn [fst snd].
    intros Hrun Hunch.
    assert (Hstep : exists st1 s1 w1,
      (let '(rr, ss, ws) := fold_m (set_secret_step env p false current) desired st1 s1 in
       (rr, ss, w1 ++ ws)) = (r, s', writes)
      /\ wf s1 /\ folders s1 = folders s /\ imports s1 = imports s
      /\ (forall l, l ≠ loc env p -> secrets_at l s1 = secrets_at l s)
      /\ (forall k', k' ≠ k -> dict_get k' (secrets_at (loc env p) s1)
                                = dict_get k' (secrets_at (loc env p) s))
      /\ failed st <= failed st1
      /\ (failed st1 = failed st -> dict_get k (secrets_at (loc env p) s1) = Some v)).
    { destruct (classify current (k, v)) eqn:Hc.
      - destruct (answer (CreateSecret env k v p) s) as [[e|pl] s1] eqn:Ha.
        + exists (count_failed st), s1, [(CreateSecret env k v p, inl e)].
          destruct (answer_failure _ _ _ _ Ha) as (Hf & Hs & Hi).
          split_and!; [done | by apply (wf_same s) | done | done | | | simpl; lia
                       | simpl; lia].
          * intros l _. by apply secrets_at_same.
          * intros k' _. by rewrite (secrets_at_same _ _ _ Hs).
        + exists (count_created st), s1, [(CreateSecret env k v p, inr pl)].
          destruct (write_secret_answer _ env k v p _ _ _ (or_introl eq_refl) Ha)
            as (Hs & Hf & Hi).
          split_and!; [done | | done | done | | | simpl; lia |].
          * apply (wf_set _ _ _ _ Hs); [|done].
            apply NoDup_dict_keys_set. by apply wf_secrets_at.
          * intros l Hl. rewrite (secrets_at_set _ _ _ _ _ Hs). by rewrite decide_False.
          * intros k' Hk'. rewrite (secrets_at_set _ _ _ _ _ Hs), decide_True by done.
            by apply dict_get_set_ne.
          * intros _. rewrite (secrets_at_set _ _ _ _ _ Hs), decide_True by done.
            apply dict_get_set_eq.
      - destruct (answer (UpdateSecret env k v p) s) as [[e|pl] s1] eqn:Ha.
        + exists (count_failed st), s1, [(UpdateSecret env k v p, inl e)].
          destruct (answer_failure _ _ _ _ Ha) as (Hf & Hs & Hi).
          split_and!; [done | by apply (wf_same s) | done | done | | | simpl; lia
                       | simpl; lia].
          * intros l _. by apply secrets_at_same.
          * intros k' _. by rewrite (secrets_at_same _ _ _ Hs).
        + exists (count_updated st), s1, [(UpdateSecret env k v p, inr pl)].
          destruct (write_secret_answer _ env k v p _ _ _ (or_intror eq_refl) Ha)
            as (Hs & Hf & Hi).
          split_and!; [done | | done | done | | | simpl; lia |].
          * apply (wf_set _ _ _ _ Hs); [|done].
            apply NoDup_dict_keys_set. by apply wf_secrets_at.
          * intros l Hl. rewrite (secrets_at_set _ _ _ _ _ Hs). by rewrite decide_False.
          * intros k' Hk'. rewrite (secrets_at_set _ _ _ _ _ Hs), decide_True by done.
            by apply dict_get_set_ne.
          * intros _. rewrite (secrets_at_set _ _ _ _ _ Hs), decide_True by done.
            apply dict_get_set_eq.
      - exists (count_unchanged st), s, [].
        split_and!; [done | done | done | done | done | done | simpl; lia |].
        intros _. apply Hunch; [|done]. apply elem_of_cons. by left. }
    clear Hrun. destruct Hstep as (st1 & s1 & w1 & Hrun & Hwf1 & Hf1 & Hi1 & Hl1 & Hk1 & Hle1 & Hv1).
    destruct (fold_m (set_secret_step env p false current) desired st1 s1)
      as [[rr ss] ws] eqn:Hrest.
    injection Hrun as <- <- <-.
    destruct (IH Hnd st1 s1 rr ss ws Hwf1 Hrest) as (st' & -> & Hwf' & Hf' & Hi' & Hl' & Hk' & Hle' & Hv').
    { intros k' v' Hin Hc. rewrite Hk1.
      - apply Hunch; [|done]. apply elem_of_cons. by right.
      - intros ->. apply Hk. apply list_elem_of_fmap. by exists (k, v'). }
    exists st'. split_and!; [done | done | congruence | congruence | | | lia |].
    + intros l Hl. by rewrite Hl', Hl1.
    + intros k' Hnotin. change (k' ∉ k :: dict_keys desired) in Hnotin.
      apply not_elem_of_cons in Hnotin as [Hne Hnotin]. by rewrite Hk', Hk1.
    + intros Heq k' v' [[= -> ->]|Hin]%elem_of_cons.
      * rewrite Hk' by done. apply Hv1. lia.
      * apply Hv'; [lia | done].
Qed.

Lemma classify_unchanged_iff e p (s : store) (pl : payload) k v :
  wf s ->
  listed_secrets (inr pl)
  = (fun kv => mk_secret kv.1 (Some kv.2)) <$> secrets_at (loc e p) s ->
  classify (remote_current (inr pl)) (k, v) = Unchanged
  <-> dict_get k (secrets_at (loc e p) s) = Some v.
Proof.
  intros Hwf Hlisted. unfold classify, remote_current, dict_of_list. cbn [fst snd].
  rewrite Hlisted, remote_current_get by (by apply wf_secrets_at).
  destruct (dict_get k (secrets_at (loc e p) s)) as [v'|]; cbn [dict_get secretValue].
  - case_bool_decide; naive_solver.
  - done.
Qed.

Lemma parse_env_file_NoDup lines : NoDup (dict_keys (SyncToInfisical.parse_env_file lines)).
Proof. apply (fold_dict_set_NoDup SyncToInfisical.parse_line). apply NoDup_nil_2. Qed.

Lemma set_secrets_from_env_mem env lines p (dry_run : bool) (s : store) r s' t :
  wf s ->
  set_secrets_from_env env lines p dry_run s = (r, s', t) ->
  wf s' /\ folders s' = folders s /\ imports s' = imports s
  /\ (forall l, l ≠ loc env p -> secrets_at l s' = secrets_at l s)
  /\ (dry_run = false -> forall st, r = inr st -> failed st = 0 ->
      forall k v, dict_get k (SyncToInfisical.parse_env_file lines) = Some v ->
                  dict_get k (secrets_at (loc env p) s') = Some v)
  /\ ((forall k v, dict_get k (SyncToInfisical.parse_env_file lines) = Some v ->
                   dict_get k (secrets_at (loc env p) s) = Some v) ->
      same_data s s' /\ List.filter mutating t.*1 = []
      /\ forall st, r = inr st -> created st = 0 /\ updated st = 0 /\ failed st = 0).
Proof.
  intros Hwf. unfold set_secrets_from_env.
  pose proof (parse_env_file_NoDup lines) as Hnd.
  set (desired := SyncToInfisical.parse_env_file lines) in *.
  destruct desired as [|kv0 desired0] eqn:Hd.
  { intros [= <- <- <-]. split_and!; try done.
    intros _. split_and!; try done. by intros st [= <-]. }
  rewrite <- Hd in *. clear Hd kv0 desired0.
  unfold mbind at 1, M_bind at 1, bind at 1. rewrite list_secrets_run.
  change (@respond store _) with answer.
  destruct (answer (ListSecrets env p) s) as [[e|pl] s0] eqn:Hl; cbn [fst snd on_success].
  { intros [= <- <- <-]. destruct (answer_failure _ _ _ _ Hl) as (Hf & Hs & Hi).
    split_and!; [by apply (wf_same s) | done | done | | done |].
    - intros l _. by apply secrets_at_same.
    - intros _. split; [done|]. split; [done|]. done. }
  destruct (list_secrets_answer _ _ _ _ _ Hl) as (Hlisted & Hf0 & Hs0 & Hi0).
  assert (Hwf0 : wf s0) by (by apply (wf_same s)).
  assert (Hlisted0 : listed_secrets (inr pl)
            = (fun kv => mk_secret kv.1 (Some kv.2)) <$> secrets_at (loc env p) s0)
    by (by rewrite (secrets_at_same _ _ _ Hs0)).
  fold (remote_current (inr pl)). set (current := remote_current (inr pl)).
  assert (Hquiet : (forall k v, dict_get k desired = Some v ->
                                dict_get k (secrets_at (loc env p) s) = Some v) ->
                   Forall (fun kv => classify current kv = Unchanged) desired).
  { intros Hset. apply Forall_forall. intros [k v] Hin.
    apply (classify_unchanged_iff env p s0 pl k v Hwf0 Hlisted0).
    rewrite (secrets_at_same _ _ _ Hs0). apply Hset. by apply elem_dict_get. }
  destruct dry_run.
  - destruct (set_secrets_loop_quiet env p true current desired no_stats s0 (or_introl eq_refl))
      as (st' & Hrun & Hfa & Hcu).
    rewrite Hrun. intros [= <- <- <-].
    split_and!; [done | done | done | | done |].
    + intros l _. by apply secrets_at_same.
    + intros Hset. split; [done|]. split; [done|].
      intros st [= <-]. destruct (Hcu (Hquiet Hset)) as [-> ->]. by rewrite Hfa.
  - destruct (fold_m (set_secret_step env p false current) desired no_stats s0)
      as [[r1 s1] writes] eqn:Hloop.
    intros [= <- <- <-].
    destruct (set_secrets_loop_mem env p current desired Hnd no_stats s0 r1 s1 writes
                Hwf0 Hloop) as (st' & -> & Hwf1 & Hf1 & Hi1 & Hl1 & Hk1 & Hle1 & Hv1).
    { intros k v Hin Hc.
      by apply (classify_unchanged_iff env p s0 pl k v Hwf0 Hlisted0). }
    split_and!; [done | congruence | congruence | | |].
    + intros l Hne. rewrite Hl1 by done. by apply secrets_at_same.
    + intros _ st [= <-] Hfailed k v Hget. apply Hv1; [done|].
      by apply dict_get_Some_elem.
    + intros Hset.
      destruct (set_secrets_loop_quiet env p false current desired no_stats s0
                  (or_intror (Hquiet Hset))) as (st'' & Hrun & Hfa & Hcu).
      rewrite Hrun in Hloop. injection Hloop as <- <- <-.
      split; [done|]. split; [done|].
      intros st [= <-]. destruct (Hcu (Hquiet Hset)) as [-> ->]. by rewrite Hfa.
Qed.

Lemma imports_at_mono l edge s s' :
  (forall x, x ∈ imports s -> x ∈ imports s') ->
  edge ∈ imports_at l s -> edge ∈ imports_at l s'.
Proof.
  unfold imports_at. intros Hsub Hin.
  apply list_elem_of_fmap in Hin as ([l' n'] & -> & Hin).
  apply list_elem_of_In, List.filter_In in Hin as [Hin Hl].
  apply list_elem_of_fmap. exists (l', n'). split; [done|].
  apply list_elem_of_In, List.filter_In. split; [|done].
  apply list_elem_of_In, Hsub, list_elem_of_In, Hin.
Qed.

Lemma import_service_env_mem f e p (dry_run : bool) (s : store) r s' t :
  wf s ->
  import_service_env f e p dry_run s = (r, s', t) ->
  wf s' /\ (forall x, x ∈ folders s -> x ∈ folders s') /\ imports s' = imports s
  /\ (forall l, l ≠ loc e p -> secrets_at l s' = secrets_at l s)
  /\ (dry_run = false -> forall st, r = inr st -> failed st = 0 ->
      settled (SyncFile f e p) s')
  /\ (settled (SyncFile f e p) s ->
      same_data s s' /\ List.filter mutating t.*1 = []
      /\ forall st, r = inr st -> created st = 0 /\ updated st = 0 /\ failed st = 0).
Proof.
  intros Hwf. unfold import_service_env.
  unfold mbind at 1, M_bind at 1, bind at 1.
  destruct (ensure_folder_path e p s) as [[r1 s1] t1] eqn:Hens.
  destruct (ensure_folder_path_mem _ _ _ _ _ _ Hens) as (Hs1 & Hi1 & Hsub1 & Hok1 & Hno1).
  assert (Hwf1 : wf s1) by (by apply (wf_same s)).
  destruct r1 as [e1|[]].
  { intros [= <- <- <-]. split_and!; [done | done | done | | done |].
    - intros l _. by apply secrets_at_same.
    - intros [Hready _]. destruct (Hno1 Hready) as [Hsame Hmut]. done. }
  assert (Hready1 : folders_ready e p s1) by (apply Hok1; by eexists).
  destruct f as [name lines|name entries]; cbn [set_secrets_from_entry].
  - destruct (set_secrets_from_env e lines p dry_run s1) as [[r2 s2] t2] eqn:Hset.
    destruct (set_secrets_from_env_mem _ _ _ _ _ _ _ _ Hwf1 Hset)
      as (Hwf2 & Hf2 & Hi2 & Hl2 & Hok2 & Hno2).
    intros [= <- <- <-]. split_and!.
    + done.
    + intros x Hx. rewrite Hf2. by apply Hsub1.
    + congruence.
    + intros l Hl. rewrite Hl2 by done. by apply secrets_at_same.
    + intros Hdry st -> Hfailed. split.
      * unfold folders_ready in *. eapply Forall_impl; [exact Hready1|].
        intros step Hstep. unfold ready in *. by rewrite (children_same _ _ _ Hf2).
      * cbn [secrets_settled]. by apply (Hok2 Hdry st).
    + intros [Hready Hsec]. destruct (Hno1 Hready) as [Hsame1 Hmut1].
      destruct Hno2 as (Hsame2 & Hmut2 & Hst2).
      { intros k v Hget. rewrite (secrets_at_same _ _ _ Hs1). by apply Hsec. }
      split; [by apply (same_data_trans _ s1)|]. split; [|done].
      by rewrite fmap_app, List.filter_app, Hmut1, Hmut2.
  - unfold raise. intros [= <- <- <-]. split_and!; [done | done | done | | done |].
    + intros l _. by apply secrets_at_same.
    + intros [Hready _]. destruct (Hno1 Hready) as [Hsame Hmut].
      split; [done|]. split; [|done]. by rewrite app_nil_r.
Qed.

Lemma setup_service_import_mem e p (dry_run : bool) (s : store) r s' t :
  setup_service_import e p dry_run s = (r, s', t) ->
  folders s' = folders s /\ secrets s' = secrets s
  /\ (forall x, x ∈ imports s -> x ∈ imports s')
  /\ (dry_run = false -> forall b, r = inr b -> settled (LinkImport e p) s')
  /\ (settled (LinkImport e p) s ->
      same_data s s' /\ List.filter mutating t.*1 = [] /\ forall b, r = inr b -> b = false).
Proof.
  unfold setup_service_import, settled. destruct dry_run.
  - unfold mbind at 1, M_bind at 1, bind at 1. rewrite list_secret_imports_run.
    change (@respond store _) with answer.
    destruct (answer (ListSecretImports e p) s) as [[e1|pl] s1] eqn:Hl;
      cbn [fst snd on_success]; unfold ret; intros [= <- <- <-].
    + destruct (answer_failure _ _ _ _ Hl) as (Hf & Hs & Hi).
      split_and!; [done | done | by rewrite Hi | done |]. intros _. done.
    + destruct (list_imports_answer _ _ _ _ _ Hl) as (Hlist & Hi & Hf & Hs).
      split_and!; [done | done | by rewrite Hi | done |].
      intros Hedge. split; [done|]. split; [done|].
      intros b [= <-]. change (match pl with SecretImports l => l | _ => [] end)
        with (listed_imports (inr pl)).
      rewrite Hlist, existsb_import_matches. by rewrite bool_decide_true.
  - rewrite ensure_secret_import_run. cbn zeta. change (@respond store _) with answer.
    destruct (answer (ListSecretImports e p) s) as [[e1|pl] s1] eqn:Hl; cbn [fst snd].
    { intros [= <- <- <-]. destruct (answer_failure _ _ _ _ Hl) as (Hf & Hs & Hi).
      split_and!; [done | done | by rewrite Hi | done |]. intros _. done. }
    destruct (list_imports_answer _ _ _ _ _ Hl) as (Hlist & Hi & Hf & Hs).
    rewrite Hlist, existsb_import_matches. case_bool_decide as Hedge.
    { intros [= <- <- <-]. split_and!; [done | done | by rewrite Hi | |].
      - intros _ b _. by rewrite (imports_at_eq _ _ _ Hi).
      - intros _. split; [done|]. split; [done|]. by intros b [= <-]. }
    destruct (answer (CreateSecretImport e p "common" p) s1) as [[e2|pl2] s2] eqn:Hc;
      cbn [fst snd on_success]; intros [= <- <- <-].
    + destruct (answer_failure _ _ _ _ Hc) as (Hf2 & Hs2 & Hi2).
      split_and!; [congruence | congruence | by rewrite Hi2, Hi | done | done].
    + destruct (create_import_answer _ _ _ _ _ _ _ Hc) as (_ & Hi2 & Hf2 & Hs2).
      split_and!; [congruence | congruence | | | done].
      * intros x Hx. rewrite Hi2, elem_of_app. left. by rewrite Hi.
      * intros _ b _. by apply (imports_at_snoc _ _ s1).
Qed.

Lemma run_action_mem (dry_run : bool) (tot : totals) (a : action) (s : store) r s' t :
  wf s ->
  run_action dry_run tot a s = (r, s', t) ->
  wf s' /\ (forall x, x ∈ folders s -> x ∈ folders s')
  /\ (forall x, x ∈ imports s -> x ∈ imports s')
  /\ (forall l, elsewhere a l -> secrets_at l s' = secrets_at l s)
  /\ (forall tot', r = inr tot' -> failed (files tot) <= failed (files tot'))
  /\ (dry_run = false -> forall tot', r = inr tot' ->
      failed (files tot') = failed (files tot) -> settled a s')
  /\ (settled a s ->
      same_data s s' /\ List.filter mutating t.*1 = []
      /\ forall tot', r = inr tot' ->
            created (files tot') = created (files tot)
            /\ updated (files tot') = updated (files tot)
            /\ failed (files tot') = failed (files tot)
            /\ imports_created (links tot') = imports_created (links tot)).
Proof.
  intros Hwf. destruct a as [f e p|e p|ex]; cbn [run_action elsewhere].
  - unfold mbind at 1, M_bind at 1, bind at 1.
    destruct (import_service_env f e p dry_run s) as [[r1 s1] t1] eqn:Hrun.
    destruct (import_service_env_mem _ _ _ _ _ _ _ _ Hwf Hrun)
      as (Hwf1 & Hsub & Hi & Hl & Hok & Hno).
    destruct r1 as [e1|st]; unfold ret; intros [= <- <- <-].
    + split_and!; [done | done | by rewrite Hi | done | done | done |].
      intros Hset. destruct (Hno Hset) as (? & ? & _). done.
    + split_and!; [done | done | by rewrite Hi | done | | |].
      * intros tot' [= <-]. simpl. lia.
      * intros Hdry tot' [= <-] Hfailed. apply (Hok Hdry st eq_refl).
        simpl in Hfailed. lia.
      * intros Hset. destruct (Hno Hset) as (Hsame & Hmut & Hst).
        split; [done|]. split; [by rewrite app_nil_r|].
        intros tot' [= <-]. destruct (Hst st eq_refl) as (Hc & Hu & Hfa).
        simpl. split_and!; [lia | lia | lia | done].
  - unfold mbind at 1, M_bind at 1, bind at 1.
    destruct (setup_service_import e p dry_run s) as [[r1 s1] t1] eqn:Hrun.
    destruct (setup_service_import_mem _ _ _ _ _ _ _ Hrun) as (Hf & Hs & Hsub & Hok & Hno).
    assert (Hwf1 : wf s1) by (by apply (wf_same s)).
    destruct r1 as [e1|b]; unfold ret; intros [= <- <- <-].
    + split_and!; [done | by rewrite Hf | done | | done | done |].
      * intros l _. by apply secrets_at_same.
      * intros Hset. destruct (Hno Hset) as (? & ? & _). done.
    + split_and!; [done | by rewrite Hf | done | | | |].
      * intros l _. by apply secrets_at_same.
      * by intros tot' [= <-].
      * intros Hdry tot' _ _. by apply (Hok Hdry b).
      * intros Hset. destruct (Hno Hset) as (Hsame & Hmut & Hb).
        split; [done|]. split; [by rewrite app_nil_r|].
        intros tot' [= <-]. rewrite (Hb b eq_refl). done.
  - unfold raise. intros [= <- <- <-]. split_and!; done.
Qed.

Lemma settled_preserved (b : action) (s s' : store) :
  settled b s ->
  (forall x, x ∈ folders s -> x ∈ folders s') ->
  (forall x, x ∈ imports s -> x ∈ imports s') ->
  (forall f e p, b = SyncFile f e p -> secrets_at (loc e p) s' = secrets_at (loc e p) s) ->
  settled b s'.
Proof.
  intros Hb Hf Hi Hs. destruct b as [f e p|e p|ex]; cbn [settled] in *; [|by eapply imports_at_mono|done].
  destruct Hb as [Hready Hsec]. split.
  - unfold folders_ready in *. eapply Forall_impl; [exact Hready|].
    intros step Hstep. by eapply children_mono.
  - destruct f as [name lines|]; [|done]. cbn [secrets_settled] in *.
    intros k v Hget. rewrite (Hs _ _ _ eq_refl). by apply Hsec.
Qed.

Lemma same_data_settled (b : action) (s s' : store) :
  same_data s s' -> settled b s -> settled b s'.
Proof.
  intros (Hf & Hs & Hi) Hb. apply (settled_preserved b s); [done | | |].
  - intros x. by rewrite Hf.
  - intros x. by rewrite Hi.
  - intros f e p _. by apply secrets_at_same.
Qed.

(** Running a list of actions: what it leaves alone. *)
Lemma run_actions_frame (dry_run : bool) (l : list action) (tot : totals) (s : store)
      r s' t :
  wf s ->
  run_actions dry_run l tot s = (r, s', t) ->
  wf s' /\ (forall x, x ∈ folders s -> x ∈ folders s')
  /\ (forall x, x ∈ imports s -> x ∈ imports s')
  /\ (forall loc0, loc0 ∉ sync_locations l -> secrets_at loc0 s' = secrets_at loc0 s)
  /\ (forall tot', r = inr tot' -> failed (files tot) <= failed (files tot')).
Proof.
  unfold run_actions. revert tot s r s' t.
  induction l as [|a l IH]; intros tot s r s' t Hwf; cbn [fold_m].
  - intros [= <- <- <-]. split_and!; try done. by intros tot' [= <-].
  - unfold bind at 1.
    destruct (run_action dry_run tot a s) as [[r1 s1] t1] eqn:Hrun.
    destruct (run_action_mem _ _ _ _ _ _ _ Hwf Hrun)
      as (Hwf1 & Hf1 & Hi1 & Hl1 & Hle1 & _ & _).
    assert (Hhead : forall loc0, loc0 ∉ sync_locations (a :: l) -> elsewhere a loc0).
    { intros loc0 Hnotin. destruct a as [f e p| |]; cbn [elsewhere]; [|done..].
      intros ->. apply Hnotin. unfold sync_locations. cbn [omap list_omap].
      apply elem_of_cons. by left. }
    assert (Htail : forall loc0, loc0 ∉ sync_locations (a :: l) -> loc0 ∉ sync_locations l).
    { intros loc0 Hnotin Hin. apply Hnotin. unfold sync_locations in *.
      cbn [omap list_omap]. destruct a; [apply elem_of_cons; by right | done | done]. }
    destruct r1 as [e1|tot1].
    + intros [= <- <- <-]. split_and!; [done | done | done | | done].
      intros loc0 Hnotin. by apply Hl1, Hhead.
    + destruct (fold_m (run_action dry_run) l tot1 s1) as [[r2 s2] t2] eqn:Hrest.
      destruct (IH _ _ _ _ _ Hwf1 Hrest) as (Hwf2 & Hf2 & Hi2 & Hl2 & Hle2).
      intros [= <- <- <-]. split_and!; [done | by auto | by auto | |].
      * intros loc0 Hnotin. rewrite Hl2 by (by apply Htail). by apply Hl1, Hhead.
      * intros tot' ->. specialize (Hle1 tot1 eq_refl). specialize (Hle2 tot' eq_refl). lia.
Qed.

(** A first run in apply mode that returns without a failed key leaves
    every action settled, when no two files go to the same location. *)
Lemma run_actions_settles (l : list action) (tot : totals) (s : store) tot' s' t :
  wf s -> NoDup (sync_locations l) ->
  run_actions false l tot s = (inr tot', s', t) ->
  failed (files tot') = failed (files tot) ->
  Forall (fun a => settled a s') l.
Proof.
  unfold run_actions. revert tot s tot' s' t.
  induction l as [|a l IH]; intros tot s tot' s' t Hwf Hnd; cbn [fold_m]; [by constructor|].
  unfold bind at 1.
  destruct (run_action false tot a s) as [[r1 s1] t1] eqn:Hrun.
  destruct (run_action_mem _ _ _ _ _ _ _ Hwf Hrun)
    as (Hwf1 & Hf1 & Hi1 & Hl1 & Hle1 & Hok1 & _).
  destruct r1 as [e1|tot1]; [done|].
  destruct (fold_m (run_action false) l tot1 s1) as [[r2 s2] t2] eqn:Hrest.
  intros [= -> <- <-] Hfailed.
  destruct (run_actions_frame _ _ _ _ _ _ _ Hwf1 Hrest) as (Hwf2 & Hf2 & Hi2 & Hl2 & Hle2).
  specialize (Hle1 tot1 eq_refl). specialize (Hle2 tot' eq_refl).
  assert (Hnd' : NoDup (sync_locations l)).
  { unfold sync_locations in *. cbn [omap list_omap] in Hnd.
    destruct a; [by apply NoDup_cons in Hnd as [_ ?] | done | done]. }
  constructor.
  - apply (settled_preserved a s1); [|done|done|].
    + apply (Hok1 eq_refl tot1 eq_refl). lia.
    + intros f e p ->. apply Hl2. unfold sync_locations in Hnd.
      cbn [omap list_omap] in Hnd. by apply NoDup_cons in Hnd as [? _].
  - apply (IH tot1 s1 tot' s2 t2 Hwf1 Hnd' Hrest). lia.
Qed.

(** A run from a store in which every action is settled sends no write
    and counts nothing created, updated or failed. *)
Lemma run_actions_quiet (dry_run : bool) (l : list action) (tot : totals) (s : store)
      r s' t :
  wf s -> Forall (fun a => settled a s) l ->
  run_actions dry_run l tot s = (r, s', t) ->
  same_data s s' /\ List.filter mutating t.*1 = []
  /\ forall tot', r = inr tot' ->
        created (files tot') = created (files tot)
        /\ updated (files tot') = updated (files tot)
        /\ failed (files tot') = failed (files tot)
        /\ imports_created (links tot') = imports_created (links tot).
Proof.
  unfold run_actions. revert tot s r s' t.
  induction l as [|a l IH]; intros tot s r s' t Hwf Hall; cbn [fold_m].
  - intros [= <- <- <-]. split; [done|]. split; [done|]. by intros tot' [= <-].
  - apply Forall_cons in Hall as [Ha Hall]. unfold bind at 1.
    destruct (run_action dry_run tot a s) as [[r1 s1] t1] eqn:Hrun.
    destruct (run_action_mem _ _ _ _ _ _ _ Hwf Hrun)
      as (Hwf1 & _ & _ & _ & _ & _ & Hno1).
    destruct (Hno1 Ha) as (Hsame1 & Hmut1 & Hst1).
    destruct r1 as [e1|tot1].
    + intros [= <- <- <-]. done.
    + destruct (fold_m (run_action dry_run) l tot1 s1) as [[r2 s2] t2] eqn:Hrest.
      assert (Hall1 : Forall (fun b => settled b s1) l).
      { eapply Forall_impl; [exact Hall|]. intros b. by apply same_data_settled. }
      destruct (IH tot1 s1 r2 s2 t2 Hwf1 Hall1 Hrest) as (Hsame2 & Hmut2 & Hst2).
      intros [= <- <- <-]. split; [by apply (same_data_trans _ s1)|]. split.
      * by rewrite fmap_app, List.filter_app, Hmut1, Hmut2.
      * intros tot' ->. destruct (Hst1 tot1 eq_refl) as (<- & <- & <- & <-).
        by apply Hst2.
Qed.

End SyncFacts.

(** ** The walkers run their actions *)

Lemma add_stats_no_stats_r (a : stats) : add_stats a no_stats = a.
Proof. destruct a. unfold add_stats. simpl. by rewrite !Nat.add_0_r. Qed.

Lemma add_stats_assoc (a b c : stats) :
  add_stats (add_stats a b) c = add_stats a (add_stats b c).
Proof. unfold add_stats. simpl. by rewrite !Nat.add_assoc. Qed.

Lemma add_files_no_stats (tot : totals) : add_files tot no_stats = tot.
Proof. destruct tot. unfold add_files. simpl. by rewrite add_stats_no_stats_r. Qed.

Lemma add_files_add_files (tot : totals) (a b : stats) :
  add_files (add_files tot a) b = add_files tot (add_stats a b).
Proof. unfold add_files. simpl. by rewrite add_stats_assoc. Qed.

Section MonadLaws.
Context {W : Type} `{RemoteStore W}.

Lemma bind_ret_l {A B} (a : A) (f : A -> M W B) (w : W) : bind (ret a) f w = f a w.
Proof. unfold bind, ret. by destruct (f a w) as [[r w'] t]. Qed.

Lemma bind_ret_r {A} (m : M W A) (w : W) : bind m ret w = m w.
Proof.
  unfold bind, ret. destruct (m w) as [[[e|a] w'] t]; [done|]. by rewrite app_nil_r.
Qed.

Lemma bind_raise {A B} (e : exn) (f : A -> M W B) (w : W) : bind (raise e) f w = raise e w.
Proof. done. Qed.

Lemma bind_assoc {A B C} (m : M W A) (f : A -> M W B) (g : B -> M W C) (w : W) :
  bind (bind m f) g w = bind m (fun a => bind (f a) g) w.
Proof.
  unfold bind. destruct (m w) as [[[e|a] w1] t1]; [done|].
  destruct (f a w1) as [[[e|b] w2] t2]; [done|].
  destruct (g b w2) as [[r w3] t3]. by rewrite (assoc_L (++)).
Qed.

Lemma bind_ext {A B} (m : M W A) (f g : A -> M W B) (w : W) :
  (forall a w', f a w' = g a w') -> bind m f w = bind m g w.
Proof.
  intros Hfg. unfold bind. destruct (m w) as [[[e|a] w1] t1]; [done|]. by rewrite Hfg.
Qed.

Lemma bind_cong_l {A B} (m m' : M W A) (f : A -> M W B) (w : W) :
  m w = m' w -> bind m f w = bind m' f w.
Proof. intros Hm. unfold bind. by rewrite Hm. Qed.

Lemma fold_m_app {A S} (body : S -> A -> M W S) (l1 l2 : list A) (s : S) (w : W) :
  fold_m body (l1 ++ l2) s w = bind (fold_m body l1 s) (fold_m body l2) w.
Proof.
  revert s w. induction l1 as [|x l1 IH]; intros s w; cbn [fold_m app].
  - by rewrite bind_ret_l.
  - rewrite bind_assoc. apply bind_ext. intros s' w'. apply IH.
Qed.

End MonadLaws.

Section Refinement.
Context {W : Type} `{RemoteStore W}.
Variable dry_run : bool.

Lemma runs_as_fold {S A} (proj : S -> stats) (body : S -> A -> M W S)
      (acts : A -> list action) (xs : list A) :
  (forall x, x ∈ xs -> forall (acc : S) (tot : totals) (w : W),
      bind (body acc x) (fun r => ret (add_files tot (proj r))) w
      = run_actions dry_run (acts x) (add_files tot (proj acc)) w) ->
  forall (acc : S) (tot : totals) (w : W),
    bind (fold_m body xs acc) (fun r => ret (add_files tot (proj r))) w
    = run_actions dry_run (flat_map acts xs) (add_files tot (proj acc)) w.
Proof.
  induction xs as [|x xs IH]; intros Hbody acc tot w; cbn [fold_m flat_map].
  - by rewrite bind_ret_l.
  - rewrite bind_assoc. unfold run_actions. rewrite fold_m_app.
    rewrite (bind_cong_l (fold_m (run_action dry_run) (acts x) (add_files tot (proj acc)))
               (bind (body acc x) (fun r => ret (add_files tot (proj r))))).
    2:{ symmetry. apply Hbody. apply elem_of_cons. by left. }
    rewrite bind_assoc. apply bind_ext. intros r w'. rewrite bind_ret_l.
    apply IH. intros x' Hx'. apply Hbody. apply elem_of_cons. by right.
Qed.

Lemma runs_as_sync f e p :
  runs_as dry_run id (import_service_env f e p dry_run) [SyncFile f e p].
Proof.
  intros tot w. unfold run_actions. cbn [fold_m run_action]. by rewrite bind_ret_r.
Qed.

Lemma flat_map_singleton {A B} (g : A -> B) (l : list A) :
  flat_map (fun x => [g x]) l = g <$> l.
Proof. induction l as [|x l IH]; [done|]. cbn [flat_map]. by rewrite IH. Qed.

Lemma import_env_files_recursive_runs_as base_dir environment base_path :
  runs_as dry_run id (import_env_files_recursive base_dir environment base_path dry_run)
          (shared_actions base_dir environment base_path).
Proof.
  revert base_path. induction base_dir as [name lines|name entries IH]
    using fs_entry_tree_ind; intros base_path tot w.
  - cbn [import_env_files_recursive shared_actions]. unfold run_actions.
    cbn [fold_m run_action]. by rewrite !bind_raise.
  - cbn [import_env_files_recursive shared_actions].
    unfold run_actions. rewrite fold_m_app.
    unfold mbind at 1, M_bind at 1. rewrite bind_assoc.
    rewrite <- flat_map_singleton.
    rewrite (bind_cong_l
               (fold_m (run_action dry_run)
                  (flat_map (fun env_file =>
                               [SyncFile env_file environment
                                  (shared_target_path base_path
                                     (stem (entry_name env_file)))])
                            (glob_env entries)) tot)
               (bind (fold_m
                        (fun total_stats env_file =>
                           stats ← import_service_env env_file environment
                                     (shared_target_path base_path
                                        (stem (entry_name env_file))) dry_run;
                           ret (add_stats total_stats stats))
                        (glob_env entries) no_stats)
                     (fun r => ret (add_files tot (id r))))).
    2:{ symmetry.
        pose proof (runs_as_fold id
          (fun total_stats env_file =>
             stats ← import_service_env env_file environment
                       (shared_target_path base_path (stem (entry_name env_file)))
                       dry_run;
             ret (add_stats total_stats stats))
          (fun env_file => [SyncFile env_file environment
                              (shared_target_path base_path
                                 (stem (entry_name env_file)))])
          (glob_env entries)) as Hfiles.
        unfold id in Hfiles at 3. specialize (fun Hb => Hfiles Hb no_stats tot w).
        rewrite add_files_no_stats in Hfiles. apply Hfiles.
        intros env_file Hin acc tot' w'.
        unfold mbind, M_bind. rewrite bind_assoc.
        erewrite bind_ext; [|intros; by rewrite bind_ret_l].
        rewrite <- (runs_as_sync _ _ _ (add_files tot' (id acc)) w').
        apply bind_ext. intros st w3. unfold id. by rewrite add_files_add_files. }
    rewrite bind_assoc. apply bind_ext. intros total w'. rewrite bind_ret_l.
    apply (runs_as_fold id). intros subdir Hin acc tot' w''.
    destruct subdir as [n l|n es].
    + unfold run_actions. cbn [fold_m]. by rewrite bind_ret_l.
    + rewrite Forall_forall in IH. unfold mbind, M_bind. rewrite bind_assoc.
      erewrite bind_ext; [|intros; by rewrite bind_ret_l].
      rewrite <- (IH _ Hin _ (add_files tot' (id acc)) w'').
      apply bind_ext. intros sub w3. unfold id. by rewrite add_files_add_files.
Qed.

Lemma continues_then {S T U} (p1 : S -> stats) (p2 : T -> stats) (p3 : U -> stats)
      (k1 : S -> M W T) (l1 : list action) (k2 : T -> M W U) (l2 : list action) :
  continues dry_run p1 p2 k1 l1 -> continues dry_run p2 p3 k2 l2 ->
  continues dry_run p1 p3 (fun acc => bind (k1 acc) k2) (l1 ++ l2).
Proof.
  intros H1 H2 acc tot w. rewrite bind_assoc. unfold run_actions. rewrite fold_m_app.
  rewrite (bind_cong_l (fold_m (run_action dry_run) l1 (add_files tot (p1 acc)))
             (bind (k1 acc) (fun r => ret (add_files tot (p2 r))))).
  2:{ symmetry. apply H1. }
  rewrite bind_assoc. apply bind_ext. intros r w'. rewrite bind_ret_l. apply H2.
Qed.

Lemma runs_as_then {S T} (p1 : S -> stats) (p2 : T -> stats)
      (m1 : M W S) (l1 : list action) (k : S -> M W T) (l2 : list action) :
  runs_as dry_run p1 m1 l1 -> continues dry_run p1 p2 k l2 -> runs_as dry_run p2 (bind m1 k) (l1 ++ l2).
Proof.
  intros H1 H2 tot w. rewrite bind_assoc. unfold run_actions. rewrite fold_m_app.
  rewrite (bind_cong_l (fold_m (run_action dry_run) l1 tot)
             (bind m1 (fun r => ret (add_files tot (p1 r))))).
  2:{ symmetry. apply H1. }
  rewrite bind_assoc. apply bind_ext. intros r w'. rewrite bind_ret_l. apply H2.
Qed.

Lemma continues_ret {S T} (p_in : S -> stats) (p_out : T -> stats) (g : S -> T) :
  (forall acc, p_out (g acc) = p_in acc) -> continues dry_run p_in p_out (fun acc => ret (g acc)) [].
Proof.
  intros Hg acc tot w. rewrite bind_ret_l, Hg. reflexivity.
Qed.

Lemma continues_of_runs_as {S T R} (p_in : S -> stats) (p_out : T -> stats)
      (p : R -> stats) (m : M W R) (l : list action) (comb : S -> R -> T) :
  runs_as dry_run p m l ->
  (forall acc r, p_out (comb acc r) = add_stats (p_in acc) (p r)) ->
  continues dry_run p_in p_out (fun acc => bind m (fun r => ret (comb acc r))) l.
Proof.
  intros Hm Hcomb acc tot w. rewrite bind_assoc.
  erewrite bind_ext; [|intros; by rewrite bind_ret_l, Hcomb, <- add_files_add_files].
  apply Hm.
Qed.

Lemma continues_fold {S A} (proj : S -> stats) (body : S -> A -> M W S)
      (acts : A -> list action) (xs : list A) :
  (forall x, x ∈ xs -> continues dry_run proj proj (fun acc => body acc x) (acts x)) ->
  continues dry_run proj proj (fold_m body xs) (flat_map acts xs).
Proof.
  intros Hbody acc tot w. apply runs_as_fold. intros x Hx. apply (Hbody x Hx).
Qed.

Lemma runs_as_start {S T} (p_in : S -> stats) (p_out : T -> stats)
      (k : S -> M W T) (l : list action) (acc : S) :
  continues dry_run p_in p_out k l -> p_in acc = no_stats -> runs_as dry_run p_out (k acc) l.
Proof.
  intros Hk Hacc tot w. rewrite Hk, Hacc, add_files_no_stats. reflexivity.
Qed.

Lemma continues_import_if_exists o e p :
  continues dry_run id id (import_if_exists o e p dry_run) (sync_if_exists o e p).
Proof.
  destruct o as [f|]; cbn [import_if_exists sync_if_exists].
  - apply (continues_of_runs_as id id id (import_service_env f e p dry_run)
             [SyncFile f e p] (fun total st => add_stats total st)); [|done].
    apply runs_as_sync.
  - by apply (continues_ret id id id).
Qed.

Lemma step2_runs_as v2 :
  runs_as dry_run id (step2_import_shared_secrets v2 dry_run) (step2_actions v2).
Proof.
  unfold step2_import_shared_secrets, step2_actions.
  apply (runs_as_start id id _ _ no_stats); [|done].
  apply continues_fold. intros env_slug _.
  destruct (shared_env_dir v2 env_slug) as [env_dir|].
  - apply (continues_of_runs_as id id id _ _ (fun total st => add_stats total st)); [|done].
    apply import_env_files_recursive_runs_as.
  - by apply (continues_ret id id id).
Qed.

Lemma import_service_dir_runs_as service_dir base_path :
  runs_as dry_run snd (import_service_dir service_dir base_path dry_run)
          (service_actions service_dir base_path).
Proof.
  revert base_path. induction service_dir as [name lines|name entries IH]
    using fs_entry_tree_ind; intros base_path.
  - intros tot w. cbn [import_service_dir service_actions]. unfold run_actions.
    cbn [fold_m run_action]. by rewrite !bind_raise.
  - cbn [import_service_dir service_actions]. cbn zeta. unfold mbind, M_bind.
    rewrite 2!(assoc_L (++)).
    rewrite <- (assoc_L (++) (sync_if_exists _ "common" base_path)).
    apply (runs_as_then snd snd).
    + destruct (is_some (lookup_entry "common.env" entries)
                || is_some (lookup_entry "prod.env" entries)
                || is_some (lookup_entry "staging.env" entries)) eqn:Hany.
      * apply (runs_as_then id snd).
        { apply (runs_as_start id id _ _ no_stats); [|done].
          apply continues_import_if_exists. }
        apply (continues_then id id snd); [apply continues_import_if_exists|].
        rewrite <- (app_nil_r (sync_if_exists _ "staging" base_path)).
        apply (continues_then id id snd); [apply continues_import_if_exists|].
        by apply (continues_ret id snd).
      * destruct (lookup_entry "common.env" entries); [done|].
        destruct (lookup_entry "prod.env" entries); [done|].
        destruct (lookup_entry "staging.env" entries); [done|].
        intros tot w. cbn [sync_if_exists app]. rewrite bind_ret_l.
        cbn [snd]. by rewrite add_files_no_stats.
    + apply continues_fold. intros subdir Hin.
      destruct subdir as [n l|n es]; [by apply (continues_ret snd snd id)|].
      destruct (negb (Py.startswith "." n)); [|by apply (continues_ret snd snd id)].
      rewrite Forall_forall in IH.
      apply (continues_of_runs_as snd snd snd _ _
               (fun acc sub => (acc.1 ++ sub.1, add_stats acc.2 sub.2))); [|done].
      apply (IH _ Hin).
Qed.

Lemma step3_runs_as v2 :
  runs_as dry_run snd (step3_import_services v2 dry_run) (step3_actions v2).
Proof.
  unfold step3_import_services, step3_actions.
  destruct (lookup_entry "services" v2) as [[n l|n service_dirs]|].
  - intros tot w. unfold run_actions. cbn [fold_m run_action]. by rewrite !bind_raise.
  - apply (runs_as_start snd snd _ _ ([], no_stats)); [|done].
    apply continues_fold. intros service_dir _.
    destruct service_dir as [n0 l0|service_name es];
      [by apply (continues_ret snd snd id)|].
    apply (continues_of_runs_as snd snd snd _ _
             (fun acc sub => (acc.1 ++ sub.1, add_stats acc.2 sub.2))); [|done].
    apply import_service_dir_runs_as.
  - intros tot w. unfold run_actions. cbn [fold_m run_action]. by rewrite !bind_raise.
Qed.

Lemma bind_inr_inv {A B} (m : M W A) (f : A -> M W B) (w : W) b w' t :
  bind m f w = (inr b, w', t) ->
  exists a w1 t1 t2, m w = (inr a, w1, t1) /\ f a w1 = (inr b, w', t2) /\ t = t1 ++ t2.
Proof.
  unfold bind. destruct (m w) as [[[e|a] w1] t1]; [done|].
  destruct (f a w1) as [[r w2] t2] eqn:Hf. intros [= -> <- <-]. by exists a, w1, t1, t2.
Qed.

Lemma bind_ext_result {A B} (m : M W A) (f g : A -> M W B) (w : W) :
  (forall a w' t, m w = (inr a, w', t) -> f a w' = g a w') -> bind m f w = bind m g w.
Proof.
  intros Hfg. unfold bind. destruct (m w) as [[[e|a] w1] t1]; [done|].
  by rewrite (Hfg a w1 t1).
Qed.

Lemma setup_service_imports_step_runs (svc : service) (st : import_stats)
      (tot : totals) (w : W) :
  bind (setup_service_imports_step dry_run st svc)
       (fun ls => ret (mk_totals (files tot) ls)) w
  = run_actions dry_run (service_links svc) (mk_totals (files tot) st) w.
Proof.
  unfold setup_service_imports_step, service_links, run_actions, mbind, M_bind.
  destruct (has_common svc), (has_prod svc), (has_staging svc);
    cbn [app fold_m run_action]; unfold mbind, M_bind;
    repeat first [rewrite bind_assoc | rewrite bind_ret_l
                 | apply bind_ext; intros ? ?]; reflexivity.
Qed.

Lemma step4_runs (services : list service) (st : import_stats) (tot : totals) (w : W) :
  bind (fold_m (setup_service_imports_step dry_run) services st)
       (fun ls => ret (mk_totals (files tot) ls)) w
  = run_actions dry_run (step4_actions services) (mk_totals (files tot) st) w.
Proof.
  revert st w. induction services as [|svc services IH]; intros st w;
    cbn [fold_m step4_actions flat_map].
  - by rewrite bind_ret_l.
  - rewrite bind_assoc. unfold run_actions. rewrite fold_m_app.
    rewrite (bind_cong_l (fold_m (run_action dry_run) (service_links svc)
                                 (mk_totals (files tot) st))
               (bind (setup_service_imports_step dry_run st svc)
                     (fun ls => ret (mk_totals (files tot) ls)))).
    2:{ symmetry. apply setup_service_imports_step_runs. }
    rewrite bind_assoc. apply bind_ext. intros st1 w'. rewrite bind_ret_l. apply IH.
Qed.

Lemma fold_services_value (body : list service * stats -> fs_entry -> M W (list service * stats))
      (svcs : fs_entry -> list service) (entries : list fs_entry) :
  (forall x, x ∈ entries -> forall acc w r w' t,
      body acc x w = (inr r, w', t) -> r.1 = acc.1 ++ svcs x) ->
  forall acc w r w' t,
    fold_m body entries acc w = (inr r, w', t) -> r.1 = acc.1 ++ flat_map svcs entries.
Proof.
  induction entries as [|x entries IH]; intros Hbody acc w r w' t; cbn [fold_m flat_map].
  - intros [= <- <- <-]. by rewrite app_nil_r.
  - intros (a & w1 & t1 & t2 & Hx & Hrest & _)%bind_inr_inv.
    apply Hbody in Hx; [|apply elem_of_cons; by left].
    apply IH in Hrest; [|intros x' Hx'; apply Hbody; apply elem_of_cons; by right].
    by rewrite Hrest, Hx, (assoc_L (++)).
Qed.

Lemma import_service_dir_services service_dir base_path (w : W) r w' t :
  import_service_dir service_dir base_path dry_run w = (inr r, w', t) ->
  r.1 = services_of service_dir base_path.
Proof.
  revert base_path w r w' t. induction service_dir as [name lines|name entries IH]
    using fs_entry_tree_ind; intros base_path w r w' t; [done|].
  cbn [import_service_dir services_of]. cbn zeta. unfold mbind at 1, M_bind at 1.
  intros (here & w1 & t1 & t2 & Hhere & Hrest & _)%bind_inr_inv.
  assert (Hh : here.1
          = if is_some (lookup_entry "common.env" entries)
               || is_some (lookup_entry "prod.env" entries)
               || is_some (lookup_entry "staging.env" entries)
            then [mk_service base_path (is_some (lookup_entry "common.env" entries))
                             (is_some (lookup_entry "prod.env" entries))
                             (is_some (lookup_entry "staging.env" entries))]
            else []).
  { destruct (is_some (lookup_entry "common.env" entries)
              || is_some (lookup_entry "prod.env" entries)
              || is_some (lookup_entry "staging.env" entries)).
    - unfold mbind, M_bind in Hhere.
      apply bind_inr_inv in Hhere as (s1 & wa & ta & ta' & _ & Hhere & _).
      apply bind_inr_inv in Hhere as (s2 & wb & tb & tb' & _ & Hhere & _).
      apply bind_inr_inv in Hhere as (s3 & wc & tc & tc' & _ & Hhere & _).
      unfold ret in Hhere. by injection Hhere as <- _ _.
    - unfold ret in Hhere. by injection Hhere as <- _ _. }
  rewrite <- Hh. revert Hrest. apply fold_services_value.
  intros subdir Hin acc w0 r0 w0' t0. rewrite Forall_forall in IH.
  destruct subdir as [n l|n es].
  - unfold ret. intros [= <- _ _]. by rewrite app_nil_r.
  - destruct (negb (Py.startswith "." n)).
    + unfold mbind, M_bind. intros (sub & wa & ta & ta' & Hsub & Hret & _)%bind_inr_inv.
      apply (IH _ Hin) in Hsub. unfold ret in Hret. injection Hret as <- _ _.
      cbn [fst]. by rewrite Hsub.
    + unfold ret. intros [= <- _ _]. by rewrite app_nil_r.
Qed.

Lemma step3_services_value v2 (w : W) r w' t :
  step3_import_services v2 dry_run w = (inr r, w', t) -> r.1 = step3_services v2.
Proof.
  unfold step3_import_services, step3_services.
  destruct (lookup_entry "services" v2) as [[n l|n service_dirs]|]; [done| |done].
  intros Hrun. change (r.1 = ([], no_stats).1 ++ flat_map
    (fun service_dir => match service_dir with
                        | Dir service_name _ =>
                            services_of service_dir ("/services/" +:+ service_name)
                        | File _ _ => []
                        end) service_dirs).
  revert Hrun. apply fold_services_value.
  intros service_dir Hin acc w0 r0 w0' t0. destruct service_dir as [n0 l0|sn es].
  - unfold ret. intros [= <- _ _]. by rewrite app_nil_r.
  - unfold mbind, M_bind. intros (sub & wa & ta & ta' & Hsub & Hret & _)%bind_inr_inv.
    apply import_service_dir_services in Hsub. unfold ret in Hret.
    injection Hret as <- _ _. cbn [fst]. by rewrite Hsub.
Qed.

(** The staged sync does what its list of actions does: same requests,
    same final store, and the totals of the list are the sums of the
    totals of the stages. *)
Lemma full_sync_runs_actions v2 (w : W) :
  bind (full_sync v2 dry_run)
       (fun r => ret (mk_totals (add_stats r.1.1 r.1.2) r.2)) w
  = run_actions dry_run (full_actions v2) no_totals w.
Proof.
  unfold full_sync, full_actions, mbind, M_bind.
  rewrite bind_assoc. unfold run_actions. rewrite fold_m_app.
  rewrite (bind_cong_l (fold_m (run_action dry_run) (step2_actions v2) no_totals)
             (bind (step2_import_shared_secrets v2 dry_run)
                   (fun r => ret (add_files no_totals (id r))))).
  2:{ symmetry. apply step2_runs_as. }
  rewrite bind_assoc. apply bind_ext. intros shared w1. rewrite bind_ret_l.
  rewrite bind_assoc, fold_m_app.
  rewrite (bind_cong_l (fold_m (run_action dry_run) (step3_actions v2)
                               (add_files no_totals (id shared)))
             (bind (step3_import_services v2 dry_run)
                   (fun r => ret (add_files (add_files no_totals (id shared)) r.2)))).
  2:{ symmetry. apply step3_runs_as. }
  rewrite bind_assoc. apply bind_ext_result. intros services w2 t2 Hs3.
  rewrite bind_ret_l, bind_assoc. rewrite (step3_services_value _ _ _ _ _ Hs3).
  erewrite bind_ext; [|intros; by rewrite bind_ret_l].
  cbn [fst snd].
  pose proof (step4_runs (step3_services v2) (mk_import_stats 0 0)
                (add_files (add_files no_totals (id shared)) services.2) w2) as H4.
  unfold run_actions in H4. unfold step4_setup_service_imports.
  etransitivity; [|exact H4].
  apply bind_ext. intros ls w3. unfold add_files, no_totals, id. cbn [files links].
  do 2 f_equal.
Qed.

End Refinement.
(** ** A settled store answers the sync without a write and without an
       exception *)

Module ReturnFacts.
Import MemStore Settled SyncFacts.

Lemma answer_no_faults c s : faults s = [] -> answer c s = serve c s.
Proof. unfold answer. by intros ->. Qed.

Lemma ensure_folder_loop_returns env parts cp (s : store) :
  faults s = [] -> Forall (ready env s) (path_steps cp parts) ->
  exists v t, fold_m (ensure_folder_step env) parts cp s = (inr v, s, t).
Proof.
  intros Hnf. revert cp. induction parts as [|part parts IH]; intros cp Hall;
    cbn [fold_m path_steps] in *.
  - by exists cp, [].
  - apply Forall_cons in Hall as [Hr Hall]. destruct (IH _ Hall) as (v & t & Hrest).
    unfold bind at 1. rewrite ensure_folder_step_run. cbn zeta.
    change (@respond store _) with answer.
    pose proof (answer_no_faults (ListFolders env cp) s Hnf) as Hl. cbn [serve] in Hl.
    destruct (list_folders_answer _ _ _ _ _ Hl) as (Hnames & _).
    rewrite Hl. cbn [fst snd]. rewrite Hnames, bool_decide_true by exact Hr.
    rewrite Hrest. by eexists _, _.
Qed.

Lemma ensure_folder_path_returns env fp (s : store) :
  faults s = [] -> folders_ready env fp s ->
  exists t, ensure_folder_path env fp s = (inr tt, s, t).
Proof.
  unfold ensure_folder_path, folders_ready, folder_steps. intros Hnf.
  destruct (bool_decide (fp = "/") || negb (Py.nonempty fp)).
  - intros _. by exists [].
  - intros Hall. destruct (ensure_folder_loop_returns _ _ _ _ Hnf Hall) as (v & t & Hrun).
    unfold mbind at 1, M_bind at 1, bind at 1. rewrite Hrun. by eexists.
Qed.

Lemma set_secrets_from_env_returns env lines p (dry_run : bool) (s : store) :
  wf s -> faults s = [] ->
  (forall k v, dict_get k (SyncToInfisical.parse_env_file lines) = Some v ->
               dict_get k (secrets_at (loc env p) s) = Some v) ->
  exists st t, set_secrets_from_env env lines p dry_run s = (inr st, s, t).
Proof.
  intros Hwf Hnf Hset. unfold set_secrets_from_env.
  set (desired := SyncToInfisical.parse_env_file lines) in *.
  destruct desired as [|kv0 desired0] eqn:Hd; [by exists no_stats, []|].
  rewrite <- Hd in *. clear Hd kv0 desired0.
  unfold mbind at 1, M_bind at 1, bind at 1. rewrite list_secrets_run.
  change (@respond store _) with answer.
  pose proof (answer_no_faults (ListSecrets env p) s Hnf) as Hl. cbn [serve] in Hl.
  destruct (list_secrets_answer _ _ _ _ _ Hl) as (Hlisted & _).
  rewrite Hl. cbn [fst snd on_success].
  match goal with
  | |- context [fold_m (set_secret_step env p dry_run ?c) desired no_stats s] =>
      destruct (set_secrets_loop_quiet env p dry_run c desired no_stats s)
        as (st' & Hrun & _)
  end.
  { right. apply Forall_forall. intros [k v] Hin.
    apply (classify_unchanged_iff env p s _ k v Hwf Hlisted).
    apply Hset. by apply elem_dict_get; [apply parse_env_file_NoDup|]. }
  rewrite Hrun. by eexists _, _.
Qed.

Lemma run_action_returns (dry_run : bool) (tot : totals) (a : action) (s : store) :
  wf s -> faults s = [] -> runnable a -> settled a s ->
  exists tot' t, run_action dry_run tot a s = (inr tot', s, t).
Proof.
  intros Hwf Hnf Hrunnable Hset. destruct a as [[name lines|name entries] e p|e p|ex];
    cbn [runnable] in Hrunnable; try done; cbn [run_action settled] in *.
  - destruct Hset as [Hready Hsec].
    destruct (ensure_folder_path_returns _ _ _ Hnf Hready) as (t1 & Hens).
    destruct (set_secrets_from_env_returns e lines p dry_run s Hwf Hnf Hsec)
      as (st & t2 & Hsecs).
    unfold import_service_env. cbn [set_secrets_from_entry].
    unfold mbind, M_bind, bind, ret. rewrite Hens, Hsecs. by eexists _, _.
  - unfold setup_service_import.
    pose proof (answer_no_faults (ListSecretImports e p) s Hnf) as Hl. cbn [serve] in Hl.
    destruct (MemStoreFacts.list_imports_answer _ _ _ _ _ Hl) as (Hlist & _).
    destruct dry_run.
    + unfold mbind at 1 2, M_bind at 1 2, bind at 1 2. rewrite list_secret_imports_run.
      change (@respond store _) with answer. rewrite Hl. cbn [fst snd on_success].
      unfold ret. by eexists _, _.
    + unfold mbind at 1, M_bind at 1, bind at 1. rewrite ensure_secret_import_run.
      cbn zeta. change (@respond store _) with answer. rewrite Hl. cbn [fst snd].
      rewrite Hlist, MemStoreFacts.existsb_import_matches, bool_decide_true by exact Hset.
      unfold ret. by eexists _, _.
Qed.

(** On a settled store with no failing request left, the actions return
    and leave the store as it is. *)
Lemma run_actions_returns (dry_run : bool) (l : list action) (tot : totals) (s : store) :
  wf s -> faults s = [] -> Forall runnable l -> Forall (fun a => settled a s) l ->
  exists tot' t, run_actions dry_run l tot s = (inr tot', s, t).
Proof.
  intros Hwf Hnf. revert tot. unfold run_actions.
  induction l as [|a l IH]; intros tot Hrunnable Hset; cbn [fold_m].
  - by exists tot, [].
  - apply Forall_cons in Hrunnable as [Ha Hl]. apply Forall_cons in Hset as [Hsa Hsl].
    destruct (run_action_returns dry_run tot a s Hwf Hnf Ha Hsa) as (tot1 & t1 & Hrun1).
    destruct (IH tot1 Hl Hsl) as (tot2 & t2 & Hrun2).
    unfold bind. rewrite Hrun1, Hrun2. by eexists _, _.
Qed.

End ReturnFacts.

Section Runnable.
Context {W : Type} `{RemoteStore W}.

(** Actions that returned were runnable. *)
Lemma run_actions_runnable (dry_run : bool) (l : list action) (tot : totals) (w : W)
      tot' w' t :
  run_actions dry_run l tot w = (inr tot', w', t) -> Forall Settled.runnable l.
Proof.
  unfold run_actions. revert tot w t. induction l as [|a l IH]; intros tot w t;
    cbn [fold_m]; [by constructor|].
  intros (tot1 & w1 & t1 & t2 & Ha & Hl & _)%bind_inr_inv.
  constructor; [|by eapply IH].
  destruct a as [[name lines|name entries] e p|e p|ex]; cbn [Settled.runnable]; try done.
  cbn [run_action] in Ha. unfold import_service_env in Ha. cbn [set_secrets_from_entry] in Ha.
  unfold mbind, M_bind in Ha.
  apply bind_inr_inv in Ha as (st & wa & ta & tb & Ha & _).
  apply bind_inr_inv in Ha as (u & wb & tc & td & _ & Ha & _). done.
Qed.

End Runnable.
(** ** Running the full sync twice *)

Section BindValue.
Context {W : Type} `{RemoteStore W}.

Lemma bind_ret_value {A B} (m : M W A) (g : A -> B) (w : W) r w' t :
  m w = (r, w', t) ->
  bind m (fun a => ret (g a)) w
  = (match r with inl e => inl e | inr a => inr (g a) end, w', t).
Proof.
  intros Hm. unfold bind, ret. rewrite Hm. destruct r as [e|a]; [done|].
  by rewrite app_nil_r.
Qed.

End BindValue.

(** C4, as stated, fails: the first full sync meets a failing write, which
    it counts as failed and survives; the second full sync of the same
    local tree then creates the key. *)
Lemma second_full_sync_creates_after_failed_write :
  exists s1 t1 s2 t2,
    full_sync one_file_tree false failing_once
    = (inr (mk_stats 0 0 0 1, no_stats, mk_import_stats 0 0), s1, t1)
    /\ full_sync one_file_tree false s1
       = (inr (mk_stats 1 0 0 0, no_stats, mk_import_stats 0 0), s2, t2).
Proof. do 4 eexists. split; vm_compute; reflexivity. Qed.

(** C4, amended: on a remote store that holds each key of a location
    once, when no two local files go to the same (environment, path),
    and the first full sync returned with no failed key, a second run
    over the same local tree sends no mutating request, leaves the data
    of the store as it is, and, when it returns, reports no created, no
    updated and no failed key and no created import.  It does return
    when the store answers every request, that is when no failure is
    left in its schedule. *)
Theorem full_sync_twice_changes_nothing (v2 : list fs_entry) (dry_run : bool)
    (s s1 s2 : MemStore.store) (shared1 services1 : stats) (links1 : import_stats)
    (t1 t2 : list event) (r2 : exn + (stats * stats * import_stats)) :
  Settled.wf s ->
  NoDup (sync_locations (full_actions v2)) ->
  full_sync v2 false s = (inr (shared1, services1, links1), s1, t1) ->
  failed shared1 = 0 -> failed services1 = 0 ->
  full_sync v2 dry_run s1 = (r2, s2, t2) ->
  Settled.same_data s1 s2
  /\ List.filter mutating t2.*1 = []
  /\ (forall shared2 services2 links2,
       r2 = inr (shared2, services2, links2) ->
       created shared2 = 0 /\ updated shared2 = 0 /\ failed shared2 = 0
       /\ created services2 = 0 /\ updated services2 = 0 /\ failed services2 = 0
       /\ imports_created links2 = 0)
  /\ (MemStore.faults s1 = [] ->
      exists shared2 services2 links2, r2 = inr (shared2, services2, links2)).
Proof.
  intros Hwf Hnodup Hrun1 Hf1 Hf2 Hrun2.
  pose proof (full_sync_runs_actions false v2 s) as Hact1.
  rewrite (bind_ret_value _ _ _ _ _ _ Hrun1) in Hact1. symmetry in Hact1.
  pose proof (full_sync_runs_actions dry_run v2 s1) as Hact2.
  rewrite (bind_ret_value _ _ _ _ _ _ Hrun2) in Hact2. symmetry in Hact2.
  destruct (SyncFacts.run_actions_frame _ _ _ _ _ _ _ Hwf Hact1) as (Hwf1 & _).
  assert (Hsettled : Forall (fun a => Settled.settled a s1) (full_actions v2)).
  { apply (SyncFacts.run_actions_settles _ _ _ _ _ _ Hwf Hnodup Hact1).
    cbn [files no_totals fst snd]. unfold add_stats. cbn [failed no_stats]. lia. }
  destruct (SyncFacts.run_actions_quiet _ _ _ _ _ _ _ Hwf1 Hsettled Hact2)
    as (Hsame & Hquiet & Htot).
  split; [done|]. split; [done|]. split.
  - intros shared2 services2 links2 ->.
    destruct (Htot _ eq_refl) as (Hc & Hu & Hf & Hi).
    cbn [files links no_totals fst snd] in Hc, Hu, Hf, Hi.
    unfold add_stats in Hc, Hu, Hf. cbn [created updated failed no_stats] in Hc, Hu, Hf.
    cbn [imports_created] in Hi. repeat split; lia.
  - intros Hnf. pose proof (run_actions_runnable _ _ _ _ _ _ _ Hact1) as Hrunnable.
    destruct (ReturnFacts.run_actions_returns dry_run _ no_totals s1 Hwf1 Hnf
                Hrunnable Hsettled) as (tot2 & t2' & Hret).
    rewrite Hret in Hact2. destruct r2 as [e|[[shared2 services2] links2]]; [done|].
    by exists shared2, services2, links2.
Qed.

Lemma full_sync_twice_changes_nothing_witness :
  exists s1 t1 s2 t2,
    full_sync small_tree false MemStore.empty
    = (inr (mk_stats 1 0 0 0, mk_stats 3 0 0 0, mk_import_stats 1 0), s1, t1)
    /\ full_sync small_tree false s1
       = (inr (mk_stats 0 0 1 0, mk_stats 0 0 3 0, mk_import_stats 0 1), s2, t2)
    /\ Settled.same_data s1 s2
    /\ List.filter mutating t2.*1 = [].
Proof.
  destruct (full_sync small_tree false MemStore.empty) as [[r1 s1] t1] eqn:Hrun1.
  destruct (full_sync small_tree false s1) as [[r2 s2] t2] eqn:Hrun2.
  assert (Hr1 : r1 = inr (mk_stats 1 0 0 0, mk_stats 3 0 0 0, mk_import_stats 1 0)).
  { vm_compute in Hrun1. by injection Hrun1 as <- _ _. }
  subst r1.
  assert (Hwf : Settled.wf MemStore.empty) by constructor.
  assert (Hnodup : NoDup (sync_locations (full_actions small_tree))).
  { compute_done. }
  destruct (full_sync_twice_changes_nothing small_tree false MemStore.empty s1 s2
              _ _ _ t1 t2 r2 Hwf Hnodup Hrun1 eq_refl eq_refl Hrun2)
    as (Hsame & Hquiet & _ & _).
  exists s1, t1, s2, t2. split; [done|]. split; [|done].
  rewrite Hrun2. f_equal. f_equal. clear Hsame Hquiet.
  vm_compute in Hrun1. injection Hrun1 as <- <-. vm_compute in Hrun2.
  by injection Hrun2 as <- _ _.
Defined.
(** * Further properties of the scripts *)

(** ** What the env-file parsers return *)

Lemma lstrip_with_head (p : ascii -> bool) (s : string) c r :
  Py.lstrip_with p s = String c r -> p c = false.
Proof.
  induction s as [|c0 s IH]; simpl; [done|].
  destruct (p c0) eqn:Hc; [done|]. by intros [= <- <-].
Qed.

Lemma lstrip_with_id (p : ascii -> bool) c r : p c = false ->
  Py.lstrip_with p (String c r) = String c r.
Proof. simpl. by intros ->. Qed.

Lemma rstrip_with_idem (p : ascii -> bool) (s : string) :
  Py.rstrip_with p (Py.rstrip_with p s) = Py.rstrip_with p s.
Proof.
  induction s as [|c s IH]; simpl; [done|].
  destruct (Py.rstrip_with p s) as [|c' r] eqn:E.
  - destruct (p c) eqn:Hc; simpl; [done | by rewrite Hc].
  - simpl in *. by rewrite IH.
Qed.

Lemma rstrip_with_keeps_head (p : ascii -> bool) c r :
  p c = false -> exists r', Py.rstrip_with p (String c r) = String c r'.
Proof.
  intros Hc. simpl. destruct (Py.rstrip_with p r); [rewrite Hc|]; by eexists.
Qed.

Lemma strip_with_idem (p : ascii -> bool) (s : string) :
  Py.strip_with p (Py.strip_with p s) = Py.strip_with p s.
Proof.
  unfold Py.strip_with. destruct (Py.lstrip_with p s) as [|c r] eqn:E; [done|].
  pose proof (lstrip_with_head _ _ _ _ E) as Hc.
  destruct (rstrip_with_keeps_head p c r Hc) as [r' Hr]. rewrite Hr.
  rewrite lstrip_with_id by done. rewrite <- Hr. apply rstrip_with_idem.
Qed.

Lemma contains_lstrip_with (p : ascii -> bool) d (s : string) :
  Py.contains d s = false -> Py.contains d (Py.lstrip_with p s) = false.
Proof.
  induction s as [|c s IH]; simpl; [done|].
  intros [Hc Hs]%orb_false_elim. destruct (p c); [by apply IH|]. simpl. by rewrite Hc, Hs.
Qed.

Lemma contains_rstrip_with (p : ascii -> bool) d (s : string) :
  Py.contains d s = false -> Py.contains d (Py.rstrip_with p s) = false.
Proof.
  induction s as [|c s IH]; simpl; [done|].
  intros [Hc Hs]%orb_false_elim. specialize (IH Hs).
  destruct (Py.rstrip_with p s) as [|c' r].
  - destruct (p c); simpl; [done | by rewrite Hc].
  - simpl in *. by rewrite Hc, IH.
Qed.

Lemma contains_strip_with (p : ascii -> bool) d (s : string) :
  Py.contains d s = false -> Py.contains d (Py.strip_with p s) = false.
Proof. intros Hs. by apply contains_rstrip_with, contains_lstrip_with. Qed.

Lemma split1_fst_no_sep d (s : string) : Py.contains d (Py.split1 d s).1 = false.
Proof.
  induction s as [|c s IH]; simpl; [done|].
  destruct (Ascii.eqb c d) eqn:Hc; [done|].
  destruct (Py.split1 d s) as [a b]. simpl in *. by rewrite Hc, IH.
Qed.

Lemma split1_fst_head d c (s : string) :
  Ascii.eqb c d = false -> exists a, (Py.split1 d (String c s)).1 = String c a.
Proof. intros Hc. simpl. rewrite Hc. destruct (Py.split1 d s). by eexists. Qed.

Lemma startswith_hash (s : string) :
  Py.startswith "#" s = true <-> exists r, s = String "#"%char r.
Proof.
  destruct s as [|c r]; cbn [Py.startswith].
  - split; [done | by intros [? ?]].
  - rewrite andb_true_r. rewrite Ascii.eqb_eq. split.
    + intros <-. by eexists.
    + by intros [r' [= -> _]].
Qed.

(** What a binding read by the parser of [sync_to_infisical.py] looks
    like. *)
Lemma parse_line_clean (line key value : string) :
  SyncToInfisical.parse_line line = Some (key, value) ->
  key ≠ "" /\ Py.strip key = key /\ Py.contains "="%char key = false
  /\ Py.startswith "#" key = false /\ Py.strip value = value.
Proof.
  unfold SyncToInfisical.parse_line.
  destruct (negb (Py.nonempty (Py.strip line)) || Py.startswith "#" (Py.strip line))
    eqn:Hskip; [done|].
  apply orb_false_elim in Hskip as [Hne Hhash].
  destruct (Py.contains "="%char (Py.strip line)); [|done].
  pose proof (split1_fst_no_sep "="%char (Py.strip line)) as Hsep.
  destruct (Py.split1 "="%char (Py.strip line)) as [k v] eqn:Hsplit. cbn [fst] in Hsep.
  destruct (Py.nonempty (Py.strip k)) eqn:Hk; [|done].
  intros [= <- <-]. split_and!.
  - intros Hempty. by rewrite Hempty in Hk.
  - apply strip_with_idem.
  - by apply contains_strip_with.
  - (* the key starts with the first character of the stripped line *)
    unfold Py.strip, Py.strip_with in *.
    destruct (Py.lstrip_with Py.isspace line) as [|c0 r0] eqn:Hl; [done|].
    pose proof (lstrip_with_head _ _ _ _ Hl) as Hc0.
    destruct (rstrip_with_keeps_head Py.isspace c0 r0 Hc0) as [r1 Hr1].
    rewrite Hr1 in *.
    destruct (Ascii.eqb c0 "="%char) eqn:Heq.
    + simpl in Hsplit. rewrite Heq in Hsplit. by injection Hsplit as <- <-.
    + destruct (split1_fst_head "="%char c0 r1 Heq) as [a Ha].
      rewrite Hsplit in Ha. cbn [fst] in Ha. subst k.
      rewrite lstrip_with_id by done.
      destruct (rstrip_with_keeps_head Py.isspace c0 a Hc0) as [a' ->].
      simpl in Hhash |- *. by rewrite andb_true_r in *.
  - apply strip_with_idem.
Qed.

Lemma fold_dict_set_elem {A K V} `{EqDecision K} (bind_of : A -> option (K * V))
      (xs : list A) (d : pydict K V) (kv : K * V) :
  kv ∈ fold_left (fun acc y => match bind_of y with
                               | Some (k', v') => dict_set k' v' acc
                               | None => acc
                               end) xs d ->
  kv ∈ d \/ exists x, x ∈ xs /\ bind_of x = Some kv.
Proof.
  revert d. induction xs as [|x xs IH]; intros d; simpl; [by left|].
  intros [Hin|(y & Hy & Hb)]%IH.
  - destruct (bind_of x) as [[k' v']|] eqn:E; [|by left].
    assert (Hset : forall d0 : pydict K V, kv ∈ dict_set k' v' d0 -> kv = (k', v') \/ kv ∈ d0).
    { induction d0 as [|[k0 v0] d0 IHd]; simpl.
      - intros ->%list_elem_of_singleton. by left.
      - destruct (decide (k0 = k')) as [->|Hne]; rewrite !elem_of_cons; naive_solver. }
    destruct (Hset d Hin) as [->|?]; [|by left].
    right. exists x. split; [apply elem_of_cons; by left | done].
  - right. exists y. split; [apply elem_of_cons; by right | done].
Qed.

Lemma isascii_lstrip_with (p : ascii -> bool) (s : string) :
  isascii s = true -> isascii (Py.lstrip_with p s) = true.
Proof.
  induction s as [|c s IH]; cbn [isascii Py.lstrip_with]; [done|].
  intros [Hc Hs]%andb_prop. destruct (p c); [by apply IH|].
  cbn [isascii]. by rewrite Hc, Hs.
Qed.

Lemma isascii_rstrip_with (p : ascii -> bool) (s : string) :
  isascii s = true -> isascii (Py.rstrip_with p s) = true.
Proof.
  induction s as [|c s IH]; cbn [isascii Py.rstrip_with]; [done|].
  intros [Hc Hs]%andb_prop. specialize (IH Hs).
  destruct (Py.rstrip_with p s) as [|c' r].
  - destruct (p c); cbn [isascii]; [done | by rewrite Hc].
  - cbn [isascii] in IH |- *. by rewrite Hc, IH.
Qed.

Lemma isascii_strip (s : string) : isascii s = true -> isascii (Py.strip s) = true.
Proof. intros Hs. by apply isascii_rstrip_with, isascii_lstrip_with. Qed.

Lemma isascii_split1 d (s : string) :
  isascii s = true ->
  isascii (Py.split1 d s).1 = true /\ isascii (Py.split1 d s).2 = true.
Proof.
  induction s as [|c s IH]; cbn [isascii Py.split1]; [done|].
  intros [Hc Hs]%andb_prop. destruct (Ascii.eqb c d); [done|].
  destruct (IH Hs) as [Ha Hb]. destruct (Py.split1 d s) as [a b].
  cbn [fst snd isascii] in *. by rewrite Hc, Ha.
Qed.

Lemma parse_line_isascii (line key value : string) :
  isascii line = true ->
  SyncToInfisical.parse_line line = Some (key, value) ->
  isascii key = true /\ isascii value = true.
Proof.
  intros Hline%isascii_strip. unfold SyncToInfisical.parse_line.
  destruct (negb (Py.nonempty (Py.strip line)) || Py.startswith "#" (Py.strip line));
    [done|].
  destruct (Py.contains "="%char (Py.strip line)); [|done].
  destruct (isascii_split1 "="%char _ Hline) as [Hk Hv].
  destruct (Py.split1 "="%char (Py.strip line)) as [k v]. cbn [fst snd] in Hk, Hv.
  destruct (Py.nonempty (Py.strip k)); [|done].
  intros [= <- <-]. split; by apply isascii_strip.
Qed.

(** X1 (parse_env_file of sync_to_infisical.py): for a file whose lines
    are ASCII, where the white space of [Py.strip] is all the white
    space [str.strip()] removes, every binding of the parsed dictionary
    is ASCII and clean: the key is not empty, is its own strip (no white
    space at either end), contains no equals sign and does not start
    with a hash; the value is its own strip. *)
Theorem parse_env_file_bindings_clean (lines : list string) (key value : string) :
  Forall (fun line => isascii line = true) lines ->
  dict_get key (SyncToInfisical.parse_env_file lines) = Some value ->
  isascii key = true /\ isascii value = true
  /\ key ≠ "" /\ Py.strip key = key /\ Py.contains "="%char key = false
  /\ Py.startswith "#" key = false /\ Py.strip value = value.
Proof.
  intros Hascii Hget%dict_get_Some_elem.
  apply (fold_dict_set_elem SyncToInfisical.parse_line) in Hget
    as [Hin|(line & Hline & Hparse)]; [by apply elem_of_nil in Hin|].
  rewrite Forall_forall in Hascii.
  destruct (parse_line_isascii line key value (Hascii line Hline) Hparse) as [Hk Hv].
  split; [done|]. split; [done|]. by apply (parse_line_clean line).
Qed.

Lemma parse_env_file_bindings_clean_witness :
  isascii "DB_USER" = true /\ isascii "a=b  c" = true
  /\ "DB_USER" ≠ "" /\ Py.strip "DB_USER" = "DB_USER"
  /\ Py.contains "="%char "DB_USER" = false
  /\ Py.startswith "#" "DB_USER" = false /\ Py.strip "a=b  c" = "a=b  c".
Proof.
  apply (parse_env_file_bindings_clean
           ["# users"; ""; "  DB_USER = a=b  c  "; "=x"; "novalue"] "DB_USER" "a=b  c").
  - repeat constructor.
  - reflexivity.
Defined.

Lemma filter_dict_set {K V} `{EqDecision K} (keep : K -> bool) (k : K) (v : V)
      (d : pydict K V) :
  List.filter (fun kv => keep kv.1) (dict_set k v d)
  = if keep k then dict_set k v (List.filter (fun kv => keep kv.1) d)
    else List.filter (fun kv => keep kv.1) d.
Proof.
  induction d as [|[k0 v0] d IH]; simpl.
  - by destruct (keep k).
  - destruct (decide (k0 = k)) as [->|Hne]; simpl.
    + destruct (keep k); simpl; [by rewrite decide_True | done].
    + rewrite IH. destruct (keep k0) eqn:Hk0, (keep k) eqn:Hk; simpl;
        rewrite ?decide_False by done; done.
Qed.

Lemma parse_line_archive_v2 (line : string) :
  SyncToInfisical.parse_line line
  = match CompareWithArchiveV2.parse_line line with
    | Some (key, value) => if Py.nonempty key then Some (key, value) else None
    | None => None
    end.
Proof.
  unfold SyncToInfisical.parse_line, CompareWithArchiveV2.parse_line.
  destruct (negb (Py.nonempty (Py.strip line)) || Py.startswith "#" (Py.strip line)); [done|].
  destruct (Py.contains "="%char (Py.strip line)); [|done].
  by destruct (Py.split1 "="%char (Py.strip line)) as [k v].
Qed.

(** X2 (the three parse_env_file): the parsers of sync_to_infisical.py
    and compare_configs.py return the same dictionary; the parser of
    compare_with_archive_v2.py has no test on the key and returns that
    dictionary with, in addition, the binding of the empty key when a
    line such as [=value] binds it: without the empty key its result is
    the result of the other two, in the same order. *)
Theorem parsers_agree_up_to_empty_key (lines : list string) :
  CompareConfigs.parse_env_file lines = SyncToInfisical.parse_env_file lines
  /\ List.filter (fun kv => Py.nonempty kv.1) (CompareWithArchiveV2.parse_env_file lines)
     = SyncToInfisical.parse_env_file lines
  /\ (forall key, key ≠ "" ->
        dict_get key (CompareWithArchiveV2.parse_env_file lines)
        = dict_get key (SyncToInfisical.parse_env_file lines)).
Proof.
  assert (Hfilter :
    List.filter (fun kv => Py.nonempty kv.1) (CompareWithArchiveV2.parse_env_file lines)
    = SyncToInfisical.parse_env_file lines).
  { unfold CompareWithArchiveV2.parse_env_file, SyncToInfisical.parse_env_file.
    change (@nil (string * string)) with
      (List.filter (fun kv : string * string => Py.nonempty kv.1) []) at 2.
    generalize (@nil (string * string)). induction lines as [|line lines IH];
      intros d; simpl; [done|].
    rewrite IH. f_equal. unfold SyncToInfisical.parse_step.
    rewrite parse_line_archive_v2.
    destruct (CompareWithArchiveV2.parse_line line) as [[k v]|]; [|done].
    rewrite filter_dict_set. by destruct (Py.nonempty k). }
  split; [done|]. split; [done|].
  intros key Hkey. rewrite <- Hfilter.
  generalize (CompareWithArchiveV2.parse_env_file lines). intros d.
  induction d as [|[k v] d IH]; simpl; [done|].
  destruct (decide (k = key)) as [->|Hne].
  - destruct key; [done|]. simpl. by rewrite decide_True.
  - destruct (Py.nonempty k); simpl; [by rewrite decide_False|done].
Qed.
(** ** What the comparators report *)

Module ArchiveV2Buckets.
Import CompareWithArchiveV2.

(** The entries one visit of the loop adds. *)
Lemma compare_step_buckets expanded archive r key :
  let r' := compare_step expanded archive r key in
  (forall k, k ∈ matched r' <->
     k ∈ matched r
     \/ k = key /\ exists v, dict_get k expanded = Some v /\ dict_get k archive = Some v)
  /\ (forall k a e, (k, a, e) ∈ expected_diff r' <->
        (k, a, e) ∈ expected_diff r
        \/ k = key /\ dict_get k archive = Some a /\ dict_get k expanded = Some e
           /\ e ≠ a /\ k ∈ EXPECTED_DIFF_KEYS)
  /\ (forall k a e, (k, a, e) ∈ unexpected_diff r' <->
        (k, a, e) ∈ unexpected_diff r
        \/ k = key /\ dict_get k archive = Some a /\ dict_get k expanded = Some e
           /\ e ≠ a /\ (k ∉ EXPECTED_DIFF_KEYS))
  /\ (forall k e, (k, e) ∈ only_expanded r' <->
        (k, e) ∈ only_expanded r
        \/ k = key /\ dict_get k expanded = Some e /\ dict_get k archive = None)
  /\ (forall k a, (k, a) ∈ only_archive r' <->
        (k, a) ∈ only_archive r
        \/ k = key /\ a = default "" (dict_get k archive)
           /\ dict_get k expanded = None).
Proof.
  unfold compare_step.
  destruct (dict_get key expanded) as [e0|] eqn:He;
    destruct (dict_get key archive) as [a0|] eqn:Ha;
    repeat case_bool_decide;
    cbn [matched expected_diff unexpected_diff only_expanded only_archive];
    split_and!; intros;
    rewrite ?elem_of_app, ?list_elem_of_singleton; try (by naive_solver);
    (split; [intros [?|[= -> ->]]; [by left | right; by rewrite ?Ha, ?He]
            |intros [?|(-> & -> & ?)]; [by left | right; by rewrite ?Ha]]).
Qed.

Lemma compare_loop_buckets expanded archive all_keys r :
  let r' := fold_left (compare_step expanded archive) all_keys r in
  (forall k, k ∈ matched r' <->
     k ∈ matched r
     \/ k ∈ all_keys /\ exists v, dict_get k expanded = Some v /\ dict_get k archive = Some v)
  /\ (forall k a e, (k, a, e) ∈ expected_diff r' <->
        (k, a, e) ∈ expected_diff r
        \/ k ∈ all_keys /\ dict_get k archive = Some a /\ dict_get k expanded = Some e
           /\ e ≠ a /\ k ∈ EXPECTED_DIFF_KEYS)
  /\ (forall k a e, (k, a, e) ∈ unexpected_diff r' <->
        (k, a, e) ∈ unexpected_diff r
        \/ k ∈ all_keys /\ dict_get k archive = Some a /\ dict_get k expanded = Some e
           /\ e ≠ a /\ (k ∉ EXPECTED_DIFF_KEYS))
  /\ (forall k e, (k, e) ∈ only_expanded r' <->
        (k, e) ∈ only_expanded r
        \/ k ∈ all_keys /\ dict_get k expanded = Some e /\ dict_get k archive = None)
  /\ (forall k a, (k, a) ∈ only_archive r' <->
        (k, a) ∈ only_archive r
        \/ k ∈ all_keys /\ a = default "" (dict_get k archive)
           /\ dict_get k expanded = None).
Proof.
  revert r. induction all_keys as [|key keys IH]; intros r; cbn [fold_left].
  - split_and!; intros; rewrite elem_of_nil; tauto.
  - destruct (IH (compare_step expanded archive r key)) as (I1 & I2 & I3 & I4 & I5).
    destruct (compare_step_buckets expanded archive r key) as (S1 & S2 & S3 & S4 & S5).
    split_and!.
    + intros k. rewrite I1, S1, elem_of_cons. tauto.
    + intros k a e. rewrite I2, S2, elem_of_cons. tauto.
    + intros k a e. rewrite I3, S3, elem_of_cons. tauto.
    + intros k e. rewrite I4, S4, elem_of_cons. tauto.
    + intros k a. rewrite I5, S5, elem_of_cons. tauto.
Qed.

(** With the keys of both snapshots visited, each bucket holds what its
    name says. *)
Lemma compare_configs_in_order_buckets all_keys expanded archive :
  (forall k, k ∈ all_keys <-> k ∈ dict_keys expanded \/ k ∈ dict_keys archive) ->
  let r := compare_configs_in_order all_keys expanded archive in
  (forall k, k ∈ matched r <->
     exists v, dict_get k expanded = Some v /\ dict_get k archive = Some v)
  /\ (forall k a e, (k, a, e) ∈ expected_diff r <->
        dict_get k archive = Some a /\ dict_get k expanded = Some e
        /\ e ≠ a /\ k ∈ EXPECTED_DIFF_KEYS)
  /\ (forall k a e, (k, a, e) ∈ unexpected_diff r <->
        dict_get k archive = Some a /\ dict_get k expanded = Some e
        /\ e ≠ a /\ (k ∉ EXPECTED_DIFF_KEYS))
  /\ (forall k e, (k, e) ∈ only_expanded r <->
        dict_get k expanded = Some e /\ dict_get k archive = None)
  /\ (forall k a, (k, a) ∈ only_archive r <->
        dict_get k expanded = None /\ dict_get k archive = Some a).
Proof.
  intros Hall. unfold compare_configs_in_order.
  destruct (compare_loop_buckets expanded archive all_keys empty_result)
    as (L1 & L2 & L3 & L4 & L5).
  assert (Hexp : forall k v, dict_get k expanded = Some v -> k ∈ all_keys).
  { intros k v Hget. apply Hall. left. by apply (dict_get_Some_key _ v). }
  assert (Harc : forall k v, dict_get k archive = Some v -> k ∈ all_keys).
  { intros k v Hget. apply Hall. right. by apply (dict_get_Some_key _ v). }
  split_and!.
  - intros k. rewrite L1. cbn [matched empty_result]. rewrite elem_of_nil. naive_solver.
  - intros k a e. rewrite L2. cbn [expected_diff empty_result]. rewrite elem_of_nil.
    naive_solver.
  - intros k a e. rewrite L3. cbn [unexpected_diff empty_result]. rewrite elem_of_nil.
    naive_solver.
  - intros k e. rewrite L4. cbn [only_expanded empty_result]. rewrite elem_of_nil.
    naive_solver.
  - intros k a. rewrite L5. cbn [only_archive empty_result]. rewrite elem_of_nil. split.
    + intros [[]|(Hk & -> & Hnone)]. split; [done|].
      apply Hall in Hk as [Hk|Hk].
      * apply dict_get_None in Hnone. done.
      * destruct (dict_get k archive) as [a|] eqn:Ha; [done|].
        by apply dict_get_None in Ha.
    + intros [Hnone Ha]. right. split_and!; [by eapply Harc | by rewrite Ha | done].
Qed.

End ArchiveV2Buckets.

(** X3 (compare_configs of compare_with_archive_v2.py): whatever the
    order in which the set of keys is visited, a key is reported matched
    exactly when both snapshots hold it with the same value; a triple
    (key, archive value, expanded value) is reported as an expected or
    an unexpected difference exactly when the snapshots hold these two
    different values, according to whether the key is in the allow-set;
    a pair is reported only-expanded or only-archive exactly when one
    snapshot holds it and the other lacks the key. *)
Theorem compare_with_archive_buckets_hold_what_they_name
    (all_keys : list string) (expanded archive : pydict string string) :
  (forall k, k ∈ all_keys <-> k ∈ dict_keys expanded \/ k ∈ dict_keys archive) ->
  let r := CompareWithArchiveV2.compare_configs_in_order all_keys expanded archive in
  (forall k, k ∈ CompareWithArchiveV2.matched r <->
     exists v, dict_get k expanded = Some v /\ dict_get k archive = Some v)
  /\ (forall k a e, (k, a, e) ∈ CompareWithArchiveV2.expected_diff r <->
        dict_get k archive = Some a /\ dict_get k expanded = Some e
        /\ e ≠ a /\ k ∈ CompareWithArchiveV2.EXPECTED_DIFF_KEYS)
  /\ (forall k a e, (k, a, e) ∈ CompareWithArchiveV2.unexpected_diff r <->
        dict_get k archive = Some a /\ dict_get k expanded = Some e
        /\ e ≠ a /\ (k ∉ CompareWithArchiveV2.EXPECTED_DIFF_KEYS))
  /\ (forall k e, (k, e) ∈ CompareWithArchiveV2.only_expanded r <->
        dict_get k expanded = Some e /\ dict_get k archive = None)
  /\ (forall k a, (k, a) ∈ CompareWithArchiveV2.only_archive r <->
        dict_get k expanded = None /\ dict_get k archive = Some a).
Proof. apply ArchiveV2Buckets.compare_configs_in_order_buckets. Qed.

Lemma compare_with_archive_buckets_hold_what_they_name_witness :
  let r := CompareWithArchiveV2.compare_configs_in_order ["PORT"; "DB_HOST"; "MODE"; "OLD"]
             [("PORT", "80"); ("DB_HOST", "db.internal"); ("MODE", "x")]
             [("PORT", "80"); ("DB_HOST", "${DB}"); ("MODE", "y"); ("OLD", "1")] in
  ("MODE", "y", "x") ∈ CompareWithArchiveV2.unexpected_diff r
  /\ ("DB_HOST", "${DB}", "db.internal") ∈ CompareWithArchiveV2.expected_diff r
  /\ ("OLD", "1") ∈ CompareWithArchiveV2.only_archive r.
Proof.
  intros r.
  destruct (compare_with_archive_buckets_hold_what_they_name
              ["PORT"; "DB_HOST"; "MODE"; "OLD"]
              [("PORT", "80"); ("DB_HOST", "db.internal"); ("MODE", "x")]
              [("PORT", "80"); ("DB_HOST", "${DB}"); ("MODE", "y"); ("OLD", "1")])
    as (_ & Hexp & Hunexp & _ & Harc).
  { intros k. unfold dict_keys. cbn [fmap list_fmap fst].
    rewrite !elem_of_cons, !elem_of_nil. naive_solver. }
  split_and!.
  - apply Hunexp. split_and!; [reflexivity | reflexivity | done | compute_done].
  - apply Hexp. split_and!; [reflexivity | reflexivity | done | compute_done].
  - apply Harc. split; reflexivity.
Defined.

(** X4 (compare_configs and main of compare_with_archive_v2.py): the
    comparison of a service reports no issue, that is no unexpected
    difference and no key missing from the expanded snapshot, exactly
    when every key of the archive is also a key of the expanded
    snapshot and, there, either has the value of the archive or is a
    key of the allow-set.  A key of the archive that the expanded
    snapshot lacks is an issue even when the allow-set holds it: the
    allow-set is consulted only for keys present on both sides. *)
Theorem compare_with_archive_no_issue_iff
    (all_keys : list string) (expanded archive : pydict string string) :
  (forall k, k ∈ all_keys <-> k ∈ dict_keys expanded \/ k ∈ dict_keys archive) ->
  let r := CompareWithArchiveV2.compare_configs_in_order all_keys expanded archive in
  (CompareWithArchiveV2.unexpected_diff r = [] /\ CompareWithArchiveV2.only_archive r = []
   <-> forall k a, dict_get k archive = Some a ->
         exists e, dict_get k expanded = Some e
                   /\ (e = a \/ k ∈ CompareWithArchiveV2.EXPECTED_DIFF_KEYS))
  /\ (forall k a, dict_get k archive = Some a -> dict_get k expanded = None ->
        (k, a) ∈ CompareWithArchiveV2.only_archive r).
Proof.
  intros Hall r.
  destruct (ArchiveV2Buckets.compare_configs_in_order_buckets all_keys expanded archive Hall)
    as (_ & _ & Hunexp & _ & Harc). fold r in Hunexp, Harc.
  split; [|intros k a Ha He; by apply Harc].
  split.
  - intros [Hu Ha] k a Hget.
    destruct (dict_get k expanded) as [e|] eqn:He.
    + exists e. split; [done|]. destruct (decide (e = a)) as [|Hne]; [by left|].
      right. destruct (decide (k ∈ CompareWithArchiveV2.EXPECTED_DIFF_KEYS)); [done|].
      assert (Hin : (k, a, e) ∈ CompareWithArchiveV2.unexpected_diff r) by (by apply Hunexp).
      rewrite Hu in Hin. by apply elem_of_nil in Hin.
    + assert (Hin : (k, a) ∈ CompareWithArchiveV2.only_archive r) by (by apply Harc).
      rewrite Ha in Hin. by apply elem_of_nil in Hin.
  - intros Hok. split.
    + apply elem_of_nil_inv. intros [[k a] e] Hin.
      apply Hunexp in Hin as (Ha & He & Hne & Hnot).
      destruct (Hok k a Ha) as (e' & He' & [->|Hexp]); naive_solver.
    + apply elem_of_nil_inv. intros [k a] Hin.
      apply Harc in Hin as (He & Ha).
      destruct (Hok k a Ha) as (e' & He' & _). congruence.
Qed.

Lemma compare_with_archive_no_issue_iff_witness :
  let r := CompareWithArchiveV2.compare_configs_in_order ["EXTRA"; "DB_HOST"; "PORT"]
             [("PORT", "80"); ("DB_HOST", "db.internal"); ("EXTRA", "1")]
             [("PORT", "80"); ("DB_HOST", "${DB}")] in
  CompareWithArchiveV2.unexpected_diff r = [] /\ CompareWithArchiveV2.only_archive r = [].
Proof.
  intros r.
  destruct (compare_with_archive_no_issue_iff ["EXTRA"; "DB_HOST"; "PORT"]
              [("PORT", "80"); ("DB_HOST", "db.internal"); ("EXTRA", "1")]
              [("PORT", "80"); ("DB_HOST", "${DB}")]) as [Hiff _].
  - intros k. unfold dict_keys. cbn [fmap list_fmap fst].
    rewrite !elem_of_cons, !elem_of_nil. naive_solver.
  - apply Hiff. intros k a. cbn [dict_get]. repeat case_decide; intros [= <-]; subst k.
    + exists "80". split; [reflexivity | by left].
    + exists "db.internal". split; [reflexivity | right; compute_done].
Defined.
Module CompareConfigsBuckets.
Import CompareConfigs.

Lemma dict_get_del_eq {K V} `{EqDecision K} (k : K) (d : pydict K V) :
  NoDup (dict_keys d) -> dict_get k (dict_del k d) = None.
Proof.
  intros Hnd. apply dict_get_None. rewrite elem_of_dict_keys_del by done. naive_solver.
Qed.

(** The state of the second loop of [compare_configs] once the
    bindings [seen] of the new configuration have been visited. *)
Record visited (old_normalized : pydict string (string * string))
               (seen : list string) (res : result)
               (rest : pydict string (string * string)) : Prop := mk_visited {
  rest_nodup : NoDup (dict_keys rest);
  rest_get : forall k, dict_get k rest
                       = (if bool_decide (k ∈ seen) then None
                          else dict_get k old_normalized);
  only_old_empty : only_old res = []
}.

Definition reported (old_normalized : pydict string (string * string))
                    (new_config : pydict string string) (res : result) : Prop :=
  (forall k v, (k, v) ∈ matched res <->
     (k, v) ∈ new_config /\ exists ok, dict_get k old_normalized = Some (ok, v))
  /\ (forall k ov nv, (k, ov, nv) ∈ changed res <->
        (k, nv) ∈ new_config
        /\ exists ok, dict_get k old_normalized = Some (ok, ov) /\ ov ≠ nv
                      /\ (k ∉ EXPECTED_CHANGES) /\ (ok ∉ EXPECTED_CHANGES))
  /\ (forall k ov nv, (k, ov, nv) ∈ expected_change res <->
        (k, nv) ∈ new_config
        /\ exists ok, dict_get k old_normalized = Some (ok, ov) /\ ov ≠ nv
                      /\ (k ∈ EXPECTED_CHANGES \/ ok ∈ EXPECTED_CHANGES))
  /\ (forall k v, (k, v) ∈ only_new res <->
        (k, v) ∈ new_config /\ dict_get k old_normalized = None).

Lemma compare_step_reported old_normalized (seen : pydict string string)
      res rest nk nv :
  nk ∉ dict_keys seen ->
  visited old_normalized (dict_keys seen) res rest ->
  reported old_normalized seen res ->
  let st := compare_step (res, rest) (nk, nv) in
  visited old_normalized (dict_keys (seen ++ [(nk, nv)])) st.1 st.2
  /\ reported old_normalized (seen ++ [(nk, nv)]) st.1.
Proof.
  intros Hfresh [Hrnd Hrget Hoo] (R1 & R2 & R3 & R4).
  assert (Hget : dict_get nk rest = dict_get nk old_normalized).
  { rewrite Hrget. by rewrite bool_decide_false. }
  assert (Hnew : forall k v, (k, v) ∈ seen -> k ≠ nk).
  { intros k v Hin ->. apply Hfresh. apply list_elem_of_fmap. by exists (nk, v). }
  assert (Hkeys : forall k, k ∈ dict_keys (seen ++ [(nk, nv)])
                            <-> k ∈ dict_keys seen \/ k = nk).
  { intros k. unfold dict_keys. rewrite fmap_app. cbn [fmap list_fmap fst].
    by rewrite elem_of_app, list_elem_of_singleton. }
  cbn zeta. unfold compare_step. rewrite Hget.
  destruct (dict_get nk old_normalized) as [[ok ov]|] eqn:Hold; cbn [fst snd].
  - split.
    + split.
      * by apply NoDup_dict_keys_del.
      * intros k. destruct (decide (k = nk)) as [->|Hne].
        -- rewrite dict_get_del_eq by done. rewrite bool_decide_true; [done|].
           apply Hkeys. by right.
        -- rewrite dict_get_del_ne by done. rewrite Hrget.
           apply (f_equal (fun b : bool => if b then None else dict_get k old_normalized)).
           apply bool_decide_ext. rewrite Hkeys. naive_solver.
      * destruct (bool_decide (ov = nv)); [done|].
        by destruct (bool_decide (nk ∈ EXPECTED_CHANGES)
                     || bool_decide (ok ∈ EXPECTED_CHANGES)).
    + destruct (decide (ov = nv)) as [->|Hne].
      { rewrite bool_decide_true by done. unfold reported.
        cbn [matched changed expected_change only_new add_matched].
        split_and!; intros; rewrite ?elem_of_app, ?list_elem_of_singleton,
          ?R1, ?R2, ?R3, ?R4; naive_solver. }
      rewrite bool_decide_false by done.
      destruct (decide (nk ∈ EXPECTED_CHANGES)) as [Hin1|Hnin1];
        destruct (decide (ok ∈ EXPECTED_CHANGES)) as [Hin2|Hnin2];
        rewrite ?(bool_decide_true (nk ∈ _)), ?(bool_decide_false (nk ∈ _)),
          ?(bool_decide_true (ok ∈ _)), ?(bool_decide_false (ok ∈ _)) by done;
        cbn [orb]; unfold reported;
        cbn [matched changed expected_change only_new add_expected_change add_changed];
        (split_and!; intros; rewrite ?elem_of_app, ?list_elem_of_singleton,
           ?R1, ?R2, ?R3, ?R4; naive_solver).
  - split.
    + split; [done| |done].
      intros k. destruct (decide (k = nk)) as [->|Hne].
      * rewrite Hget, Hold. by case_bool_decide.
      * rewrite Hrget.
        apply (f_equal (fun b : bool => if b then None else dict_get k old_normalized)).
        apply bool_decide_ext. rewrite Hkeys. naive_solver.
    + unfold reported. cbn [matched changed expected_change only_new add_only_new].
      split_and!; intros; rewrite ?elem_of_app, ?list_elem_of_singleton,
        ?R1, ?R2, ?R3, ?R4; naive_solver.
Qed.

Lemma compare_loop_reported old_normalized (seen new_config : pydict string string)
      res rest :
  NoDup (dict_keys (seen ++ new_config)) ->
  visited old_normalized (dict_keys seen) res rest ->
  reported old_normalized seen res ->
  let st := fold_left compare_step new_config (res, rest) in
  visited old_normalized (dict_keys (seen ++ new_config)) st.1 st.2
  /\ reported old_normalized (seen ++ new_config) st.1.
Proof.
  revert seen res rest. induction new_config as [|[nk nv] new_config IH];
    intros seen res rest Hnd Hvis Hrep; cbn [fold_left].
  - by rewrite app_nil_r.
  - replace (seen ++ (nk, nv) :: new_config) with ((seen ++ [(nk, nv)]) ++ new_config)
      in * by (by rewrite <- (assoc_L (++))).
    assert (Hfresh : nk ∉ dict_keys seen).
    { unfold dict_keys in Hnd. rewrite !fmap_app in Hnd. cbn in Hnd.
      apply NoDup_app in Hnd as (Hnd & _ & _).
      apply NoDup_app in Hnd as (_ & Hdisj & _). intros Hin.
      apply (Hdisj nk Hin). apply list_elem_of_singleton. done. }
    destruct (compare_step_reported old_normalized seen res rest nk nv Hfresh Hvis Hrep)
      as [Hvis1 Hrep1].
    destruct (compare_step (res, rest) (nk, nv)) as [res1 rest1].
    by apply IH.
Qed.

Lemma only_old_loop_entries (rest : list (string * (string * string))) res :
  let r := fold_left (fun r '(norm_key, (orig_key, val)) => add_only_old (orig_key, val) r)
                     rest res in
  matched r = matched res /\ changed r = changed res
  /\ expected_change r = expected_change res /\ only_new r = only_new res
  /\ only_old r = only_old res ++ (snd <$> rest).
Proof.
  revert res. induction rest as [|[nk [ok v]] rest IH]; intros res; cbn [fold_left].
  - by rewrite app_nil_r.
  - destruct (IH (add_only_old (ok, v) res)) as (I1 & I2 & I3 & I4 & I5).
    split_and!; [done..|]. rewrite I5. cbn [only_old add_only_old fmap list_fmap snd].
    by rewrite <- (assoc_L (++)).
Qed.

(** Each bucket of [compare_configs] holds what its name says, in terms
    of the new configuration and of [old_normalized]. *)
Lemma compare_configs_buckets old_config new_config service_name env :
  NoDup (dict_keys new_config) ->
  let old_normalized := normalize_old service_name old_config in
  let r := compare_configs old_config new_config service_name env in
  reported old_normalized new_config r
  /\ (forall ok v, (ok, v) ∈ only_old r <->
        exists nk, dict_get nk old_normalized = Some (ok, v)
                   /\ dict_get nk new_config = None).
Proof.
  intros Hnd old_normalized r. unfold r, compare_configs. fold old_normalized.
  destruct (CompareConfigsFacts.normalize_old_spec service_name old_config) as (N1 & _ & _).
  destruct (compare_loop_reported old_normalized [] new_config empty_result old_normalized)
    as (Hvis & Hrep).
  - done.
  - split; [done | | done]. intros k. by rewrite bool_decide_false by apply not_elem_of_nil.
  - unfold reported. cbn [matched changed expected_change only_new empty_result].
    split_and!; intros; rewrite !elem_of_nil; naive_solver.
  - cbn [app] in Hvis, Hrep.
    destruct (fold_left compare_step new_config (empty_result, old_normalized))
      as [res rest]. cbn [fst snd] in Hvis, Hrep.
    destruct (only_old_loop_entries rest res) as (O1 & O2 & O3 & O4 & O5).
    destruct Hvis as [Hrnd Hrget Hoo]. split.
    + unfold reported. rewrite O1, O2, O3, O4. exact Hrep.
    + intros ok v. rewrite O5, Hoo. cbn [app]. rewrite list_elem_of_fmap. split.
      * intros ([nk [ok' v']] & [= -> ->] & Hin). exists nk.
        apply elem_dict_get in Hin; [|done]. rewrite Hrget in Hin.
        case_bool_decide as Hk; [done|]. split; [done|]. by apply dict_get_None.
      * intros (nk & Hold & Hnone). exists (nk, (ok, v)). split; [done|].
        apply dict_get_Some_elem. rewrite Hrget.
        rewrite bool_decide_false; [done|]. by apply dict_get_None.
Qed.

End CompareConfigsBuckets.

(** X5 (compare_configs of compare_configs.py): with [old_normalized]
    the dictionary the first loop builds (normalised key to original key
    and value), a new binding is reported matched, changed, an expected
    change or only-new according to the value [old_normalized] holds for
    its key, a difference being expected as soon as the new key or the
    original old key is in the allow-set; the entries reported only-old
    are the entries of [old_normalized] whose normalised key the new
    configuration lacks, under their original key. *)
Theorem compare_configs_buckets_hold_what_they_name
    (old_config new_config : pydict string string) (service_name env : string) :
  NoDup (dict_keys new_config) ->
  let old_normalized := CompareConfigs.normalize_old service_name old_config in
  let r := CompareConfigs.compare_configs old_config new_config service_name env in
  (forall k v, (k, v) ∈ CompareConfigs.matched r <->
     (k, v) ∈ new_config /\ exists ok, dict_get k old_normalized = Some (ok, v))
  /\ (forall k ov nv, (k, ov, nv) ∈ CompareConfigs.changed r <->
        (k, nv) ∈ new_config
        /\ exists ok, dict_get k old_normalized = Some (ok, ov) /\ ov ≠ nv
                      /\ (k ∉ CompareConfigs.EXPECTED_CHANGES)
                      /\ (ok ∉ CompareConfigs.EXPECTED_CHANGES))
  /\ (forall k ov nv, (k, ov, nv) ∈ CompareConfigs.expected_change r <->
        (k, nv) ∈ new_config
        /\ exists ok, dict_get k old_normalized = Some (ok, ov) /\ ov ≠ nv
                      /\ (k ∈ CompareConfigs.EXPECTED_CHANGES
                          \/ ok ∈ CompareConfigs.EXPECTED_CHANGES))
  /\ (forall k v, (k, v) ∈ CompareConfigs.only_new r <->
        (k, v) ∈ new_config /\ dict_get k old_normalized = None)
  /\ (forall ok v, (ok, v) ∈ CompareConfigs.only_old r <->
        exists nk, dict_get nk old_normalized = Some (ok, v)
                   /\ dict_get nk new_config = None).
Proof.
  intros Hnd old_normalized r.
  destruct (CompareConfigsBuckets.compare_configs_buckets
              old_config new_config service_name env Hnd) as ((R1 & R2 & R3 & R4) & R5).
  by split_and!.
Qed.

Lemma compare_configs_buckets_hold_what_they_name_witness :
  let r := CompareConfigs.compare_configs
             [("COMFY_MCP_PORT", "80"); ("COMFY_MCP_PUBLIC_URL", "a"); ("GONE", "1")]
             [("PORT", "81"); ("PUBLIC_URL", "b")] "comfy-mcp" "prod" in
  ("PORT", "80", "81") ∈ CompareConfigs.changed r
  /\ ("PUBLIC_URL", "a", "b") ∈ CompareConfigs.expected_change r
  /\ ("GONE", "1") ∈ CompareConfigs.only_old r.
Proof.
  intros r.
  destruct (compare_configs_buckets_hold_what_they_name
              [("COMFY_MCP_PORT", "80"); ("COMFY_MCP_PUBLIC_URL", "a"); ("GONE", "1")]
              [("PORT", "81"); ("PUBLIC_URL", "b")] "comfy-mcp" "prod")
    as (_ & Hch & Hexp & _ & Hold).
  { compute_done. }
  split_and!.
  - apply Hch. split; [compute_done|]. exists "COMFY_MCP_PORT".
    split_and!; [reflexivity | done | compute_done | compute_done].
  - apply Hexp. split; [compute_done|]. exists "COMFY_MCP_PUBLIC_URL".
    split_and!; [reflexivity | done | left; compute_done].
  - apply Hold. exists "GONE". split; reflexivity.
Defined.

(** X6 (compare_configs and main of compare_configs.py): a service
    shows no issue, that is nothing changed unexpectedly and nothing
    missing, exactly when the new configuration holds every normalised
    old key, with the old value unless the normalised key or the
    original key is in the allow-set. *)
Theorem compare_configs_no_issue_iff
    (old_config new_config : pydict string string) (service_name env : string) :
  NoDup (dict_keys new_config) ->
  let old_normalized := CompareConfigs.normalize_old service_name old_config in
  let r := CompareConfigs.compare_configs old_config new_config service_name env in
  CompareConfigs.changed r = [] /\ CompareConfigs.only_old r = []
  <-> forall nk ok ov, dict_get nk old_normalized = Some (ok, ov) ->
        exists nv, dict_get nk new_config = Some nv
                   /\ (ov = nv \/ nk ∈ CompareConfigs.EXPECTED_CHANGES
                       \/ ok ∈ CompareConfigs.EXPECTED_CHANGES).
Proof.
  intros Hnd old_normalized r.
  destruct (CompareConfigsBuckets.compare_configs_buckets
              old_config new_config service_name env Hnd) as ((_ & R2 & _ & _) & R5).
  fold old_normalized in R2, R5. fold r in R2, R5. split.
  - intros [Hch Hoo] nk ok ov Hold.
    destruct (dict_get nk new_config) as [nv|] eqn:Hnew.
    + exists nv. split; [done|]. destruct (decide (ov = nv)); [by left|]. right.
      destruct (decide (nk ∈ CompareConfigs.EXPECTED_CHANGES)); [by left|].
      destruct (decide (ok ∈ CompareConfigs.EXPECTED_CHANGES)); [by right|].
      assert (Hin : (nk, ov, nv) ∈ CompareConfigs.changed r).
      { apply R2. split; [by apply dict_get_Some_elem|]. by exists ok. }
      rewrite Hch in Hin. by apply elem_of_nil in Hin.
    + assert (Hin : (ok, ov) ∈ CompareConfigs.only_old r) by (apply R5; by exists nk).
      rewrite Hoo in Hin. by apply elem_of_nil in Hin.
  - intros Hok. split.
    + apply elem_of_nil_inv. intros [[k ov] nv] Hin.
      apply R2 in Hin as (Hnew & ok & Hold & Hne & Hn1 & Hn2).
      apply elem_dict_get in Hnew; [|done].
      destruct (Hok k ok ov Hold) as (nv' & Hnew' & Hcase). naive_solver.
    + apply elem_of_nil_inv. intros [ok v] Hin.
      apply R5 in Hin as (nk & Hold & Hnone).
      destruct (Hok nk ok v Hold) as (nv' & Hnew' & _). congruence.
Qed.

Lemma compare_configs_no_issue_iff_witness :
  let r := CompareConfigs.compare_configs
             [("COMFY_MCP_PORT", "80"); ("COMFY_MCP_PUBLIC_URL", "a")]
             [("PORT", "80"); ("PUBLIC_URL", "b"); ("NEW", "1")] "comfy-mcp" "prod" in
  CompareConfigs.changed r = [] /\ CompareConfigs.only_old r = [].
Proof.
  intros r.
  apply (compare_configs_no_issue_iff
           [("COMFY_MCP_PORT", "80"); ("COMFY_MCP_PUBLIC_URL", "a")]
           [("PORT", "80"); ("PUBLIC_URL", "b"); ("NEW", "1")] "comfy-mcp" "prod").
  - compute_done.
  - intros nk ok ov.
    replace (CompareConfigs.normalize_old "comfy-mcp"
               [("COMFY_MCP_PORT", "80"); ("COMFY_MCP_PUBLIC_URL", "a")])
      with [("PORT", ("COMFY_MCP_PORT", "80")); ("PUBLIC_URL", ("COMFY_MCP_PUBLIC_URL", "a"))]
      by reflexivity.
    cbn [dict_get]. repeat case_decide; intros [= <- <-]; subst nk.
    + exists "80". split; [reflexivity | by left].
    + exists "b". split; [reflexivity | right; left; compute_done].
Defined.
(** ** The path mapper and the tree walkers *)

Lemma str_app_cons (x : ascii) (a b : string) : String x a +:+ b = String x (a +:+ b).
Proof. reflexivity. Qed.

Lemma str_app_nil_l (b : string) : "" +:+ b = b.
Proof. reflexivity. Qed.

Lemma str_app_assoc (a b c : string) : (a +:+ b) +:+ c = a +:+ (b +:+ c).
Proof.
  induction a as [|x a IH]; [by rewrite !str_app_nil_l|]. by rewrite !str_app_cons, IH.
Qed.

Lemma str_app_nil_r (a : string) : a +:+ "" = a.
Proof. induction a as [|x a IH]; [done|]. by rewrite str_app_cons, IH. Qed.

Lemma str_app_length (a b : string) :
  String.length (a +:+ b) = String.length a + String.length b.
Proof.
  induction a as [|x a IH]; [done|]. rewrite str_app_cons. cbn [String.length].
  by rewrite IH.
Qed.

Lemma take_app_length (a b : string) : Py.take (String.length a) (a +:+ b) = a.
Proof.
  induction a as [|x a IH]; [by destruct b|].
  rewrite str_app_cons. cbn [String.length Py.take]. by rewrite IH.
Qed.

Lemma take_all (a : string) : Py.take (String.length a) a = a.
Proof. induction a as [|x a IH]; simpl; [done | by rewrite IH]. Qed.

Lemma str_take_drop (n : nat) (s : string) : Py.take n s +:+ Py.drop n s = s.
Proof.
  revert n. induction s as [|c s IH]; intros [|n]; cbn [Py.take Py.drop]; try done.
  by rewrite str_app_cons, IH.
Qed.

Lemma take_length_le (n : nat) (s : string) :
  n <= String.length s -> String.length (Py.take n s) = n.
Proof.
  revert n. induction s as [|c s IH]; intros [|n]; simpl; try done; try lia.
  intros Hn. rewrite IH; lia.
Qed.

(** A name that ends in [.env] is its stem followed by [.env]. *)
Lemma endswith_env_split (name : string) :
  Py.endswith ".env" name = true ->
  name = Py.take (String.length name - 4) name +:+ ".env".
Proof.
  unfold Py.endswith. intros [Hlen Hdrop]%andb_prop.
  apply bool_decide_eq_true in Hdrop. apply Nat.leb_le in Hlen.
  change (String.length ".env") with 4 in *.
  transitivity (Py.take (String.length name - 4) name
                +:+ Py.drop (String.length name - 4) name).
  - symmetry. apply str_take_drop.
  - by rewrite Hdrop.
Qed.

Lemma rfind_dot_env (r : string) : PyPath.rfind "."%char (r +:+ ".env") = Some (String.length r).
Proof.
  induction r as [|c r IH]; [done|]. rewrite str_app_cons. cbn [PyPath.rfind String.length].
  by rewrite IH.
Qed.

(** On the names [glob("*.env")] selects, [Path.stem] removes the
    suffix [.env], except from the name [.env] itself. *)
Lemma stem_env (name : string) :
  Py.endswith ".env" name = true -> PyPath.stem name = stem name.
Proof.
  intros Hsplit%endswith_env_split.
  set (r := Py.take (String.length name - 4) name) in *.
  assert (Hlen : String.length name = String.length r + 4).
  { rewrite Hsplit at 1. by rewrite str_app_length. }
  unfold PyPath.stem, stem. rewrite Hsplit at 1. rewrite rfind_dot_env.
  rewrite Hlen. replace (String.length r + 4 - 4) with (String.length r) by lia.
  destruct r as [|c r'] eqn:Hr.
  - done.
  - cbn [String.length]. rewrite (proj2 (Nat.ltb_lt 0 _)) by lia.
    rewrite (proj2 (Nat.ltb_lt _ _)) by lia. rewrite (proj2 (Nat.ltb_lt 4 _)) by lia.
    done.
Qed.

Lemma join_snoc (sep : string) (l : list string) (x : string) :
  l ≠ [] -> Py.join sep (l ++ [x]) = Py.join sep l +:+ sep +:+ x.
Proof.
  induction l as [|a l IH]; [done|]. intros _.
  destruct l as [|b l]; [done|].
  change (Py.join sep ((a :: b :: l) ++ [x]))
    with (a +:+ sep +:+ Py.join sep ((b :: l) ++ [x])).
  rewrite IH by done.
  change (Py.join sep (a :: b :: l)) with (a +:+ sep +:+ Py.join sep (b :: l)).
  by rewrite !str_app_assoc.
Qed.

Lemma rstrip_with_none (p : ascii -> bool) (t : string) :
  forallb (fun c => negb (p c)) (list_ascii_of_string t) = true -> Py.rstrip_with p t = t.
Proof.
  induction t as [|c t IH]; simpl; [done|].
  intros [Hc Ht]%andb_prop. rewrite (IH Ht).
  destruct t; [|done]. by destruct (p c).
Qed.

Lemma rstrip_with_app (p : ascii -> bool) (s t : string) :
  Py.nonempty t = true ->
  forallb (fun c => negb (p c)) (list_ascii_of_string t) = true ->
  Py.rstrip_with p (s +:+ t) = s +:+ t.
Proof.
  intros Hne Ht. induction s as [|c s IH].
  - rewrite str_app_nil_l. by apply rstrip_with_none.
  - rewrite str_app_cons. cbn [Py.rstrip_with]. rewrite IH.
    destruct (s +:+ t) eqn:E; [|done].
    destruct s; [|done]. rewrite str_app_nil_l in E. subst t. done.
Qed.

Lemma contains_forallb (d : ascii) (t : string) :
  Py.contains d t = false ->
  forallb (fun c => negb (Py.is_char d c)) (list_ascii_of_string t) = true.
Proof.
  induction t as [|c t IH]; simpl; [done|].
  intros [Hc Ht]%orb_false_elim. unfold Py.is_char at 1. by rewrite Hc, IH.
Qed.

Lemma rstrip_valid_name (s name : string) :
  valid_name name = true ->
  Py.rstrip "/"%char (s +:+ "/" +:+ name) = s +:+ "/" +:+ name.
Proof.
  unfold valid_name. intros [Hne Hno]%andb_prop. apply negb_true_iff in Hno.
  rewrite <- str_app_assoc. apply rstrip_with_app; [done|]. by apply contains_forallb.
Qed.

Lemma lookup_entry_elem (name : string) (entries : list fs_entry) (e : fs_entry) :
  lookup_entry name entries = Some e -> e ∈ entries /\ entry_name e = name.
Proof.
  unfold lookup_entry. intros Hfind. apply List.find_some in Hfind as [Hin Hname].
  split; [by apply list_elem_of_In | by apply bool_decide_eq_true in Hname].
Qed.

(** *** [map_file_to_infisical] on the two namespaces *)

Lemma list_find_v2 (prefix rest : list string) :
  "v2" ∉ prefix ->
  list_find (fun p => p = "v2") (prefix ++ "v2" :: rest) = Some (length prefix, "v2").
Proof.
  intros Hnot. apply list_find_Some. split_and!.
  - by rewrite lookup_app_r, Nat.sub_diag by lia.
  - done.
  - intros j y Hy Hj ->. apply Hnot. rewrite lookup_app_l in Hy by done.
    by apply list_elem_of_lookup_2 in Hy.
Qed.

Lemma last_snoc_app (l1 l2 : list string) (x : string) :
  List.last (l1 ++ l2 ++ [x]) "" = x.
Proof. rewrite (assoc_L (++)). apply List.last_last. Qed.

Lemma map_file_shared (prefix subdirs : list string) (env fname : string) :
  "v2" ∉ prefix ->
  map_file_to_infisical (prefix ++ "v2" :: "shared-secrets" :: env :: subdirs ++ [fname])
  = inr (env,
         match subdirs with
         | [] => "/shared-secrets/" +:+ PyPath.stem fname
         | _ => "/shared-secrets/" +:+ Py.join "/" subdirs +:+ "/" +:+ PyPath.stem fname
         end).
Proof.
  intros Hnot. unfold map_file_to_infisical. rewrite list_find_v2 by done.
  cbn zeta. rewrite drop_app_add. cbn [drop].
  replace (length ("shared-secrets" :: env :: subdirs ++ [fname]) <? 2) with false
    by (symmetry; apply Nat.ltb_ge; cbn [length]; lia).
  rewrite bool_decide_true by done. cbn [lookup list_lookup default].
  change (prefix ++ "v2" :: "shared-secrets" :: env :: subdirs ++ [fname])
    with (prefix ++ ["v2"; "shared-secrets"; env] ++ subdirs ++ [fname]).
  rewrite (assoc_L (++) prefix), (assoc_L (++) (prefix ++ _)), List.last_last.
  destruct subdirs as [|d subdirs].
  - done.
  - replace (3 <? length ("shared-secrets" :: env :: (d :: subdirs) ++ [fname])) with true
      by (symmetry; apply Nat.ltb_lt; cbn [length app]; rewrite length_app; cbn; lia).
    unfold Py.init.
    change ("shared-secrets" :: env :: (d :: subdirs) ++ [fname])
      with (("shared-secrets" :: env :: d :: subdirs) ++ [fname]).
    by rewrite List.removelast_last.
Qed.

Lemma map_file_services (prefix dirs : list string) (fname : string) :
  "v2" ∉ prefix ->
  PyPath.stem fname ∈ ["common"; "prod"; "staging"] ->
  map_file_to_infisical (prefix ++ "v2" :: "services" :: dirs ++ [fname])
  = inr (PyPath.stem fname, "/" +:+ Py.join "/" ("services" :: dirs)).
Proof.
  intros Hnot Hstem. unfold map_file_to_infisical. rewrite list_find_v2 by done.
  cbn zeta. rewrite drop_app_add. cbn [drop].
  replace (length ("services" :: dirs ++ [fname]) <? 2) with false
    by (symmetry; apply Nat.ltb_ge; cbn [length]; rewrite length_app; cbn; lia).
  rewrite bool_decide_false by done. rewrite bool_decide_true by done.
  change (prefix ++ "v2" :: "services" :: dirs ++ [fname])
    with (prefix ++ ["v2"; "services"] ++ dirs ++ [fname]).
  rewrite (assoc_L (++) prefix), (assoc_L (++) (prefix ++ _)), List.last_last.
  rewrite bool_decide_true by done. unfold Py.init.
  change ("services" :: dirs ++ [fname]) with (("services" :: dirs) ++ [fname]).
  by rewrite List.removelast_last.
Qed.
Lemma shared_base_snoc (subdirs : list string) (d : string) :
  shared_base (subdirs ++ [d]) = shared_base subdirs +:+ "/" +:+ d.
Proof.
  unfold shared_base. destruct subdirs as [|a l]; [done|].
  change ((a :: l) ++ [d]) with (a :: (l ++ [d])).
  destruct (l ++ [d]) eqn:E; [by destruct l|]. rewrite <- E.
  change (a :: l ++ [d]) with ((a :: l) ++ [d]).
  rewrite join_snoc by done. by rewrite !str_app_assoc.
Qed.

Lemma rstrip_shared_base (subdirs : list string) :
  Forall (fun d => valid_name d = true) subdirs ->
  Py.rstrip "/"%char (shared_base subdirs) = shared_base subdirs.
Proof.
  intros Hvalid. destruct (decide (subdirs = [])) as [->|Hne]; [done|].
  destruct (exists_last Hne) as (l & d & ->).
  apply Forall_app in Hvalid as [_ Hd]. apply (proj1 (Forall_singleton _ _)) in Hd.
  rewrite shared_base_snoc. by apply rstrip_valid_name.
Qed.

Lemma shared_base_not_root (subdirs : list string) : shared_base subdirs ≠ "/".
Proof. by destruct subdirs. Qed.

Lemma shared_target_of_base (subdirs : list string) (file_name : string) :
  Forall (fun d => valid_name d = true) subdirs ->
  shared_target_path (shared_base subdirs) file_name
  = match subdirs with
    | [] => "/shared-secrets/" +:+ file_name
    | _ => "/shared-secrets/" +:+ Py.join "/" subdirs +:+ "/" +:+ file_name
    end.
Proof.
  intros Hvalid. unfold shared_target_path.
  rewrite bool_decide_false by apply shared_base_not_root.
  rewrite rstrip_shared_base by done. unfold shared_base.
  destruct subdirs; [done|]. by rewrite !str_app_assoc.
Qed.

Lemma services_base_snoc (dirs : list string) (d : string) :
  services_base (dirs ++ [d]) = services_base dirs +:+ "/" +:+ d.
Proof.
  unfold services_base. change ("services" :: dirs ++ [d]) with (("services" :: dirs) ++ [d]).
  rewrite join_snoc by done. by rewrite !str_app_assoc.
Qed.

Lemma well_named_entries (name : string) (entries : list fs_entry) (e : fs_entry) :
  well_named (Dir name entries) = true -> e ∈ entries -> well_named e = true.
Proof.
  cbn [well_named]. intros [_ Hall]%andb_prop Hin.
  rewrite forallb_forall in Hall. by apply Hall, list_elem_of_In.
Qed.

Lemma well_named_valid (e : fs_entry) :
  well_named e = true -> valid_name (entry_name e) = true.
Proof. destruct e; cbn [well_named entry_name]; [done | by intros [? _]%andb_prop]. Qed.

Lemma elem_of_flat_map {A B} (f : A -> list B) (l : list A) (y : B) :
  y ∈ flat_map f l <-> exists x, x ∈ l /\ y ∈ f x.
Proof.
  rewrite list_elem_of_In, in_flat_map. setoid_rewrite list_elem_of_In. done.
Qed.

Lemma fmap_flat_map {A B C} (g : B -> C) (f : A -> list B) (l : list A)
      (h : A -> list C) :
  Forall (fun x => g <$> f x = h x) l -> g <$> flat_map f l = flat_map h l.
Proof.
  induction 1 as [|x l Hx _ IH]; [done|]. cbn [flat_map].
  by rewrite fmap_app, Hx, IH.
Qed.

Section Located.
Variable prefix : list string.
Hypothesis prefix_above_v2 : "v2" ∉ prefix.

(** Below an environment of [shared-secrets]. *)
Lemma shared_located_agree (env : string) (base_dir : fs_entry) :
  forall subdirs,
    Forall (fun d => valid_name d = true) subdirs ->
    well_named base_dir = true ->
    forall rel f e p,
      (rel, SyncFile f e p)
        ∈ shared_located ("shared-secrets" :: env :: subdirs) base_dir env
                         (shared_base subdirs) ->
      map_file_to_infisical (prefix ++ "v2" :: rel) = inr (e, p).
Proof.
  induction base_dir as [name lines|name entries IH] using fs_entry_tree_ind;
    intros subdirs Hvalid Hnamed rel f e p; cbn [shared_located].
  - by intros [=]%list_elem_of_singleton.
  - rewrite elem_of_app. intros [Hin|Hin].
    + apply list_elem_of_fmap in Hin as (env_file & [= -> -> -> ->] & Hglob).
      unfold glob_env in Hglob.
      apply list_elem_of_In, List.filter_In in Hglob as [_ Hends].
      change (("shared-secrets" :: env :: subdirs) ++ [entry_name env_file])
        with ("shared-secrets" :: env :: subdirs ++ [entry_name env_file]).
      rewrite map_file_shared by done. rewrite <- (stem_env _ Hends).
      by rewrite shared_target_of_base.
    + apply elem_of_flat_map in Hin as (subdir & Hsub & Hin).
      destruct subdir as [n l|n es]; [by apply elem_of_nil in Hin|].
      rewrite Forall_forall in IH.
      assert (Hsubnamed : well_named (Dir n es) = true)
        by (by apply (well_named_entries name entries)).
      assert (Hn : valid_name n = true) by (by apply well_named_valid in Hsubnamed).
      assert (Hvalid' : Forall (fun d => valid_name d = true) (subdirs ++ [n])).
      { apply Forall_app. split; [done | by apply Forall_singleton]. }
      apply (IH (Dir n es) Hsub (subdirs ++ [n]) Hvalid' Hsubnamed rel f e p).
      * rewrite shared_base_snoc. rewrite rstrip_shared_base in Hin by done.
        change ("shared-secrets" :: env :: subdirs ++ [n])
          with (("shared-secrets" :: env :: subdirs) ++ [n]). exact Hin.
Qed.

(** Below a service directory. *)
Lemma service_located_agree (service_dir : fs_entry) :
  forall dirs rel f e p,
    (rel, SyncFile f e p)
      ∈ service_located ("services" :: dirs) service_dir (services_base dirs) ->
    map_file_to_infisical (prefix ++ "v2" :: rel) = inr (e, p).
Proof.
  induction service_dir as [name lines|name entries IH] using fs_entry_tree_ind;
    intros dirs rel f e p; cbn [service_located].
  - by intros [=]%list_elem_of_singleton.
  - rewrite !elem_of_app. unfold located_if_exists.
    intros [Hin|[Hin|[Hin|Hin]]].
    + destruct (lookup_entry "common.env" entries); [|by apply elem_of_nil in Hin].
      apply list_elem_of_singleton in Hin as [= -> -> -> ->].
      change (("services" :: dirs) ++ ["common.env"])
        with ("services" :: dirs ++ ["common.env"]).
      by rewrite map_file_services by (done || compute_done).
    + destruct (lookup_entry "prod.env" entries); [|by apply elem_of_nil in Hin].
      apply list_elem_of_singleton in Hin as [= -> -> -> ->].
      change (("services" :: dirs) ++ ["prod.env"])
        with ("services" :: dirs ++ ["prod.env"]).
      by rewrite map_file_services by (done || compute_done).
    + destruct (lookup_entry "staging.env" entries); [|by apply elem_of_nil in Hin].
      apply list_elem_of_singleton in Hin as [= -> -> -> ->].
      change (("services" :: dirs) ++ ["staging.env"])
        with ("services" :: dirs ++ ["staging.env"]).
      by rewrite map_file_services by (done || compute_done).
    + apply elem_of_flat_map in Hin as (subdir & Hsub & Hin).
      destruct subdir as [n l|n es]; [by apply elem_of_nil in Hin|].
      destruct (negb (Py.startswith "." n)); [|by apply elem_of_nil in Hin].
      rewrite Forall_forall in IH.
      apply (IH (Dir n es) Hsub (dirs ++ [n]) rel f e p).
      rewrite services_base_snoc.
      change ("services" :: dirs ++ [n]) with (("services" :: dirs) ++ [n]). exact Hin.
Qed.

Lemma located_agree (v2 : list fs_entry) :
  forallb well_named v2 = true ->
  forall rel f e p,
    (rel, SyncFile f e p) ∈ step2_located v2 ++ step3_located v2 ->
    map_file_to_infisical (prefix ++ "v2" :: rel) = inr (e, p).
Proof.
  intros Hnamed rel f e p. rewrite forallb_forall in Hnamed.
  rewrite elem_of_app. intros [Hin|Hin].
  - unfold step2_located in Hin.
    apply elem_of_flat_map in Hin as (env_slug & _ & Hin).
    unfold shared_env_dir in Hin.
    destruct (lookup_entry "shared-secrets" v2) as [[n l|n envs]|] eqn:Hshared;
      try (by apply elem_of_nil in Hin).
    destruct (lookup_entry env_slug envs) as [env_dir|] eqn:Henv;
      [|by apply elem_of_nil in Hin].
    apply lookup_entry_elem in Hshared as [Hshared _].
    apply lookup_entry_elem in Henv as [Henv _].
    assert (Hdir : well_named env_dir = true).
    { apply (well_named_entries n envs); [|done]. by apply Hnamed, list_elem_of_In. }
    by apply (shared_located_agree env_slug env_dir [] (Forall_nil_2 _) Hdir rel f e p).
  - unfold step3_located in Hin.
    destruct (lookup_entry "services" v2) as [[n l|n service_dirs]|];
      try (by apply list_elem_of_singleton in Hin).
    apply elem_of_flat_map in Hin as (service_dir & _ & Hin).
    destruct service_dir as [n0 l0|service_name es]; [by apply elem_of_nil in Hin|].
    by apply (service_located_agree (Dir service_name es) [service_name] rel f e p).
Qed.

End Located.

Lemma shared_located_actions (base_dir : fs_entry) :
  forall dir_path environment base_path,
    (shared_located dir_path base_dir environment base_path).*2
    = shared_actions base_dir environment base_path.
Proof.
  induction base_dir as [name lines|name entries IH] using fs_entry_tree_ind;
    intros dir_path environment base_path; [done|].
  cbn [shared_located shared_actions]. rewrite fmap_app. f_equal.
  - rewrite <- list_fmap_compose. done.
  - apply (fmap_flat_map snd). eapply Forall_impl; [exact IH|].
    intros [n l|n es] Hsub; [done|]. apply Hsub.
Qed.

Lemma service_located_actions (service_dir : fs_entry) :
  forall dir_path base_path,
    (service_located dir_path service_dir base_path).*2
    = service_actions service_dir base_path.
Proof.
  induction service_dir as [name lines|name entries IH] using fs_entry_tree_ind;
    intros dir_path base_path; [done|].
  cbn [service_located service_actions]. rewrite !fmap_app.
  f_equal; [by destruct (lookup_entry "common.env" entries)|].
  f_equal; [by destruct (lookup_entry "prod.env" entries)|].
  f_equal; [by destruct (lookup_entry "staging.env" entries)|].
  apply (fmap_flat_map snd). eapply Forall_impl; [exact IH|].
  intros [n l|n es] Hsub; [done|]. destruct (negb (Py.startswith "." n)); [|done].
  apply Hsub.
Qed.

Lemma located_actions (v2 : list fs_entry) :
  (step2_located v2 ++ step3_located v2).*2 = step2_actions v2 ++ step3_actions v2.
Proof.
  rewrite fmap_app. f_equal.
  - unfold step2_located, step2_actions. apply (fmap_flat_map snd).
    apply Forall_forall. intros env_slug _.
    destruct (shared_env_dir v2 env_slug); [|done]. apply shared_located_actions.
  - unfold step3_located, step3_actions.
    destruct (lookup_entry "services" v2) as [[n l|n service_dirs]|]; [done| |done].
    apply (fmap_flat_map snd). apply Forall_forall. intros [n0 l0|sn es] _; [done|].
    apply service_located_actions.
Qed.

(** *** Where the walkers find their files *)

Lemma entries_at_cons (entries es : list fs_entry) (n : string) (rel : list string)
      (f : fs_entry) :
  Dir n es ∈ entries -> f ∈ entries_at es rel -> f ∈ entries_at entries (n :: rel).
Proof.
  intros Hdir Hf. destruct rel as [|r rel]; [by apply elem_of_nil in Hf|].
  change (f ∈ flat_map (fun d => match d with
                                 | Dir n0 es0 =>
                                     if bool_decide (n0 = n) then entries_at es0 (r :: rel)
                                     else []
                                 | File _ _ => []
                                 end) entries).
  apply elem_of_flat_map. exists (Dir n es). split; [done|].
  by rewrite bool_decide_true.
Qed.

Lemma entries_at_here (entries : list fs_entry) (f : fs_entry) :
  f ∈ entries -> f ∈ entries_at entries [entry_name f].
Proof.
  intros Hf. cbn [entries_at]. apply list_elem_of_In, List.filter_In.
  split; [by apply list_elem_of_In | by apply bool_decide_eq_true].
Qed.

Lemma shared_located_at (base_dir : fs_entry) :
  forall dir_path environment base_path rel f e p,
    (rel, SyncFile f e p) ∈ shared_located dir_path base_dir environment base_path ->
    exists name entries rel',
      base_dir = Dir name entries /\ rel = dir_path ++ rel' /\ f ∈ entries_at entries rel'.
Proof.
  induction base_dir as [name lines|name entries IH] using fs_entry_tree_ind;
    intros dir_path environment base_path rel f e p; cbn [shared_located].
  - by intros [=]%list_elem_of_singleton.
  - rewrite elem_of_app. intros [Hin|Hin].
    + apply list_elem_of_fmap in Hin as (env_file & [= -> -> -> ->] & Hglob).
      unfold glob_env in Hglob. apply list_elem_of_In, List.filter_In in Hglob as [Hin _].
      exists name, entries, [entry_name env_file]. split; [done|]. split; [done|].
      by apply entries_at_here, list_elem_of_In.
    + apply elem_of_flat_map in Hin as (subdir & Hsub & Hin).
      destruct subdir as [n l|n es]; [by apply elem_of_nil in Hin|].
      rewrite Forall_forall in IH.
      destruct (IH (Dir n es) Hsub _ _ _ _ _ _ _ Hin) as (n' & es' & rel' & [= <- <-] & -> & Hf).
      exists name, entries, (n :: rel'). split; [done|].
      split; [by rewrite <- app_assoc|]. by apply (entries_at_cons entries es).
Qed.

Lemma located_if_exists_at dir_path name (entries : list fs_entry) env target rel f e p :
  (rel, SyncFile f e p)
    ∈ located_if_exists dir_path name (lookup_entry name entries) env target ->
  rel = dir_path ++ [name] /\ f ∈ entries_at entries [name].
Proof.
  unfold located_if_exists.
  destruct (lookup_entry name entries) as [f0|] eqn:Hlook; [|by intros ?%elem_of_nil].
  intros [= -> -> -> ->]%list_elem_of_singleton.
  apply lookup_entry_elem in Hlook as [Hin <-]. split; [done|]. by apply entries_at_here.
Qed.

Lemma service_located_at (service_dir : fs_entry) :
  forall dir_path base_path rel f e p,
    (rel, SyncFile f e p) ∈ service_located dir_path service_dir base_path ->
    exists name entries rel',
      service_dir = Dir name entries /\ rel = dir_path ++ rel'
      /\ f ∈ entries_at entries rel'.
Proof.
  induction service_dir as [name lines|name entries IH] using fs_entry_tree_ind;
    intros dir_path base_path rel f e p; cbn [service_located].
  - by intros [=]%list_elem_of_singleton.
  - rewrite !elem_of_app. intros [Hin|[Hin|[Hin|Hin]]].
    + apply located_if_exists_at in Hin as [-> Hf]. by exists name, entries, ["common.env"].
    + apply located_if_exists_at in Hin as [-> Hf]. by exists name, entries, ["prod.env"].
    + apply located_if_exists_at in Hin as [-> Hf]. by exists name, entries, ["staging.env"].
    + apply elem_of_flat_map in Hin as (subdir & Hsub & Hin).
      destruct subdir as [n l|n es]; [by apply elem_of_nil in Hin|].
      destruct (negb (Py.startswith "." n)); [|by apply elem_of_nil in Hin].
      rewrite Forall_forall in IH.
      destruct (IH (Dir n es) Hsub _ _ _ _ _ _ Hin) as (n' & es' & rel' & [= <- <-] & -> & Hf).
      exists name, entries, (n :: rel'). split; [done|].
      split; [by rewrite <- app_assoc|]. by apply (entries_at_cons entries es).
Qed.

Lemma located_at (v2 : list fs_entry) rel f e p :
  (rel, SyncFile f e p) ∈ step2_located v2 ++ step3_located v2 -> f ∈ entries_at v2 rel.
Proof.
  rewrite elem_of_app. intros [Hin|Hin].
  - unfold step2_located in Hin.
    apply elem_of_flat_map in Hin as (env_slug & _ & Hin).
    unfold shared_env_dir in Hin.
    destruct (lookup_entry "shared-secrets" v2) as [[n l|n envs]|] eqn:Hshared;
      try (by apply elem_of_nil in Hin).
    destruct (lookup_entry env_slug envs) as [env_dir|] eqn:Henv;
      [|by apply elem_of_nil in Hin].
    apply lookup_entry_elem in Hshared as [Hshared Hn]. cbn [entry_name] in Hn. subst n.
    apply lookup_entry_elem in Henv as [Henv Hname].
    apply shared_located_at in Hin as (name & entries & rel' & -> & -> & Hf).
    cbn [entry_name] in Hname. subst name.
    apply (entries_at_cons v2 envs); [done|]. by apply (entries_at_cons envs entries).
  - unfold step3_located in Hin.
    destruct (lookup_entry "services" v2) as [[n l|n service_dirs]|] eqn:Hserv.
    + by apply list_elem_of_singleton in Hin.
    + apply lookup_entry_elem in Hserv as [Hserv Hn]. cbn [entry_name] in Hn. subst n.
      apply elem_of_flat_map in Hin as (service_dir & Hsd & Hin).
      destruct service_dir as [n0 l0|service_name es]; [by apply elem_of_nil in Hin|].
      apply service_located_at in Hin as (name & entries & rel' & [= <- <-] & -> & Hf).
      apply (entries_at_cons v2 service_dirs); [done|].
      by apply (entries_at_cons service_dirs es).
    + by apply list_elem_of_singleton in Hin.
Qed.

Lemma step2_located_actions (v2 : list fs_entry) :
  (step2_located v2).*2 = step2_actions v2.
Proof.
  unfold step2_located, step2_actions. apply (fmap_flat_map snd).
  apply Forall_forall. intros env_slug _.
  destruct (shared_env_dir v2 env_slug); [|done]. apply shared_located_actions.
Qed.

Lemma step3_located_actions (v2 : list fs_entry) :
  (step3_located v2).*2 = step3_actions v2.
Proof.
  unfold step3_located, step3_actions.
  destruct (lookup_entry "services" v2) as [[n l|n service_dirs]|]; [done| |done].
  apply (fmap_flat_map snd). apply Forall_forall. intros [n0 l0|sn es] _; [done|].
  apply service_located_actions.
Qed.

(** X7 (map_file_to_infisical, import_env_files_recursive,
    import_service_dir, step2_import_shared_secrets,
    step3_import_services): the path mapper of the precise sync agrees
    with the tree walkers of the full sync.  For a local tree whose
    entries have proper names and a [v2] directory reached through
    directories not named v2: stage 2 and stage 3 do, from any state of
    the store and in either mode, what reconciling the files of
    [step2_located] and of [step3_located], in order, each into its
    environment and remote path, does; every such file is the entry of
    the tree at the path listed with it; and [map_file_to_infisical]
    maps that local path to that environment and that remote path. *)
Theorem map_file_agrees_with_walkers
    {W : Type} `{RemoteStore W} (prefix : list string) (v2 : list fs_entry)
    (dry_run : bool) :
  "v2" ∉ prefix ->
  forallb well_named v2 = true ->
  (forall (tot : totals) (w : W),
      bind (step2_import_shared_secrets v2 dry_run)
           (fun st => ret (add_files tot st)) w
      = run_actions dry_run (step2_located v2).*2 tot w)
  /\ (forall (tot : totals) (w : W),
        bind (step3_import_services v2 dry_run)
             (fun r => ret (add_files tot r.2)) w
        = run_actions dry_run (step3_located v2).*2 tot w)
  /\ forall rel f e p,
       (rel, SyncFile f e p) ∈ step2_located v2 ++ step3_located v2 ->
       f ∈ entries_at v2 rel
       /\ map_file_to_infisical (prefix ++ "v2" :: rel) = inr (e, p).
Proof.
  intros Hprefix Hnamed.
  split_and!.
  - intros tot w. rewrite step2_located_actions. apply (step2_runs_as dry_run v2).
  - intros tot w. rewrite step3_located_actions. apply (step3_runs_as dry_run v2).
  - intros rel f e p Hin. split; [by apply (located_at v2 rel f e p)|].
    by apply (located_agree prefix Hprefix v2 Hnamed rel f e p).
Qed.

Lemma map_file_agrees_with_walkers_witness :
  map_file_to_infisical ["/"; "srv"; "ops"; "v2"; "services"; "user-auth"; "prod.env"]
  = inr ("prod", "/services/user-auth")
  /\ map_file_to_infisical
       ["/"; "srv"; "ops"; "v2"; "shared-secrets"; "common"; "database-users.env"]
     = inr ("common", "/shared-secrets/database-users")
  /\ File "prod.env" ["DEBUG=true"]
       ∈ entries_at small_tree ["services"; "user-auth"; "prod.env"].
Proof.
  destruct (map_file_agrees_with_walkers (W := MemStore.store)
              ["/"; "srv"; "ops"] small_tree false) as (_ & _ & Hmap).
  - compute_done.
  - reflexivity.
  - split_and!.
    + apply (Hmap ["services"; "user-auth"; "prod.env"]
                  (File "prod.env" ["DEBUG=true"]) "prod" "/services/user-auth").
      apply list_elem_of_In. vm_compute. tauto.
    + apply (Hmap ["shared-secrets"; "common"; "database-users.env"]
                  (File "database-users.env" ["DB_USER=app"]) "common"
                  "/shared-secrets/database-users").
      apply list_elem_of_In. vm_compute. tauto.
    + apply (Hmap ["services"; "user-auth"; "prod.env"]
                  (File "prod.env" ["DEBUG=true"]) "prod" "/services/user-auth").
      apply list_elem_of_In. vm_compute. tauto.
Defined.
(** X8 (map_file_to_infisical): the mapping by cases.  Only the first
    component named v2 counts: what precedes it is ignored and what
    follows it decides.  With fewer than two components after it, or a
    first component that is neither shared-secrets nor services, the
    call raises.  Below shared-secrets the second component is taken as
    the environment without any check, so a file placed directly in
    shared-secrets is mapped to an environment named after the file
    itself.  Below services the file stem must be common, prod or
    staging and becomes the environment; the remote path is the local
    directory path. *)
Theorem map_file_to_infisical_cases (prefix : list string) :
  "v2" ∉ prefix ->
  (forall parts, "v2" ∉ parts -> map_file_to_infisical parts = inl NotUnderV2)
  /\ (forall rel, length rel < 2 ->
        map_file_to_infisical (prefix ++ "v2" :: rel) = inl BadPathFormat)
  /\ (forall top rest, top ≠ "shared-secrets" -> top ≠ "services" -> rest ≠ [] ->
        map_file_to_infisical (prefix ++ "v2" :: top :: rest) = inl UnknownLayout)
  /\ (forall fname,
        map_file_to_infisical (prefix ++ ["v2"; "shared-secrets"; fname])
        = inr (fname, "/shared-secrets/" +:+ PyPath.stem fname))
  /\ (forall env fname,
        map_file_to_infisical (prefix ++ ["v2"; "shared-secrets"; env; fname])
        = inr (env, "/shared-secrets/" +:+ PyPath.stem fname))
  /\ (forall env d subdirs fname,
        map_file_to_infisical
          (prefix ++ "v2" :: "shared-secrets" :: env :: d :: subdirs ++ [fname])
        = inr (env, "/shared-secrets/" +:+ Py.join "/" (d :: subdirs)
                    +:+ "/" +:+ PyPath.stem fname))
  /\ (forall dirs fname,
        map_file_to_infisical (prefix ++ "v2" :: "services" :: dirs ++ [fname])
        = if bool_decide (PyPath.stem fname ∈ ["common"; "prod"; "staging"])
          then inr (PyPath.stem fname, "/" +:+ Py.join "/" ("services" :: dirs))
          else inl BadServiceFileName).
Proof.
  intros Hprefix. split_and!.
  - intros parts Hnot. unfold map_file_to_infisical.
    destruct (list_find (fun p => p = "v2") parts) as [[i x]|] eqn:Hfind; [|done].
    apply list_find_Some in Hfind as (Hi & -> & _).
    by apply list_elem_of_lookup_2 in Hi.
  - intros rel Hlen. unfold map_file_to_infisical. rewrite list_find_v2 by done.
    cbn zeta. rewrite drop_app_add. cbn [drop]. rewrite drop_0.
    by rewrite (proj2 (Nat.ltb_lt _ _) Hlen).
  - intros top rest Htop1 Htop2 Hrest. unfold map_file_to_infisical.
    rewrite list_find_v2 by done. cbn zeta. rewrite drop_app_add. cbn [drop].
    destruct rest as [|r rest]; [done|].
    replace (length (top :: r :: rest) <? 2) with false
      by (symmetry; apply Nat.ltb_ge; cbn [length]; lia).
    cbn [lookup list_lookup].
    rewrite !bool_decide_false; [done|by intros [= ?]..].
  - intros fname. unfold map_file_to_infisical.
    change (prefix ++ ["v2"; "shared-secrets"; fname])
      with (prefix ++ "v2" :: ["shared-secrets"; fname]).
    rewrite list_find_v2 by done. cbn zeta. rewrite drop_app_add. cbn [drop length].
    cbn [Nat.ltb Nat.leb lookup list_lookup default].
    rewrite bool_decide_true by done.
    change (prefix ++ "v2" :: ["shared-secrets"; fname])
      with (prefix ++ ["v2"; "shared-secrets"] ++ [fname]).
    by rewrite (assoc_L (++)), List.last_last.
  - intros env fname. apply (map_file_shared prefix [] env fname Hprefix).
  - intros env d subdirs fname.
    apply (map_file_shared prefix (d :: subdirs) env fname Hprefix).
  - intros dirs fname. case_bool_decide as Hstem.
    + by apply map_file_services.
    + unfold map_file_to_infisical. rewrite list_find_v2 by done.
      cbn zeta. rewrite drop_app_add. cbn [drop].
      replace (length ("services" :: dirs ++ [fname]) <? 2) with false
        by (symmetry; apply Nat.ltb_ge; cbn [length]; rewrite length_app; cbn; lia).
      rewrite bool_decide_false by done. rewrite bool_decide_true by done.
      change (prefix ++ "v2" :: "services" :: dirs ++ [fname])
        with (prefix ++ ["v2"; "services"] ++ dirs ++ [fname]).
      rewrite (assoc_L (++) prefix), (assoc_L (++) (prefix ++ _)), List.last_last.
      by rewrite bool_decide_false.
Qed.

Lemma map_file_to_infisical_cases_witness :
  map_file_to_infisical ["/"; "srv"; "v2"; "shared-secrets"; "clickhouse.env"]
  = inr ("clickhouse.env", "/shared-secrets/clickhouse")
  /\ map_file_to_infisical ["/"; "srv"; "v2"; "services"; "bi"; "backend"; "dev.env"]
     = inl BadServiceFileName
  /\ map_file_to_infisical
       ["/"; "srv"; "v2"; "services"; "bi"; "v2"; "backend"; "staging.env"]
     = inr ("staging", "/services/bi/v2/backend").
Proof.
  destruct (map_file_to_infisical_cases ["/"; "srv"]) as (_ & _ & _ & H1 & _ & _ & H2).
  - compute_done.
  - split_and!.
    + apply (H1 "clickhouse.env").
    + apply (H2 ["bi"; "backend"] "dev.env").
    + apply (H2 ["bi"; "v2"; "backend"] "staging.env").
Defined.
(** ** What the computations send, and which never raise *)

Section SendsFacts.
Context {W : Type} `{RemoteStore W}.

Lemma sends_ret {A} (P : call -> bool) (a : A) : sends P (ret a : M W A).
Proof. by intros w. Qed.

Lemma sends_raise {A} (P : call -> bool) (e : exn) : sends P (raise e : M W A).
Proof. by intros w. Qed.

Lemma sends_request (P : call -> bool) (c : call) : P c = true -> sends P (request c).
Proof.
  intros Hc w. unfold request. destruct (respond c w) as [r w']. cbn. by rewrite Hc.
Qed.

Lemma sends_bind {A B} (P : call -> bool) (m : M W A) (f : A -> M W B) :
  sends P m -> (forall a, sends P (f a)) -> sends P (bind m f).
Proof.
  intros Hm Hf w. unfold bind. specialize (Hm w).
  destruct (m w) as [[[e|a] w1] t1]; [done|].
  specialize (Hf a w1). destruct (f a w1) as [[r w2] t2]. cbn [snd] in *.
  by rewrite fmap_app, forallb_app, Hm, Hf.
Qed.

Lemma sends_mbind {A B} (P : call -> bool) (m : M W A) (f : A -> M W B) :
  sends P m -> (forall a, sends P (f a)) -> sends P (m ≫= f).
Proof. apply sends_bind. Qed.

Lemma sends_try_except {A} (P : call -> bool) (m : M W A) (h : exn -> M W A) :
  sends P m -> (forall e, sends P (h e)) -> sends P (try_except m h).
Proof.
  intros Hm Hh w. unfold try_except. specialize (Hm w).
  destruct (m w) as [[[e|a] w1] t1]; [|done].
  specialize (Hh e w1). destruct (h e w1) as [[r w2] t2]. cbn [snd] in *.
  by rewrite fmap_app, forallb_app, Hm, Hh.
Qed.

Lemma sends_try_pass (P : call -> bool) (m : M W unit) : sends P m -> sends P (try_pass m).
Proof. intros Hm. apply sends_try_except; [done|]. intros e. apply sends_ret. Qed.

Lemma sends_for_each {A} (P : call -> bool) (l : list A) (body : A -> M W unit) :
  (forall x, sends P (body x)) -> sends P (for_each l body).
Proof.
  intros Hbody. induction l as [|x l IH]; cbn [for_each]; [apply sends_ret|].
  apply sends_bind; [done|]. by intros _.
Qed.

Lemma sends_fold_m {A S} (P : call -> bool) (body : S -> A -> M W S) (l : list A) (s : S) :
  (forall s x, sends P (body s x)) -> sends P (fold_m body l s).
Proof.
  intros Hbody. revert s. induction l as [|x l IH]; intros s; cbn [fold_m];
    [apply sends_ret|]. apply sends_bind; [done|]. apply IH.
Qed.

Lemma sends_mono {A} (P Q : call -> bool) (m : M W A) :
  (forall c, P c = true -> Q c = true) -> sends P m -> sends Q m.
Proof.
  intros HPQ Hm w. specialize (Hm w). rewrite forallb_forall in Hm |- *.
  intros c Hc. by apply HPQ, Hm.
Qed.

Lemma never_raises_ret {A} (a : A) : never_raises (ret a : M W A).
Proof. intros w. by exists a. Qed.

Lemma never_raises_bind {A B} (m : M W A) (f : A -> M W B) :
  never_raises m -> (forall a, never_raises (f a)) -> never_raises (bind m f).
Proof.
  intros Hm Hf w. unfold bind. destruct (Hm w) as [a Ha].
  destruct (m w) as [[[e|a'] w1] t1]; [done|].
  destruct (Hf a' w1) as [b Hb]. destruct (f a' w1) as [[r w2] t2]. by exists b.
Qed.

Lemma never_raises_mbind {A B} (m : M W A) (f : A -> M W B) :
  never_raises m -> (forall a, never_raises (f a)) -> never_raises (m ≫= f).
Proof. apply never_raises_bind. Qed.

Lemma never_raises_try_except {A} (m : M W A) (h : exn -> M W A) :
  (forall e, never_raises (h e)) -> never_raises (try_except m h).
Proof.
  intros Hh w. unfold try_except. destruct (m w) as [[[e|a] w1] t1].
  - destruct (Hh e w1) as [b Hb]. destruct (h e w1) as [[r w2] t2]. by exists b.
  - by exists a.
Qed.

Lemma never_raises_try_pass (m : M W unit) : never_raises (try_pass m).
Proof. apply never_raises_try_except. intros e. apply never_raises_ret. Qed.

Lemma never_raises_for_each {A} (l : list A) (body : A -> M W unit) :
  (forall x, never_raises (body x)) -> never_raises (for_each l body).
Proof.
  intros Hbody. induction l as [|x l IH]; cbn [for_each]; [apply never_raises_ret|].
  apply never_raises_bind; [done|]. by intros _.
Qed.

Lemma never_raises_fold_m {A S} (body : S -> A -> M W S) (l : list A) (s : S) :
  (forall s x, never_raises (body s x)) -> never_raises (fold_m body l s).
Proof.
  intros Hbody. revert s. induction l as [|x l IH]; intros s; cbn [fold_m];
    [apply never_raises_ret|]. apply never_raises_bind; [done|]. apply IH.
Qed.

(** *** The client *)

Lemma sends_list_folders (P : call -> bool) env path :
  P (ListFolders env path) = true -> sends P (list_folders env path).
Proof.
  intros HP. apply sends_mbind; [by apply sends_request|]. intros p. apply sends_ret.
Qed.

Lemma sends_list_secrets (P : call -> bool) env path :
  P (ListSecrets env path) = true -> sends P (list_secrets env path).
Proof.
  intros HP. apply sends_mbind; [by apply sends_request|]. intros p. apply sends_ret.
Qed.

Lemma sends_list_secret_imports (P : call -> bool) env path :
  P (ListSecretImports env path) = true -> sends P (list_secret_imports env path).
Proof.
  intros HP. apply sends_mbind; [by apply sends_request|]. intros p. apply sends_ret.
Qed.

Lemma sends_unit_request (P : call -> bool) (c : call) :
  P c = true -> sends P (request c;; ret tt).
Proof.
  intros HP. apply sends_mbind; [by apply sends_request|]. intros p. apply sends_ret.
Qed.

Lemma sends_delete_all_secret_imports env path :
  sends listing_or_delete (delete_all_secret_imports env path).
Proof.
  apply sends_mbind; [by apply sends_list_secret_imports|]. intros imports.
  apply sends_fold_m. intros count imp. apply sends_try_except.
  - apply sends_mbind; [by apply sends_unit_request|]. intros _. apply sends_ret.
  - intros e. apply sends_ret.
Qed.

Lemma sends_delete_folder_itself env folder_path :
  sends listing_or_delete (delete_folder_itself env folder_path).
Proof.
  unfold delete_folder_itself. destruct (parent_and_name folder_path) as [parent name].
  apply sends_mbind; [by apply sends_list_folders|]. intros folders.
  destruct (List.find _ folders) as [f|]; [|apply sends_ret].
  apply sends_mbind; [by apply sends_unit_request|]. intros _. apply sends_ret.
Qed.

Lemma sends_delete_folder_recursive_body self_call env folder_path :
  (forall e p, sends listing_or_delete (self_call e p)) ->
  sends listing_or_delete (delete_folder_recursive_body self_call env folder_path).
Proof.
  intros Hself. unfold delete_folder_recursive_body.
  destruct (negb (Py.nonempty (Py.rstrip "/"%char folder_path))
            || bool_decide (Py.rstrip "/"%char folder_path = "/")); [apply sends_ret|].
  apply sends_mbind.
  { apply sends_try_pass. apply sends_mbind; [apply sends_delete_all_secret_imports|].
    intros _. apply sends_ret. }
  intros _. apply sends_mbind.
  { apply sends_try_pass. apply sends_mbind; [by apply sends_list_secrets|].
    intros secrets. apply sends_for_each. intros s. apply sends_try_pass.
    by apply sends_unit_request. }
  intros _. apply sends_mbind.
  { apply sends_try_pass. apply sends_mbind; [by apply sends_list_folders|].
    intros subfolders. apply sends_for_each. intros subfolder.
    apply sends_mbind; [apply Hself|]. intros _. apply sends_ret. }
  intros _. apply sends_delete_folder_itself.
Qed.

Lemma sends_delete_folder_recursive depth env folder_path :
  sends listing_or_delete (delete_folder_recursive depth env folder_path).
Proof.
  revert env folder_path. induction depth as [|depth IH]; intros env folder_path;
    cbn [delete_folder_recursive]; apply sends_delete_folder_recursive_body.
  - intros e p. apply sends_raise.
  - apply IH.
Qed.

Lemma sends_ensure_folder_path env folder_path :
  sends listing_or_create_folder (ensure_folder_path env folder_path).
Proof.
  unfold ensure_folder_path.
  destruct (bool_decide (folder_path = "/") || negb (Py.nonempty folder_path));
    [apply sends_ret|].
  apply sends_mbind; [|intros _; apply sends_ret].
  apply sends_fold_m. intros current_path part. unfold ensure_folder_step.
  apply sends_mbind; [by apply sends_list_folders|]. intros existing.
  apply sends_mbind; [|intros _; apply sends_ret].
  case_bool_decide; [apply sends_ret|]. by apply sends_unit_request.
Qed.

(** In preview mode the reconciler sends its listing and nothing else. *)
Lemma sends_set_secrets_from_env_preview env lines path :
  sends is_listing (set_secrets_from_env env lines path true).
Proof.
  unfold set_secrets_from_env.
  destruct (SyncToInfisical.parse_env_file lines) as [|kv desired]; [apply sends_ret|].
  apply sends_mbind; [by apply sends_list_secrets|]. intros l.
  apply sends_fold_m. intros st [key value]. unfold set_secret_step.
  apply sends_try_except; [|intros e; apply sends_ret].
  destruct (dict_get key _) as [s|].
  - case_bool_decide; [|apply sends_ret].
    apply sends_mbind; [apply sends_ret|]. intros _. apply sends_ret.
  - apply sends_mbind; [apply sends_ret|]. intros _. apply sends_ret.
Qed.

Lemma sends_set_secrets_from_entry_preview env f path :
  sends is_listing (set_secrets_from_entry env f path true).
Proof.
  destruct f; [apply sends_set_secrets_from_env_preview | apply sends_raise].
Qed.

End SendsFacts.
(** ** Step 4 on its own *)

Lemma flat_map_ext_Forall {A B} (f g : A -> list B) (l : list A) :
  Forall (fun x => f x = g x) l -> flat_map f l = flat_map g l.
Proof. induction 1 as [|x l Hx _ IH]; [done|]. cbn [flat_map]. by rewrite Hx, IH. Qed.

Lemma scan_dir_services_of (service_dir : fs_entry) :
  forall base_path, scan_dir service_dir base_path = services_of service_dir base_path.
Proof.
  induction service_dir as [name lines|name entries IH] using fs_entry_tree_ind;
    intros base_path; [done|].
  cbn [scan_dir services_of]. apply (f_equal (app _)).
  apply flat_map_ext_Forall. eapply Forall_impl; [exact IH|].
  intros [n l|n es] Hsub; [done|].
  destruct (negb (Py.startswith "." n)); [apply Hsub | done].
Qed.

Lemma scan_services_step3 (v2 : list fs_entry) (l : list service) :
  scan_services_for_imports v2 = inr l -> l = step3_services v2.
Proof.
  unfold scan_services_for_imports, step3_services.
  destruct (lookup_entry "services" v2) as [[n ls|n service_dirs]|]; [done| |done].
  intros [= <-]. apply flat_map_ext_Forall, Forall_forall.
  intros [n0 l0|sn es] _; [done|]. apply scan_dir_services_of.
Qed.

Lemma step3_returns_scannable {W : Type} `{RemoteStore W} (v2 : list fs_entry)
      (dry_run : bool) (w : W) r w' t :
  step3_import_services v2 dry_run w = (inr r, w', t) ->
  exists l, scan_services_for_imports v2 = inr l.
Proof.
  unfold step3_import_services, scan_services_for_imports.
  destruct (lookup_entry "services" v2) as [[n ls|n service_dirs]|]; [done| |done].
  intros _. by eexists.
Qed.

(** X9 (scan_services_for_imports, step3_import_services,
    step4_setup_service_imports): when stage 3 returns, the list of
    services it hands to stage 4 is the list a scan of the local tree
    gives, so stage 4 run on its own (without a list) sends the requests
    and returns the statistics of stage 4 run after stage 3. *)
Theorem step4_alone_links_the_services_of_step3
    {W : Type} `{RemoteStore W} (v2 : list fs_entry) (dry_run3 dry_run : bool)
    (w w' : W) (services : list service) (st : stats) (t : list event) :
  step3_import_services v2 dry_run3 w = (inr (services, st), w', t) ->
  scan_services_for_imports v2 = inr services
  /\ forall w0 : W,
       step4_setup_service_imports_or_scan v2 None dry_run w0
       = step4_setup_service_imports_or_scan v2 (Some services) dry_run w0.
Proof.
  intros Hstep3.
  destruct (step3_returns_scannable v2 dry_run3 w _ _ _ Hstep3) as [l Hscan].
  pose proof (scan_services_step3 v2 l Hscan) as Hl.
  pose proof (step3_services_value dry_run3 v2 w _ _ _ Hstep3) as Hs. cbn [fst] in Hs.
  assert (l = services) as -> by congruence.
  split; [done|]. intros w0. unfold step4_setup_service_imports_or_scan. by rewrite Hscan.
Qed.

Lemma step4_alone_links_the_services_of_step3_witness :
  scan_services_for_imports small_tree = inr [mk_service "/services/user-auth" true true false]
  /\ (step4_setup_service_imports_or_scan small_tree None false MemStore.empty).2.*1
     = [ListSecretImports "prod" "/services/user-auth";
        CreateSecretImport "prod" "/services/user-auth" "common" "/services/user-auth"].
Proof.
  destruct (step3_import_services small_tree true MemStore.empty) as [[r w'] t] eqn:Hrun.
  assert (Hr : r = inr ([mk_service "/services/user-auth" true true false],
                        mk_stats 3 0 0 0)).
  { vm_compute in Hrun. by injection Hrun as <- _ _. }
  subst r.
  destruct (step4_alone_links_the_services_of_step3 small_tree true false
              MemStore.empty w' _ _ t Hrun) as [Hscan Hsame].
  split; [done|]. by rewrite Hsame.
Defined.
(** ** The requests of the full sync *)

Section ActionRequests.
Context {W : Type} `{RemoteStore W}.

Lemma bind_ret_trace {A B} (m : M W A) (g : A -> B) (w : W) :
  (bind m (fun a => ret (g a)) w).2 = (m w).2.
Proof.
  unfold bind, ret. destruct (m w) as [[[e|a] w1] t1]; [done|]. cbn. by rewrite app_nil_r.
Qed.

Lemma sends_set_secrets_from_env env lines path (dry_run : bool) :
  sends is_write_or_listing (set_secrets_from_env env lines path dry_run).
Proof.
  unfold set_secrets_from_env.
  destruct (SyncToInfisical.parse_env_file lines) as [|kv desired]; [apply sends_ret|].
  apply sends_mbind; [by apply sends_list_secrets|]. intros l.
  apply sends_fold_m. intros st [key value]. unfold set_secret_step.
  apply sends_try_except; [|intros e; apply sends_ret].
  destruct (dict_get key _) as [s|].
  - case_bool_decide; [|apply sends_ret].
    apply sends_mbind; [|intros _; apply sends_ret].
    destruct dry_run; [apply sends_ret | by apply sends_unit_request].
  - apply sends_mbind; [|intros _; apply sends_ret].
    destruct dry_run; [apply sends_ret | by apply sends_unit_request].
Qed.

Lemma listing_or_create_folder_write (c : call) :
  listing_or_create_folder c = true -> is_write_or_listing c = true.
Proof. by destruct c. Qed.

Lemma is_listing_create_folder (c : call) :
  is_listing c = true -> listing_or_create_folder c = true.
Proof. by destruct c. Qed.

Lemma sends_import_service_env f e p (dry_run : bool) :
  sends is_write_or_listing (import_service_env f e p dry_run)
  /\ sends listing_or_create_folder (import_service_env f e p true).
Proof.
  unfold import_service_env. split.
  - apply sends_mbind.
    + apply (sends_mono listing_or_create_folder); [apply listing_or_create_folder_write|].
      apply sends_ensure_folder_path.
    + intros _. destruct f; [apply sends_set_secrets_from_env | apply sends_raise].
  - apply sends_mbind; [apply sends_ensure_folder_path|]. intros _.
    apply (sends_mono is_listing); [apply is_listing_create_folder|].
    apply sends_set_secrets_from_entry_preview.
Qed.

Lemma sends_setup_service_import e p (dry_run : bool) :
  sends is_write_or_listing (setup_service_import e p dry_run)
  /\ sends listing_or_create_folder (setup_service_import e p true).
Proof.
  unfold setup_service_import. split.
  - destruct dry_run.
    + apply sends_mbind; [by apply sends_list_secret_imports|]. intros l. apply sends_ret.
    + unfold ensure_secret_import.
      apply sends_mbind; [by apply sends_list_secret_imports|]. intros l.
      destruct (existsb _ l); [apply sends_ret|].
      apply sends_mbind; [by apply sends_unit_request|]. intros _. apply sends_ret.
  - apply sends_mbind; [by apply sends_list_secret_imports|]. intros l. apply sends_ret.
Qed.

Lemma sends_run_actions (dry_run : bool) (l : list action) (tot : totals) :
  sends is_write_or_listing (run_actions dry_run l tot)
  /\ sends listing_or_create_folder (run_actions true l tot).
Proof.
  unfold run_actions. split; apply sends_fold_m; intros tot0 [f e p|e p|ex];
    cbn [run_action]; try apply sends_raise;
    (apply sends_mbind; [|intros r; apply sends_ret]).
  - apply sends_import_service_env.
  - apply sends_setup_service_import.
  - apply (sends_import_service_env f e p true).
  - apply (sends_setup_service_import e p true).
Qed.

End ActionRequests.

(** X10 (the full sync: import_env_files_recursive, import_service_dir,
    step4_setup_service_imports, set_secrets_from_env, ensure_folder_path,
    ensure_secret_import): whatever the remote store answers, the full
    sync never sends a delete request, in either mode; in preview mode
    it sends no secret write and no import creation either: its only
    requests are listings and folder creations. *)
Theorem full_sync_requests
    {W : Type} `{RemoteStore W} (v2 : list fs_entry) (dry_run : bool) (w : W) :
  forallb is_write_or_listing (full_sync v2 dry_run w).2.*1 = true
  /\ forallb listing_or_create_folder (full_sync v2 true w).2.*1 = true.
Proof.
  split.
  - rewrite <- (bind_ret_trace (full_sync v2 dry_run)
                  (fun r => mk_totals (add_stats r.1.1 r.1.2) r.2) w).
    rewrite full_sync_runs_actions.
    apply (proj1 (sends_run_actions dry_run (full_actions v2) no_totals)).
  - rewrite <- (bind_ret_trace (full_sync v2 true)
                  (fun r => mk_totals (add_stats r.1.1 r.1.2) r.2) w).
    rewrite full_sync_runs_actions.
    apply (proj2 (sends_run_actions true (full_actions v2) no_totals)).
Qed.
(** ** Precise sync, purge and cleanup *)

Section PreciseSync.
Context {W : Type} `{RemoteStore W}.

Lemma sends_sync_mapped_file_preview env_file e p :
  sends is_listing (sync_mapped_file env_file e p true).
Proof.
  unfold sync_mapped_file. apply sends_mbind; [apply sends_ret|]. intros _.
  apply sends_set_secrets_from_entry_preview.
Qed.

Lemma for_each_ret {A} (l : list A) (w : W) :
  for_each l (fun _ => ret tt) w = (inr tt, w, []).
Proof.
  induction l as [|x l IH]; [done|]. cbn [for_each]. unfold bind, ret at 1. by rewrite IH.
Qed.

Lemma try_pass_run (m : M W unit) (w : W) :
  try_pass m w = (inr tt, (m w).1.2, (m w).2).
Proof.
  unfold try_pass, try_except, ret. destruct (m w) as [[[e|[]] w1] t1]; cbn [fst snd];
    by rewrite ?app_nil_r.
Qed.

Lemma bind_quiet {A} (m : M W A) (k : A -> M W unit) (w : W) :
  (forall a w0, k a w0 = (inr tt, w0, [])) ->
  (bind m k w).1.2 = (m w).1.2 /\ (bind m k w).2 = (m w).2.
Proof.
  intros Hk. unfold bind. destruct (m w) as [[[e|a] w1] t1]; [done|].
  rewrite Hk. cbn [fst snd]. by rewrite app_nil_r.
Qed.

Lemma try_except_ret_trace {A} (m : M W A) (h : exn -> A) (w : W) :
  (try_except m (fun e => ret (h e)) w).2 = (m w).2.
Proof.
  unfold try_except, ret. destruct (m w) as [[[e|a] w1] t1]; cbn [snd]; by rewrite ?app_nil_r.
Qed.

Lemma bind_silent_trace {A B} (m : M W A) (k : A -> M W B) (w : W) :
  (forall a w0, (k a w0).2 = []) -> (bind m k w).2 = (m w).2.
Proof.
  intros Hk. unfold bind. destruct (m w) as [[[e|a] w1] t1]; [done|].
  specialize (Hk a w1). destruct (k a w1) as [[r w2] t2]. cbn [snd] in *. subst.
  by rewrite app_nil_r.
Qed.

Lemma purge_environment_preview depth env (w : W) :
  exists w' r1 r2,
    purge_environment depth true env w
    = (inr tt, w', [(ListSecrets env "/", r1); (ListFolders env "/", r2)]).
Proof.
  unfold purge_environment, mbind, M_bind.
  set (m1 := bind (list_secrets env "/") _).
  set (m3 := bind (list_folders env "/") _).
  destruct (bind_quiet (list_secrets env "/")
              (fun secrets => match secrets with [] => ret tt | _ => ret tt end) w)
    as [Hw1 Ht1]; [by intros []|].
  destruct (bind_quiet (list_folders env "/")
              (fun folders => for_each folders (fun _ => ret tt))
              (respond (ListSecrets env "/") w).2) as [Hw3 Ht3];
    [intros; apply for_each_ret|].
  fold m1 in Hw1, Ht1. fold m3 in Hw3, Ht3.
  rewrite list_secrets_run in Hw1, Ht1. rewrite list_folders_run in Hw3, Ht3.
  cbn [fst snd] in Hw1, Ht1, Hw3, Ht3.
  unfold bind at 1. rewrite try_pass_run, Hw1, Ht1.
  unfold bind at 1. rewrite try_pass_run. unfold ret at 1. cbn [fst snd].
  rewrite try_pass_run, Hw3, Ht3. by eexists _, _, _.
Qed.

Lemma sends_purge_environment depth (dry_run : bool) env :
  sends listing_or_delete (purge_environment depth dry_run env).
Proof.
  unfold purge_environment. apply sends_mbind.
  { apply sends_try_pass. apply sends_mbind; [by apply sends_list_secrets|].
    intros [|s secrets]; [apply sends_ret|].
    destruct dry_run; [apply sends_ret|]. apply sends_for_each. intros s0.
    apply sends_try_pass. by apply sends_unit_request. }
  intros _. apply sends_mbind.
  { apply sends_try_pass. destruct dry_run; [apply sends_ret|].
    apply sends_mbind; [apply sends_delete_all_secret_imports|]. intros _. apply sends_ret. }
  intros _. apply sends_try_pass. apply sends_mbind; [by apply sends_list_folders|].
  intros folders. apply sends_for_each. intros folder.
  destruct dry_run; [apply sends_ret|]. apply sends_try_pass.
  apply sends_mbind; [apply sends_delete_folder_recursive|]. intros _. apply sends_ret.
Qed.

Lemma never_raises_purge_environment depth (dry_run : bool) env :
  never_raises (purge_environment depth dry_run env).
Proof.
  unfold purge_environment.
  apply never_raises_mbind; [apply never_raises_try_pass|]. intros _.
  apply never_raises_mbind; [apply never_raises_try_pass|]. intros _.
  apply never_raises_try_pass.
Qed.

(** One (path, environment) pair of the cleanup. *)
Lemma cleanup_path_counts depth (dry_run : bool) path st env (w : W) :
  exists st' w' t,
    cleanup_path depth dry_run path st env w = (inr st', w', t)
    /\ paths_deleted st' + paths_not_found st' + paths_failed st'
       = paths_deleted st + paths_not_found st + paths_failed st + 1.
Proof.
  unfold cleanup_path, try_except.
  match goal with |- context [match ?m w with _ => _ end] => destruct (m w) as [[[e|st1] w1] t1] eqn:Hrun end.
  - eexists _, _, _. split; [reflexivity|]. cbn. lia.
  - exists st1, w1, t1. split; [done|].
    destruct dry_run.
    + unfold mbind, M_bind in Hrun.
      apply bind_inr_inv in Hrun as (folders & w2 & t2 & t3 & _ & Hrun & _).
      destruct (existsb _ folders); unfold ret in Hrun; injection Hrun as <- _ _; cbn; lia.
    + unfold mbind, M_bind in Hrun.
      apply bind_inr_inv in Hrun as (deleted & w2 & t2 & t3 & _ & Hrun & _).
      destruct deleted; unfold ret in Hrun; injection Hrun as <- _ _; cbn; lia.
Qed.

Lemma fold_m_counts {A S} (measure : S -> nat) (n : nat) (body : S -> A -> M W S) :
  (forall s x w, exists s' w' t,
      body s x w = (inr s', w', t) /\ measure s' = measure s + n) ->
  forall l s w, exists s' w' t,
    fold_m body l s w = (inr s', w', t) /\ measure s' = measure s + n * length l.
Proof.
  intros Hbody l. induction l as [|x l IH]; intros s w; cbn [fold_m].
  - exists s, w, []. split; [done|]. cbn. lia.
  - destruct (Hbody s x w) as (s1 & w1 & t1 & Hrun1 & Hm1).
    destruct (IH s1 w1) as (s2 & w2 & t2 & Hrun2 & Hm2).
    unfold bind. rewrite Hrun1, Hrun2. eexists _, _, _. split; [reflexivity|].
    cbn [length]. lia.
Qed.

Lemma sends_cleanup_path depth (dry_run : bool) path st env :
  sends listing_or_delete (cleanup_path depth dry_run path st env).
Proof.
  unfold cleanup_path. apply sends_try_except; [|intros e; apply sends_ret].
  destruct dry_run.
  - apply sends_mbind; [by apply sends_list_folders|]. intros folders.
    destruct (existsb _ folders); apply sends_ret.
  - apply sends_mbind; [apply sends_delete_folder_recursive|].
    intros []; apply sends_ret.
Qed.

Lemma cleanup_path_preview depth path st env (w : W) :
  path ∈ deprecated_paths ->
  exists r, (cleanup_path depth true path st env w).2 = [(ListFolders env "/services", r)].
Proof.
  intros Hpath.
  assert (Hparent :
    (if Py.contains "/"%char (Py.strip_char "/"%char path)
     then "/" +:+ Py.join "/" (Py.init (Py.split "/"%char (Py.strip_char "/"%char path)))
     else "/") = "/services").
  { unfold deprecated_paths in Hpath.
    rewrite !elem_of_cons, elem_of_nil in Hpath.
    destruct Hpath as [->|[->|[->|[]]]]; reflexivity. }
  unfold cleanup_path. cbn zeta. rewrite Hparent.
  rewrite try_except_ret_trace. unfold mbind, M_bind.
  rewrite bind_silent_trace by (intros folders w0; by destruct (existsb _ folders)).
  rewrite list_folders_run. by eexists.
Qed.

Lemma fold_m_calls {A S} (body : S -> A -> M W S) (c : A -> list call) (l : list A) :
  (forall x, x ∈ l -> forall s w,
      (exists s', (body s x w).1.1 = inr s') /\ (body s x w).2.*1 = c x) ->
  forall s w,
    (exists s', (fold_m body l s w).1.1 = inr s')
    /\ (fold_m body l s w).2.*1 = flat_map c l.
Proof.
  induction l as [|x l IH]; intros Hbody s w; cbn [fold_m flat_map].
  - split; [by exists s | done].
  - destruct (Hbody x (list_elem_of_here _ _) s w) as [[s1 Hr1] Ht1].
    unfold bind. destruct (body s x w) as [[r1 w1] t1]. cbn [fst snd] in Hr1, Ht1. subst r1.
    destruct (IH (fun y Hy => Hbody y (list_elem_of_further _ _ _ Hy)) s1 w1)
      as [[s2 Hr2] Ht2].
    destruct (fold_m body l s1 w1) as [[r2 w2] t2]. cbn [fst snd] in *.
    split; [by exists s2|]. by rewrite fmap_app, Ht1, Ht2.
Qed.

End PreciseSync.

(** X11 (sync_single_file): the precise sync of one file honours the
    preview mode, whatever the remote store answers and whatever the
    file: in preview mode it sends nothing but listings (the tree
    walkers of the full sync do create folders in preview mode).  A path
    the mapper rejects costs one failed and no request.  In apply mode
    it does, for the mapped environment and remote path, what the tree
    walkers do for a file: ensure the folder path, then reconcile. *)
Theorem sync_single_file_honours_preview
    {W : Type} `{RemoteStore W} (parts : list string) (env_file : fs_entry) (w : W) :
  forallb is_listing (sync_single_file parts env_file true w).2.*1 = true
  /\ (forall err dry_run,
        map_file_to_infisical parts = inl err ->
        sync_single_file parts env_file dry_run w = (inr (mk_stats 0 0 0 1), w, []))
  /\ (forall e p,
        map_file_to_infisical parts = inr (e, p) ->
        sync_single_file parts env_file false w = import_service_env env_file e p false w).
Proof.
  split_and!.
  - unfold sync_single_file. destruct (map_file_to_infisical parts) as [err|[e p]];
      [done|]. apply sends_sync_mapped_file_preview.
  - intros err dry_run Hmap. unfold sync_single_file. by rewrite Hmap.
  - intros e p Hmap. unfold sync_single_file. by rewrite Hmap.
Qed.

(** X12 (purge_all_data): the purge never raises, whatever the remote
    store answers and however deep the folders nest; it sends nothing
    but listings and delete requests; in preview mode it sends exactly
    six listings, the secrets and the folders of the root of each of the
    three environments, and no listing of imports. *)
Theorem purge_all_data_requests
    {W : Type} `{RemoteStore W} (depth : nat) (dry_run : bool) (w : W) :
  (purge_all_data depth dry_run w).1.1 = inr tt
  /\ forallb listing_or_delete (purge_all_data depth dry_run w).2.*1 = true
  /\ (purge_all_data depth true w).2.*1
     = [ListSecrets "common" "/"; ListFolders "common" "/";
        ListSecrets "prod" "/"; ListFolders "prod" "/";
        ListSecrets "staging" "/"; ListFolders "staging" "/"].
Proof.
  split_and!.
  - destruct (never_raises_for_each environments (purge_environment depth dry_run)
                (never_raises_purge_environment depth dry_run) w) as [[] Hrun]. exact Hrun.
  - apply sends_for_each. apply sends_purge_environment.
  - unfold purge_all_data, environments. cbn [for_each]. unfold bind.
    destruct (purge_environment_preview depth "common" w) as (w1 & a1 & b1 & ->).
    destruct (purge_environment_preview depth "prod" w1) as (w2 & a2 & b2 & ->).
    destruct (purge_environment_preview depth "staging" w2) as (w3 & a3 & b3 & ->).
    done.
Qed.

(** X13 (cleanup_deprecated_paths, delete_folder_by_path): the cleanup
    never raises; each of the nine (deprecated path, environment) pairs
    is counted exactly once, as deleted, not found or failed; it sends
    nothing but listings and delete requests; in preview mode it sends
    exactly nine requests, the listing of /services once per pair. *)
Theorem cleanup_deprecated_paths_counts
    {W : Type} `{RemoteStore W} (depth : nat) (dry_run : bool) (w : W) :
  (exists st w' t,
      cleanup_deprecated_paths depth dry_run w = (inr st, w', t)
      /\ paths_deleted st + paths_not_found st + paths_failed st = 9)
  /\ forallb listing_or_delete (cleanup_deprecated_paths depth dry_run w).2.*1 = true
  /\ (cleanup_deprecated_paths depth true w).2.*1
     = [ListFolders "common" "/services"; ListFolders "prod" "/services";
        ListFolders "staging" "/services";
        ListFolders "common" "/services"; ListFolders "prod" "/services";
        ListFolders "staging" "/services";
        ListFolders "common" "/services"; ListFolders "prod" "/services";
        ListFolders "staging" "/services"].
Proof.
  split_and!.
  - unfold cleanup_deprecated_paths.
    destruct (fold_m_counts
                (fun st => paths_deleted st + paths_not_found st + paths_failed st) 3
                (fun st path => fold_m (cleanup_path depth dry_run path) environments st))
      with (l := deprecated_paths) (s := mk_cleanup_stats 0 0 0) (w := w)
      as (st & w' & t & Hrun & Hcount).
    + intros st path w0.
      destruct (fold_m_counts
                  (fun st => paths_deleted st + paths_not_found st + paths_failed st) 1
                  (cleanup_path depth dry_run path) (cleanup_path_counts depth dry_run path)
                  environments st w0) as (st' & w' & t & Hrun & Hcount).
      exists st', w', t. split; [done|]. cbn in Hcount. lia.
    + exists st, w', t. split; [done|]. cbn in Hcount. lia.
  - apply sends_fold_m. intros st path. apply sends_fold_m. intros st' env.
    apply sends_cleanup_path.
  - unfold cleanup_deprecated_paths.
    destruct (fold_m_calls
                (fun st path => fold_m (cleanup_path depth true path) environments st)
                (fun _ => (fun env => ListFolders env "/services") <$> environments)
                deprecated_paths) with (s := mk_cleanup_stats 0 0 0) (w := w) as [_ Hcalls].
    + intros path Hpath st w0.
      destruct (fold_m_calls (cleanup_path depth true path)
                  (fun env => [ListFolders env "/services"]) environments)
        with (s := st) (w := w0) as [Hret Hcalls]; [|by split].
      intros env _ st' w1. split.
      * destruct (cleanup_path_counts depth true path st' env w1) as (st2 & w2 & t2 & -> & _).
        by exists st2.
      * destruct (cleanup_path_preview depth path st' env w1 Hpath) as [r ->]. done.
    + rewrite Hcalls. reflexivity.
Qed.
(** ** Failures and their count *)

Section Failures.
Context {W : Type} `{RemoteStore W}.

Lemma ensure_folder_loop_ok env parts cp (w : W) v w' t :
  fold_m (ensure_folder_step env) parts cp w = (inr v, w', t) ->
  forallb succeeded t = true.
Proof.
  revert cp w t. induction parts as [|part parts IH]; intros cp w t; cbn [fold_m].
  - by intros [= _ _ <-].
  - intros (cp1 & w1 & t1 & t2 & Hstep & Hrest & ->)%bind_inr_inv.
    rewrite forallb_app, (IH _ _ _ Hrest), andb_true_r.
    rewrite SyncFacts.ensure_folder_step_run in Hstep. cbn zeta in Hstep.
    destruct (respond (ListFolders env cp) w) as [[e|pl] w0]; cbn [fst snd] in Hstep;
      [done|].
    case_bool_decide; [by injection Hstep as _ _ <-|].
    destruct (respond (CreateFolder env part cp) w0) as [[e|pl'] w0'];
      cbn [fst snd on_success] in Hstep; [done|]. by injection Hstep as _ _ <-.
Qed.

Lemma ensure_folder_path_ok env fp (w : W) u w' t :
  ensure_folder_path env fp w = (inr u, w', t) -> forallb succeeded t = true.
Proof.
  unfold ensure_folder_path.
  destruct (bool_decide (fp = "/") || negb (Py.nonempty fp)); [by intros [= _ _ <-]|].
  unfold mbind, M_bind. intros (v & w1 & t1 & t2 & Hloop & Hret & ->)%bind_inr_inv.
  unfold ret in Hret. injection Hret as _ _ <-. rewrite app_nil_r.
  by apply ensure_folder_loop_ok in Hloop.
Qed.

Lemma planned_writes_are_writes env path current desired :
  forallb is_secret_write (planned_writes env path current desired) = true.
Proof.
  unfold planned_writes. induction desired as [|kv desired IH]; [done|].
  cbn [omap list_omap]. unfold planned_write at 1.
  destruct (classify current kv); cbn [forallb is_secret_write]; by rewrite ?IH.
Qed.

Lemma failed_writes_split (writes : list event) :
  forallb is_secret_write writes.*1 = true ->
  length (List.filter failed_event writes)
  = length (List.filter failed_create writes) + length (List.filter failed_update writes)
  /\ forallb (fun ev => is_secret_write ev.1) writes = true.
Proof.
  induction writes as [|[c r] writes IH]; [done|].
  cbn [fmap list_fmap forallb fst]. intros [Hc Hrest]%andb_prop.
  destruct (IH Hrest) as [IH1 IH2]. rewrite Hc, IH2. split; [|done].
  destruct c; try done; destruct r;
    cbn [List.filter failed_event succeeded snd negb failed_create failed_update length];
    lia.
Qed.

(** A reconcile call that returns counts as failed exactly the
    requests that failed, and these are secret writes. *)
Lemma set_secrets_from_env_failures env lines p (dry_run : bool) (w : W) st w' t :
  set_secrets_from_env env lines p dry_run w = (inr st, w', t) ->
  failed st = length (List.filter failed_event t)
  /\ forallb (fun ev => succeeded ev || is_secret_write ev.1) t = true.
Proof.
  unfold set_secrets_from_env.
  destruct (SyncToInfisical.parse_env_file lines) as [|kv desired] eqn:Hd;
    [by intros [= <- _ <-]|].
  rewrite <- Hd. clear Hd. unfold mbind at 1, M_bind at 1, bind at 1.
  rewrite list_secrets_run.
  destruct (respond (ListSecrets env p) w) as [[e|pl] w0]; cbn [fst snd on_success];
    [done|].
  destruct (set_secrets_loop env p dry_run (remote_current (inr pl))
              (SyncToInfisical.parse_env_file lines) no_stats w0)
    as (st' & w1 & writes & Hrun & Hw & _ & _ & _ & Hfailed).
  fold (remote_current (inr pl)). rewrite Hrun.
  intros [= <- <- <-].
  assert (Hwrites : forallb is_secret_write writes.*1 = true).
  { rewrite Hw. destruct dry_run; [done | apply planned_writes_are_writes]. }
  destruct (failed_writes_split writes Hwrites) as [Hsplit Hall].
  split.
  - cbn [app List.filter failed_event succeeded snd negb].
    cbn [failed no_stats] in Hfailed. lia.
  - cbn [app forallb]. apply andb_true_intro. split; [done|].
    apply forallb_forall. intros ev Hev. rewrite forallb_forall in Hall.
    by rewrite (Hall ev Hev), orb_true_r.
Qed.

Lemma ok_then_ok_or_write (t : list event) :
  forallb succeeded t = true ->
  length (List.filter failed_event t) = 0
  /\ forallb (fun ev => succeeded ev || is_secret_write ev.1) t = true.
Proof.
  induction t as [|ev t IH]; [done|]. cbn [forallb]. intros [Hev Ht]%andb_prop.
  destruct (IH Ht) as [IH1 IH2]. cbn [List.filter]. unfold failed_event at 1.
  by rewrite Hev, IH2.
Qed.

Lemma setup_service_import_ok e p (dry_run : bool) (w : W) b w' t :
  setup_service_import e p dry_run w = (inr b, w', t) ->
  forallb succeeded t = true
  /\ t.*1 = ListSecretImports e p
            :: (if negb dry_run && b then [CreateSecretImport e p "common" p] else []).
Proof.
  unfold setup_service_import. destruct dry_run.
  - unfold mbind, M_bind, bind. rewrite list_secret_imports_run.
    destruct (respond (ListSecretImports e p) w) as [[ex|pl] w0]; cbn [fst snd on_success];
      [done|]. unfold ret. by intros [= <- <- <-].
  - rewrite ensure_secret_import_run. cbn zeta.
    destruct (respond (ListSecretImports e p) w) as [[ex|pl] w0]; cbn [fst snd]; [done|].
    destruct (existsb _ _); [by intros [= <- <- <-]|].
    destruct (respond (CreateSecretImport e p "common" p) w0) as [[ex|pl'] w1];
      cbn [fst snd on_success]; [done|]. by intros [= <- <- <-].
Qed.

Lemma run_action_failures (dry_run : bool) (tot : totals) (a : action) (w : W) tot' w' t :
  run_action dry_run tot a w = (inr tot', w', t) ->
  failed (files tot') = failed (files tot) + length (List.filter failed_event t)
  /\ forallb (fun ev => succeeded ev || is_secret_write ev.1) t = true.
Proof.
  destruct a as [f e p|e p|ex]; cbn [run_action]; [| |done].
  - unfold mbind, M_bind. intros (st & w1 & t1 & t2 & Hrun & Hret & ->)%bind_inr_inv.
    unfold ret in Hret. injection Hret as <- _ <-. rewrite app_nil_r.
    unfold import_service_env, mbind, M_bind in Hrun.
    apply bind_inr_inv in Hrun as (u & w2 & ta & tb & Hens & Hset & ->).
    apply ensure_folder_path_ok, ok_then_ok_or_write in Hens as [Hens1 Hens2].
    destruct f as [name lines|name entries]; cbn [set_secrets_from_entry] in Hset; [|done].
    apply set_secrets_from_env_failures in Hset as [Hset1 Hset2].
    rewrite List.filter_app, length_app, forallb_app, Hens1, Hens2, Hset2.
    split; [|done]. cbn [files add_files failed add_stats]. lia.
  - unfold mbind, M_bind. intros (b & w1 & t1 & t2 & Hrun & Hret & ->)%bind_inr_inv.
    unfold ret in Hret. injection Hret as <- _ <-. rewrite app_nil_r.
    apply setup_service_import_ok in Hrun as [Hok _].
    apply ok_then_ok_or_write in Hok as [Hok1 Hok2]. rewrite Hok1, Hok2.
    split; [|done]. cbn [files add_link]. lia.
Qed.

Lemma run_actions_failures (dry_run : bool) (l : list action) (tot : totals) (w : W)
      tot' w' t :
  run_actions dry_run l tot w = (inr tot', w', t) ->
  failed (files tot') = failed (files tot) + length (List.filter failed_event t)
  /\ forallb (fun ev => succeeded ev || is_secret_write ev.1) t = true.
Proof.
  unfold run_actions. revert tot w t. induction l as [|a l IH]; intros tot w t;
    cbn [fold_m].
  - intros [= <- _ <-]. split; [cbn; lia | done].
  - intros (tot1 & w1 & t1 & t2 & Ha & Hl & ->)%bind_inr_inv.
    apply run_action_failures in Ha as [Ha1 Ha2]. apply IH in Hl as [Hl1 Hl2].
    rewrite List.filter_app, length_app, forallb_app, Ha2, Hl2. split; [lia | done].
Qed.

End Failures.

(** X14 (the full sync: set_secrets_from_env, ensure_folder_path,
    ensure_secret_import and the walkers): when the full sync returns,
    the failed counts it reports (shared secrets plus services) add up
    to the number of requests that failed, and every request that failed
    is the creation or the update of a secret; any other failing
    request, a listing, a folder creation or an import creation, ends
    the run with its exception. *)
Theorem full_sync_counts_every_failure
    {W : Type} `{RemoteStore W} (v2 : list fs_entry) (dry_run : bool) (w w' : W)
    (shared services : stats) (links : import_stats) (t : list event) :
  full_sync v2 dry_run w = (inr (shared, services, links), w', t) ->
  failed shared + failed services = length (List.filter failed_event t)
  /\ forallb (fun ev => succeeded ev || is_secret_write ev.1) t = true.
Proof.
  intros Hrun. pose proof (full_sync_runs_actions dry_run v2 w) as Hact.
  rewrite (bind_ret_value _ _ _ _ _ _ Hrun) in Hact. symmetry in Hact.
  apply run_actions_failures in Hact as [Hcount Hall]. split; [|done].
  cbn [files no_totals fst snd] in Hcount. unfold add_stats in Hcount.
  cbn [failed no_stats] in Hcount. lia.
Qed.

Lemma full_sync_counts_every_failure_witness :
  exists w' t,
    full_sync one_file_tree false failing_once
    = (inr (mk_stats 0 0 0 1, no_stats, mk_import_stats 0 0), w', t)
    /\ length (List.filter failed_event t) = 1.
Proof.
  destruct (full_sync one_file_tree false failing_once) as [[r w'] t] eqn:Hrun.
  assert (Hr : r = inr (mk_stats 0 0 0 1, no_stats, mk_import_stats 0 0)).
  { vm_compute in Hrun. by injection Hrun as <- _ _. }
  subst r. exists w', t. split; [done|].
  destruct (full_sync_counts_every_failure one_file_tree false failing_once w'
              _ _ _ t Hrun) as [Hcount _].
  cbn [failed no_stats] in Hcount. lia.
Defined.
(** ** The edges of step 4 *)

Section Step4Counts.
Context {W : Type} `{RemoteStore W}.

Lemma setup_service_import_counts e p (dry_run : bool) (st : import_stats) (w : W)
      b w' t :
  setup_service_import e p dry_run w = (inr b, w', t) ->
  let st' := count_import b st in
  imports_created st' + imports_unchanged st'
  = imports_created st + imports_unchanged st + 1
  /\ List.filter is_listing t.*1 = [ListSecretImports e p]
  /\ imports_created st + length (List.filter mutating t.*1)
     = (if dry_run then imports_created st else imports_created st')
  /\ forallb succeeded t = true.
Proof.
  intros [Hok Hcalls]%setup_service_import_ok. rewrite Hcalls.
  destruct dry_run, b; cbn; split_and!; try done; lia.
Qed.

Lemma setup_service_imports_step_counts (dry_run : bool) (st : import_stats)
      (svc : service) (w : W) st' w' t :
  setup_service_imports_step dry_run st svc w = (inr st', w', t) ->
  imports_created st' + imports_unchanged st'
  = imports_created st + imports_unchanged st + length (service_listings svc)
  /\ List.filter is_listing t.*1 = service_listings svc
  /\ imports_created st + length (List.filter mutating t.*1)
     = (if dry_run then imports_created st else imports_created st')
  /\ forallb succeeded t = true.
Proof.
  unfold setup_service_imports_step, service_listings.
  destruct (has_common svc); [|by intros [= <- _ <-]; destruct dry_run].
  unfold mbind at 1, M_bind at 1.
  intros (st1 & w1 & t1 & t2 & Hprod & Hstaging & ->)%bind_inr_inv.
  assert (Hp : imports_created st1 + imports_unchanged st1
               = imports_created st + imports_unchanged st
                 + length (if has_prod svc
                           then [ListSecretImports "prod" (svc_path svc)] else [])
               /\ List.filter is_listing t1.*1
                  = (if has_prod svc then [ListSecretImports "prod" (svc_path svc)] else [])
               /\ imports_created st + length (List.filter mutating t1.*1)
                  = (if dry_run then imports_created st else imports_created st1)
               /\ forallb succeeded t1 = true).
  { destruct (has_prod svc).
    - unfold mbind, M_bind in Hprod.
      apply bind_inr_inv in Hprod as (b & wa & ta & tb & Hrun & Hret & ->).
      unfold ret in Hret. injection Hret as <- _ <-. rewrite app_nil_r.
      apply (setup_service_import_counts _ _ _ st) in Hrun. exact Hrun.
    - unfold ret in Hprod. injection Hprod as <- _ <-. by destruct dry_run. }
  assert (Hs : imports_created st' + imports_unchanged st'
               = imports_created st1 + imports_unchanged st1
                 + length (if has_staging svc
                           then [ListSecretImports "staging" (svc_path svc)] else [])
               /\ List.filter is_listing t2.*1
                  = (if has_staging svc
                     then [ListSecretImports "staging" (svc_path svc)] else [])
               /\ imports_created st1 + length (List.filter mutating t2.*1)
                  = (if dry_run then imports_created st1 else imports_created st')
               /\ forallb succeeded t2 = true).
  { destruct (has_staging svc).
    - unfold mbind, M_bind in Hstaging.
      apply bind_inr_inv in Hstaging as (b & wa & ta & tb & Hrun & Hret & ->).
      unfold ret in Hret. injection Hret as <- _ <-. rewrite app_nil_r.
      apply (setup_service_import_counts _ _ _ st1) in Hrun. exact Hrun.
    - unfold ret in Hstaging. injection Hstaging as <- _ <-. by destruct dry_run. }
  destruct Hp as (P1 & P2 & P3 & P4), Hs as (S1 & S2 & S3 & S4).
  rewrite fmap_app, !List.filter_app, !length_app, forallb_app, P2, S2, P4, S4.
  split_and!; [lia | done | destruct dry_run; lia | done].
Qed.

Lemma step4_loop_counts (dry_run : bool) (services : list service) (st : import_stats)
      (w : W) st' w' t :
  fold_m (setup_service_imports_step dry_run) services st w = (inr st', w', t) ->
  imports_created st' + imports_unchanged st'
  = imports_created st + imports_unchanged st
    + length (flat_map service_listings services)
  /\ List.filter is_listing t.*1 = flat_map service_listings services
  /\ imports_created st + length (List.filter mutating t.*1)
     = (if dry_run then imports_created st else imports_created st')
  /\ forallb succeeded t = true.
Proof.
  revert st w t. induction services as [|svc services IH]; intros st w t;
    cbn [fold_m flat_map].
  - intros [= <- _ <-]. split_and!; [cbn; lia | done | by destruct dry_run; cbn; lia | done].
  - intros (st1 & w1 & t1 & t2 & Hstep & Hrest & ->)%bind_inr_inv.
    apply setup_service_imports_step_counts in Hstep as (P1 & P2 & P3 & P4).
    apply IH in Hrest as (S1 & S2 & S3 & S4).
    rewrite fmap_app, !List.filter_app, !length_app, forallb_app, P2, S2, P4, S4.
    split_and!; [lia | done | destruct dry_run; lia | done].
Qed.

End Step4Counts.

(** X15 (step4_setup_service_imports, ensure_secret_import): when step 4
    returns, it has listed the imports of prod and of staging, in that
    order, for each service that has a common.env and the matching
    file, and for no other service; each listing is counted once, as
    created or as already there; in apply mode the create requests sent
    are as many as the created count, in preview mode none is sent; and
    no request has failed, since any failure ends step 4 with its
    exception. *)
Theorem step4_counts_every_edge
    {W : Type} `{RemoteStore W} (services : list service) (dry_run : bool) (w w' : W)
    (st : import_stats) (t : list event) :
  step4_setup_service_imports services dry_run w = (inr st, w', t) ->
  imports_created st + imports_unchanged st = length (flat_map service_listings services)
  /\ List.filter is_listing t.*1 = flat_map service_listings services
  /\ length (List.filter mutating t.*1) = (if dry_run then 0 else imports_created st)
  /\ forallb succeeded t = true.
Proof.
  intros Hrun. apply step4_loop_counts in Hrun as (H1 & H2 & H3 & H4).
  cbn [imports_created imports_unchanged] in H1, H3.
  split_and!; [lia | done | destruct dry_run; lia | done].
Qed.

Lemma step4_counts_every_edge_witness :
  exists w' t,
    step4_setup_service_imports
      [mk_service "/services/a" true true true; mk_service "/services/b" false true true;
       mk_service "/services/c" true false true] false MemStore.empty
    = (inr (mk_import_stats 3 0), w', t)
    /\ List.filter is_listing t.*1
       = [ListSecretImports "prod" "/services/a"; ListSecretImports "staging" "/services/a";
          ListSecretImports "staging" "/services/c"]
    /\ length (List.filter mutating t.*1) = 3.
Proof.
  destruct (step4_setup_service_imports
              [mk_service "/services/a" true true true;
               mk_service "/services/b" false true true;
               mk_service "/services/c" true false true] false MemStore.empty)
    as [[r w'] t] eqn:Hrun.
  assert (Hr : r = inr (mk_import_stats 3 0)).
  { vm_compute in Hrun. by injection Hrun as <- _ _. }
  subst r. exists w', t. split; [done|].
  destruct (step4_counts_every_edge _ _ _ _ _ _ Hrun) as (_ & Hl & Hm & _).
  by split.
Defined.
